(** * Chunked AI-request orchestration: a shallow embedding

    The development follows two source files of the repository:

    - [src/features/analysis/services/chunking-service.ts]
      (the capability registry [API_TOKEN_LIMITS], [needsChunking],
      [createChunks], [processWithChunking]);
    - [src/features/analysis/services/chrome-ai-service-simple.ts]
      (the availability gateway [checkApiAvailability],
      [downloadSpecificAPI], and the five capability adapters).

    JavaScript strings are sequences of UTF-16 code units; numbers that the
    code uses as sizes and indices are integers and are modelled in [Z];
    asynchronous, fallible host calls are modelled in a small state, error
    and trace monad. *)

From Stdlib Require Import String Ascii DecimalString DecimalNat.
From Stdlib Require Import ZArith NArith Bool Lia List.
Import ListNotations.

Set Implicit Arguments.

(* ================================================================== *)
(** * JavaScript strings *)
(* ================================================================== *)

Module JS.

  (** A UTF-16 code unit, and a string as the sequence of its code units
      ([String.prototype.length] counts code units). *)
Definition codeunit := N.
Definition jsstring := list codeunit.

  (** A literal of the source text (all literals of the two files are ASCII). *)
Definition lit (s : string) : jsstring := map N_of_ascii (list_ascii_of_string s).

Definition length (s : jsstring) : Z := Z.of_nat (List.length s).

Definition eqb (a b : jsstring) : bool :=
    if list_eq_dec N.eq_dec a b then true else false.

  (** ToBoolean on a string: the empty string is the only falsy one. *)
Definition truthy (s : jsstring) : bool :=
    match s with [] => false | _ :: _ => true end.

  (** ECMAScript WhiteSpace and LineTerminator code points, all of which
      are single code units: what [trim] strips. *)
Definition isWhiteSpace (c : codeunit) : bool :=
    ((c =? 9) || (c =? 10) || (c =? 11) || (c =? 12) || (c =? 13) ||
     (c =? 32) || (c =? 160) || (c =? 5760) ||
     ((8192 <=? c) && (c <=? 8202)) ||
     (c =? 8232) || (c =? 8233) || (c =? 8239) || (c =? 8287) ||
     (c =? 12288) || (c =? 65279))%N.

Fixpoint dropWhile (p : codeunit -> bool) (s : jsstring) : jsstring :=
    match s with
    | [] => []
    | c :: s' => if p c then dropWhile p s' else s
    end.

Definition trimStart (s : jsstring) : jsstring := dropWhile isWhiteSpace s.
Fixpoint trimEnd (s : jsstring) : jsstring :=
  match s with
  | [] => []
  | c :: s' =>
      match trimEnd s' with
      | [] => if isWhiteSpace c then [] else [c]
      | t => c :: t
      end
  end.
Definition trim (s : jsstring) : jsstring := trimEnd (trimStart s).

  (** [String.prototype.slice(start, end)]: a negative index counts from
      the end, indices are clamped to the string, an empty span gives the
      empty string. *)
Definition clampIndex (len k : Z) : Z :=
    if (k <? 0)%Z then Z.max (len + k) 0 else Z.min k len.

Definition slice (s : jsstring) (start stop : Z) : jsstring :=
    let len := length s in
    let from := clampIndex len start in
    let to := clampIndex len stop in
    firstn (Z.to_nat (to - from)) (skipn (Z.to_nat from) s).

  (** [Array.prototype.join] on an array of strings. *)
Fixpoint join (sep : jsstring) (parts : list jsstring) : jsstring :=
    match parts with
    | [] => []
    | [p] => p
    | p :: rest => p ++ sep ++ join sep rest
    end.

  (** Number-to-string conversion of a non-negative integer, as a template
      literal performs it. *)
Definition ofNat (n : nat) : jsstring := lit (NilEmpty.string_of_uint (Nat.to_uint n)).

End JS.

Abbreviation jsstring := JS.jsstring.

(* ================================================================== *)
(** * Asynchronous, fallible calls *)
(* ================================================================== *)

(** An [await]ed call either resolves to a value or rejects with a thrown
    value, may change the state of the host, and leaves a trace of what it
    did.  [M St Ev A] is the corresponding state, error and trace monad. *)
Module Effect.

  (** What a [catch] clause can tell about the value it caught:
      [error instanceof Error] and then [error.message]. *)
Inductive thrown :=
  | ThrownError (message : jsstring)
  | ThrownOther.

  (** [error instanceof Error ? error.message : fallback]. *)
Definition messageOr (fallback : jsstring) (e : thrown) : jsstring :=
    match e with
    | ThrownError m => m
    | ThrownOther => fallback
    end.

Section Monad.
Variables St Ev : Type.

Definition M (A : Type) : Type := St -> (thrown + A) * St * list Ev.

Definition ret (A : Type) (a : A) : M A :=
      fun st => (inr a, st, []).

Definition bind (A B : Type) (m : M A) (k : A -> M B) : M B :=
      fun st =>
        match m st with
        | (inl e, st1, tr1) => (inl e, st1, tr1)
        | (inr a, st1, tr1) =>
            match k a st1 with
            | (r, st2, tr2) => (r, st2, tr1 ++ tr2)
            end
        end.

Definition throw (A : Type) (e : thrown) : M A :=
      fun st => (inl e, st, []).

    (** [try { body } catch (error) { handler }]. *)
Definition tryCatch (A : Type) (body : M A) (handler : thrown -> M A) : M A :=
      fun st =>
        match body st with
        | (inl e, st1, tr1) =>
            match handler e st1 with
            | (r, st2, tr2) => (r, st2, tr1 ++ tr2)
            end
        | (inr a, st1, tr1) => (inr a, st1, tr1)
        end.

Definition emit (e : Ev) : M unit :=
      fun st => (inr tt, st, [e]).

(** Reading the environment without changing it. *)
Definition gets (A : Type) (f : St -> A) : M A :=
      fun st => (inr (f st), st, []).
End Monad.

Arguments ret {St Ev A} a.
Arguments bind {St Ev A B} m k.
Arguments throw {St Ev A} e.
Arguments tryCatch {St Ev A} body handler.
Arguments emit {St Ev} e.
Arguments gets {St Ev A} f.

  (** Running a computation of one layer inside the next one. *)
Definition mapTrace (St Ev Ev' A : Type) (f : Ev -> Ev') (m : M St Ev A) : M St Ev' A :=
    fun st =>
      match m st with
      | (r, st1, tr1) => (r, st1, map f tr1)
      end.

  (** Projections of a finished run. *)
Definition outcome (St Ev A : Type) (run : (thrown + A) * St * list Ev) : thrown + A :=
    fst (fst run).
Definition finalState (St Ev A : Type) (run : (thrown + A) * St * list Ev) : St :=
    snd (fst run).
Definition trace (St Ev A : Type) (run : (thrown + A) * St * list Ev) : list Ev :=
    snd run.

End Effect.

Declare Scope js_scope.
Delimit Scope js_scope with js.
Notation "x <- m ;; k" := (Effect.bind m (fun x => k))
  (at level 61, m at next level, right associativity) : js_scope.
Notation "m ;; k" := (Effect.bind m (fun _ => k))
  (at level 61, right associativity) : js_scope.

(* ================================================================== *)
(** * chunking-service.ts: registry and splitter *)
(* ================================================================== *)

Module ChunkingService.

Local Open Scope Z_scope.

  (** [interface ChunkingOptions]; [overlapSize] is optional. *)
Record ChunkingOptions := mkOptions {
    maxTokens : Z;
    chunkSize : Z;
    overlapSize : option Z
  }.

Inductive APIKey :=
  | summarizer | writer | languageModel | proofreader | translator | rewriter.

Definition API_TOKEN_LIMITS (apiKey : APIKey) : ChunkingOptions :=
    match apiKey with
    | summarizer => mkOptions 2500 8000 (Some 400)
    | writer => mkOptions 9000 30000 (Some 1000)
    | languageModel => mkOptions 9216 30000 (Some 1000)
    | proofreader => mkOptions 9000 30000 (Some 1000)
    | translator => mkOptions 9000 30000 (Some 1000)
    | rewriter => mkOptions 9000 30000 (Some 1000)
    end.

Definition getOptions (apiKey : APIKey) : ChunkingOptions := API_TOKEN_LIMITS apiKey.

  (** [options.overlapSize || 0]. *)
Definition overlapOrZero (options : ChunkingOptions) : Z :=
    match overlapSize options with
    | Some n => n
    | None => 0
    end.

  (** The loop increment [options.chunkSize - (options.overlapSize || 0)]. *)
Definition increment (options : ChunkingOptions) : Z :=
    chunkSize options - overlapOrZero options.

  (** Body of [needsChunking] once the options are looked up. *)
Definition needsChunkingWith (options : ChunkingOptions) (content : jsstring) : bool :=
    chunkSize options <? JS.length content.

Definition needsChunking (content : jsstring) (apiKey : APIKey) : bool :=
    needsChunkingWith (API_TOKEN_LIMITS apiKey) content.

  (** [chunk.trim().length > 0]. *)
Definition keepChunk (chunk : jsstring) : bool :=
    0 <? JS.length (JS.trim chunk).

  (** The [for] loop of [createChunks]: test, body, increment.  The loop
      has no bound of its own, so the model counts iterations down from
      [fuel] and answers [None] when they are used up before the test
      [i < content.length] fails. *)
Fixpoint createChunks_loop (fuel : nat) (options : ChunkingOptions)
           (content : jsstring) (i : Z) (chunks : list jsstring)
    : option (list jsstring) :=
    if i <? JS.length content then
      match fuel with
      | O => None
      | S fuel' =>
          let chunk := JS.slice content i (i + chunkSize options) in
          let chunks' := if keepChunk chunk then chunks ++ [chunk] else chunks in
          createChunks_loop fuel' options content (i + increment options) chunks'
      end
    else Some chunks.

  (** Body of [createChunks] once the options are looked up. *)
Definition createChunksWith (fuel : nat) (options : ChunkingOptions)
             (content : jsstring) : option (list jsstring) :=
    createChunks_loop fuel options content 0 [].

  (** [createChunks(content, apiKey)].  Every registry profile advances by
    at least one character per iteration, so [content.length] iterations
    are enough and the default of the [match] is never taken. *)
Definition createChunks (content : jsstring) (apiKey : APIKey) : list jsstring :=
    match createChunksWith (List.length content) (API_TOKEN_LIMITS apiKey) content with
    | Some chunks => chunks
    | None => []
    end.

(** ** The chunked execution engine *)

(** [interface ChunkingResult].  The result of [apiFunction] has the same
    three fields, with its [data] of a type parameter that every caller
    instantiates with [string] and that the engine casts to [string]; the
    two are one structural type here. *)
Record ChunkingResult := mkResult {
  success : bool;
  data : option jsstring;
  error : option jsstring
}.

(** [x || fallback] on an optional string. *)
Definition orElse (x : option jsstring) (fallback : jsstring) : jsstring :=
  match x with
  | Some s => if JS.truthy s then s else fallback
  | None => fallback
  end.

(** ToBoolean of an optional string, as in [chunkResult.success && chunkResult.data]. *)
Definition truthyData (x : option jsstring) : bool :=
  match x with
  | Some s => JS.truthy s
  | None => false
  end.

(** [chunkResult.data as string] where the test above has passed. *)
Definition dataString (x : option jsstring) : jsstring :=
  match x with
  | Some s => s
  | None => []
  end.

(** What the engine does that an observer can see.  The [console.log]
    diagnostics are left out; [Invoke] marks a call of [apiFunction] and
    [Inner] wraps whatever that call itself does. *)
Inductive event (HEv : Type) :=
| Progress (message : jsstring)
| Warn (message : jsstring)
| Invoke (chunk : jsstring)
| Delay (ms : Z)
| Inner (e : HEv).

Arguments Progress {HEv} message.
Arguments Warn {HEv} message.
Arguments Invoke {HEv} chunk.
Arguments Delay {HEv} ms.
Arguments Inner {HEv} e.

Section Engine.
Variables St HEv : Type.

Local Open Scope js_scope.

(** The engine's layer and the layer of the worker it calls. *)
Definition Engine (A : Type) : Type := Effect.M St (event HEv) A.
Definition Worker : Type := jsstring -> Effect.M St HEv ChunkingResult.

(** [onProgress?.(message)]: [onProgress] tells whether a sink was given. *)
Definition progress (onProgress : bool) (message : jsstring) : Engine unit :=
  if onProgress then Effect.emit (Progress message) else Effect.ret tt.

(** [await apiFunction(chunk)]. *)
Definition invoke (apiFunction : Worker) (chunk : jsstring) : Engine ChunkingResult :=
  Effect.emit (Invoke chunk) ;;
  Effect.mapTrace (@Inner HEv) (apiFunction chunk).

(** The loop [for (let i = 0; i < chunks.length; i++)] over the chunks
    still to process, [rest] being [chunks] from index [i] on. *)
Fixpoint processChunks_loop (apiFunction : Worker) (onProgress : bool) (total : nat)
         (rest : list jsstring) (i : nat) (results : list jsstring)
  : Engine (list jsstring) :=
  match rest with
  | [] => Effect.ret results
  | chunk :: rest' =>
      progress onProgress
        (JS.lit "Processing section " ++ JS.ofNat (i + 1) ++ JS.lit " of " ++
         JS.ofNat total ++ JS.lit "...") ;;
      chunkResult <- invoke apiFunction chunk ;;
      results' <- (if success chunkResult && truthyData (data chunkResult)
                   then Effect.ret (results ++ [dataString (data chunkResult)])
                   else
                     Effect.emit (Warn (JS.lit "Failed to process chunk " ++
                                        JS.ofNat (i + 1) ++ JS.lit ", skipping...")) ;;
                     Effect.ret results) ;;
      Effect.emit (Delay 100) ;;
      processChunks_loop apiFunction onProgress total rest' (S i) results'
  end.

(** The paragraph separator of [results.join]. *)
Definition separator : jsstring := [10; 10]%N.

Definition processWithChunking (content : jsstring) (apiKey : APIKey)
           (apiFunction : Worker) (onProgress : bool) : Engine ChunkingResult :=
  Effect.tryCatch
    (if negb (needsChunking content apiKey) then
       progress onProgress (JS.lit "Processing document...") ;;
       result <- invoke apiFunction content ;;
       if success result
       then Effect.ret (mkResult true (data result) None)
       else Effect.ret (mkResult false None
                          (Some (orElse (error result) (JS.lit "API call failed"))))
     else
       let chunks := createChunks content apiKey in
       progress onProgress
         (JS.lit "Processing large document in " ++ JS.ofNat (List.length chunks) ++
          JS.lit " sections...") ;;
       results <- processChunks_loop apiFunction onProgress (List.length chunks)
                    chunks 0 [] ;;
       if (List.length results =? 0)%nat
       then Effect.ret (mkResult false None (Some (JS.lit "All chunks failed to process")))
       else
         progress onProgress (JS.lit "Combining results...") ;;
         let combinedResult := JS.join separator results in
         if needsChunking combinedResult apiKey then
           progress onProgress (JS.lit "Finalizing results...") ;;
           finalResult <- invoke apiFunction combinedResult ;;
           if success finalResult
           then Effect.ret (mkResult true (data finalResult) None)
           else Effect.ret (mkResult true (Some combinedResult) None)
         else Effect.ret (mkResult true (Some combinedResult) None))
    (fun error =>
       Effect.ret (mkResult false None
                     (Some (Effect.messageOr (JS.lit "Chunking processing failed") error)))).

End Engine.

End ChunkingService.

(* ================================================================== *)
(** * chrome-ai-service-simple.ts: gateway and adapters *)
(* ================================================================== *)

Module ChromeAIService.

Import Effect.

(** ** The model host *)

(** The option objects the service passes to [availability] and [create]. *)
Inductive hostOptions :=
| NoOptions
| LanguageOption (language : jsstring)
| LanguagePair (sourceLanguage targetLanguage : jsstring)
| WriterOptions (tone format length : jsstring) (language : option jsstring) (monitor : bool)
| RewriterOptions (tone format length : option jsstring).

(** The calls that reach the host, as they appear in a trace. *)
Inductive hostCall :=
| Availability (apiName : jsstring) (options : hostOptions)
| Create (apiName : jsstring) (options : hostOptions)
| Run (apiName : jsstring) (input : jsstring).

Section Host.
Variable St : Type.

(** A host entry point: resolves or rejects, and may change the host. *)
Definition HostOp (A : Type) : Type := St -> (thrown + A) * St.

(** A session handle exposes a single verb ([summarize], [write],
    [rewrite], [translate] or [proofread]). *)
Definition Session : Type := jsstring -> HostOp jsstring.

(** A capability global such as [window.Summarizer]: each of the two
    entry points is a function or is missing. *)
Record ApiObject := mkApi {
  availability : option (hostOptions -> HostOp jsstring);
  create : option (hostOptions -> HostOp Session)
}.

(** The environment of a call: whether [window] exists, the globals it
    exposes (fixed for the duration of a call), and
    [navigator.userActivation?.isActive]. *)
Record Host := mkHost {
  hasWindow : bool;
  global : jsstring -> option ApiObject;
  userActivationIsActive : St -> bool
}.

End Host.

Arguments mkApi {St} availability create.
Arguments mkHost {St} hasWindow global userActivationIsActive.

(** ** Results *)

Record ErrorInfo := mkError {
  code : jsstring;
  message : jsstring;
  details : option thrown
}.

(** [interface ChromeAIResult<T>]. *)
Record ChromeAIResult (T : Type) := mkChromeAIResult {
  success : bool;
  data : option T;
  error : option ErrorInfo
}.

Arguments mkChromeAIResult {T} success data error.

Definition succeeded (T : Type) (payload : T) : ChromeAIResult T :=
  mkChromeAIResult true (Some payload) None.

Definition failed (T : Type) (code message : jsstring) (details : option thrown)
  : ChromeAIResult T :=
  mkChromeAIResult false None (Some (mkError code message details)).

Arguments failed {T} code message details.

(** The payload types of the results. *)
Record DownloadStatus := { status : jsstring }.
Record Summary := { summary : option jsstring }.
Record Generated := { text : option jsstring }.
Record Proofread := { correctedText : jsstring }.
Record Translated := { translatedText : jsstring }.
Record Rewritten := { rewrittenText : jsstring }.

(** The message of the [TypeError] raised by calling a missing method
    (the wording is the engine's; nothing below depends on it). *)
Definition notAFunction (what : jsstring) : jsstring :=
  what ++ JS.lit " is not a function".

(** [x ?? fallback] on an optional string. *)
Definition nullish (x : option jsstring) (fallback : jsstring) : jsstring :=
  match x with
  | Some s => s
  | None => fallback
  end.

(** An optional string that is kept only when truthy, as in
    [if (options?.tone) rewriterOptions.tone = options.tone]. *)
Definition whenTruthy (x : option jsstring) : option jsstring :=
  match x with
  | Some s => if JS.truthy s then Some s else None
  | None => None
  end.

Section Service.
Variable St : Type.
Variable host : Host St.

Local Open Scope js_scope.

(** The layer of the host calls and the layer of the service methods. *)
Definition H (A : Type) : Type := M St hostCall A.
Definition Service (A : Type) : Type := M St (ChunkingService.event hostCall) A.

Definition perform (A : Type) (call : hostCall) (op : HostOp St A) : H A :=
  fun st =>
    match op st with
    | (r, st1) => (r, st1, [call])
    end.

(** [await api.availability(options)]. *)
Definition callAvailability (apiName : jsstring) (api : ApiObject St)
           (options : hostOptions) : H jsstring :=
  match availability api with
  | Some f => perform (Availability apiName options) (f options)
  | None => throw (ThrownError (notAFunction (apiName ++ JS.lit ".availability")))
  end.

(** [await api.create(options)]. *)
Definition callCreate (apiName : jsstring) (api : ApiObject St)
           (options : hostOptions) : H (Session St) :=
  match create api with
  | Some f => perform (Create apiName options) (f options)
  | None => throw (ThrownError (notAFunction (apiName ++ JS.lit ".create")))
  end.

(** [await session.verb(input)]. *)
Definition callRun (apiName : jsstring) (session : Session St) (input : jsstring)
  : H jsstring :=
  perform (Run apiName input) (session input).

(** A host call made by a service method itself. *)
Definition direct (A : Type) (m : H A) : Service A :=
  mapTrace (@ChunkingService.Inner hostCall) m.

(** The options of the Translator availability check and download. *)
Definition enToEs : hostOptions := LanguagePair (JS.lit "en") (JS.lit "es").

(** ** [checkApiAvailability] *)

Definition checkApiAvailability (apiName : jsstring) : Service jsstring :=
  tryCatch
    (if negb (hasWindow host)
     then throw (ThrownError (JS.lit "window is not defined"))
     else
       match global host apiName with
       | None => ret (JS.lit "unavailable")
       | Some api =>
           match availability api with
           | None => ret (JS.lit "unavailable")
           | Some _ =>
               if JS.eqb apiName (JS.lit "Translator") then
                 result <- direct (callAvailability apiName api enToEs) ;;
                 ret result
               else
                 result <- direct (callAvailability apiName api NoOptions) ;;
                 ret result
           end
       end)
    (fun _ => ret (JS.lit "unavailable")).

(** ** [downloadSpecificAPI] *)

Definition downloadSpecificAPI (apiName : jsstring) : Service (ChromeAIResult DownloadStatus) :=
  if negb (hasWindow host) then
    ret (failed (JS.lit "SSR_ERROR") (JS.lit "Cannot access Chrome AI APIs on server side") None)
  else
    tryCatch
      (match global host apiName with
       | None =>
           ret (failed (JS.lit "API_UNAVAILABLE") (apiName ++ JS.lit " API is not available") None)
       | Some api =>
           match create api with
           | None =>
               ret (failed (JS.lit "API_UNAVAILABLE")
                      (apiName ++ JS.lit " API is not available") None)
           | Some _ =>
               availability <-
                 match availability api with
                 | Some _ =>
                     if JS.eqb apiName (JS.lit "Translator")
                     then direct (callAvailability apiName api enToEs)
                     else direct (callAvailability apiName api NoOptions)
                 | None => ret (JS.lit "unavailable")
                 end ;;
               if JS.eqb availability (JS.lit "available") then
                 ret (succeeded {| status := apiName ++ JS.lit " model is already available" |})
               else if JS.eqb availability (JS.lit "unavailable") then
                 ret (failed (JS.lit "API_UNAVAILABLE")
                        (apiName ++ JS.lit " API is not available on this device") None)
               else
                 active <- gets (userActivationIsActive host) ;;
                 if negb active then
                   ret (failed (JS.lit "USER_ACTIVATION_REQUIRED")
                          (JS.lit "User activation required to download model. Please click a button or interact with the page.")
                          None)
                 else
                   (if JS.eqb apiName (JS.lit "Translator") then
                      direct (callCreate apiName api enToEs)
                    else if JS.eqb apiName (JS.lit "Writer") then
                      direct (callCreate apiName api
                                (WriterOptions (JS.lit "neutral") (JS.lit "plain-text")
                                               (JS.lit "medium") None false))
                    else direct (callCreate apiName api NoOptions)) ;;
                   ret (succeeded
                          {| status := apiName ++ JS.lit " model download triggered successfully" |})
           end
       end)
      (fun error =>
         ret (failed (JS.lit "DOWNLOAD_ERROR")
                (JS.lit "Failed to download " ++ apiName ++ JS.lit " model: " ++
                 messageOr (JS.lit "Unknown error") error)
                None)).

(** ** The capability adapters *)

Definition ssrError (T : Type) : ChromeAIResult T :=
  failed (JS.lit "SSR_ERROR") (JS.lit "Cannot access Chrome AI APIs on server side") None.

Definition workerFailure (message : jsstring) : ChunkingService.ChunkingResult :=
  ChunkingService.mkResult false None (Some message).

Definition workerSuccess (output : jsstring) : ChunkingService.ChunkingResult :=
  ChunkingService.mkResult true (Some output) None.

(** The worker that [summarizeText] hands to the engine. *)
Definition summarizeWorker (language : option jsstring)
  : ChunkingService.Worker St hostCall :=
  fun chunk =>
    match global host (JS.lit "Summarizer") with
    | None => ret (workerFailure (JS.lit "Summarizer API not available"))
    | Some api =>
        summarizer <- callCreate (JS.lit "Summarizer") api
                        (LanguageOption (ChunkingService.orElse language (JS.lit "en"))) ;;
        summary <- callRun (JS.lit "Summarizer") summarizer chunk ;;
        ret (workerSuccess summary)
    end.

Definition summarizeText (text : jsstring) (language : option jsstring)
           (onProgress : bool) : Service (ChromeAIResult Summary) :=
  if negb (hasWindow host) then ret (ssrError Summary)
  else
    tryCatch
      (match global host (JS.lit "Summarizer") with
       | None =>
           ret (failed (JS.lit "API_UNAVAILABLE")
                  (JS.lit "Chrome AI Summarizer is not available") None)
       | Some api =>
           (* the status is logged and not acted upon *)
           _ <- direct (callAvailability (JS.lit "Summarizer") api NoOptions) ;;
           result <- ChunkingService.processWithChunking text ChunkingService.summarizer
                       (summarizeWorker language) onProgress ;;
           if ChunkingService.success result
           then ret (succeeded {| summary := ChunkingService.data result |})
           else ret (failed (JS.lit "SUMMARIZE_ERROR")
                       (ChunkingService.orElse (ChunkingService.error result)
                          (JS.lit "Failed to summarize text"))
                       None)
       end)
      (fun error =>
         ret (failed (JS.lit "SUMMARIZE_ERROR")
                (messageOr (JS.lit "Failed to summarize text") error) (Some error))).

(** The worker that [generateText] hands to the engine. *)
Definition writeWorker (writerOptions : hostOptions)
  : ChunkingService.Worker St hostCall :=
  fun chunk =>
    match global host (JS.lit "Writer") with
    | None => ret (workerFailure (JS.lit "Writer API not available"))
    | Some api =>
        writer <- callCreate (JS.lit "Writer") api writerOptions ;;
        text <- callRun (JS.lit "Writer") writer chunk ;;
        ret (workerSuccess text)
    end.

Definition generateText (prompt : jsstring) (tone format length : option jsstring)
           (onProgress : bool) : Service (ChromeAIResult Generated) :=
  if negb (hasWindow host) then ret (ssrError Generated)
  else
    tryCatch
      (match global host (JS.lit "Writer") with
       | None =>
           ret (failed (JS.lit "API_UNAVAILABLE")
                  (JS.lit "Chrome AI Writer is not available") None)
       | Some api =>
           availability <- direct (callAvailability (JS.lit "Writer") api NoOptions) ;;
           (* an unavailable status is logged and not acted upon; a
              downloadable one adds the progress monitor *)
           let writerOptions :=
             WriterOptions (ChunkingService.orElse tone (JS.lit "neutral"))
                           (ChunkingService.orElse format (JS.lit "plain-text"))
                           (ChunkingService.orElse length (JS.lit "medium"))
                           (Some (JS.lit "en"))
                           (JS.eqb availability (JS.lit "downloadable")) in
           _ <- direct (callCreate (JS.lit "Writer") api writerOptions) ;;
           result <- ChunkingService.processWithChunking prompt ChunkingService.writer
                       (writeWorker writerOptions) onProgress ;;
           if ChunkingService.success result
           then ret (succeeded {| text := ChunkingService.data result |})
           else ret (failed (JS.lit "WRITE_ERROR")
                       (ChunkingService.orElse (ChunkingService.error result)
                          (JS.lit "Failed to generate text"))
                       None)
       end)
      (fun error =>
         ret (failed (JS.lit "WRITE_ERROR")
                (messageOr (JS.lit "Failed to generate text") error) (Some error))).

(** The worker that [proofreadText] hands to the engine. *)
Definition proofreadWorker (language : option jsstring)
  : ChunkingService.Worker St hostCall :=
  fun chunk =>
    match global host (JS.lit "Proofreader") with
    | None => ret (workerFailure (JS.lit "Proofreader API not available"))
    | Some api =>
        proofreader <- callCreate (JS.lit "Proofreader") api
                         (LanguageOption (ChunkingService.orElse language (JS.lit "en"))) ;;
        correctedText <- callRun (JS.lit "Proofreader") proofreader chunk ;;
        ret (workerSuccess correctedText)
    end.

Definition proofreadText (text : jsstring) (language : option jsstring)
           (onProgress : bool) : Service (ChromeAIResult Proofread) :=
  if negb (hasWindow host) then ret (ssrError Proofread)
  else
    tryCatch
      (match global host (JS.lit "Proofreader") with
       | None =>
           ret (failed (JS.lit "API_UNAVAILABLE")
                  (JS.lit "Chrome AI Proofreader is not available") None)
       | Some api =>
           availability <- direct (callAvailability (JS.lit "Proofreader") api NoOptions) ;;
           if negb (JS.eqb availability (JS.lit "available")) then
             ret (failed (JS.lit "API_NOT_READY")
                    (JS.lit "Proofreader is " ++ availability ++
                     JS.lit ". Please wait for model to be ready.") None)
           else
             result <- ChunkingService.processWithChunking text ChunkingService.proofreader
                         (proofreadWorker language) onProgress ;;
             if ChunkingService.success result &&
                ChunkingService.truthyData (ChunkingService.data result)
             then ret (succeeded
                         {| correctedText :=
                              ChunkingService.dataString (ChunkingService.data result) |})
             else ret (failed (JS.lit "PROOFREAD_ERROR")
                         (nullish (ChunkingService.error result)
                            (JS.lit "Failed to proofread text"))
                         None)
       end)
      (fun error =>
         ret (failed (JS.lit "PROOFREAD_ERROR")
                (messageOr (JS.lit "Failed to proofread text") error) (Some error))).

(** The worker that [translateText] hands to the engine. *)
Definition translateWorker (targetLanguage : jsstring) (sourceLanguage : option jsstring)
  : ChunkingService.Worker St hostCall :=
  fun chunk =>
    match global host (JS.lit "Translator") with
    | None => ret (workerFailure (JS.lit "Translator API not available"))
    | Some api =>
        translator <- callCreate (JS.lit "Translator") api
                        (LanguagePair (ChunkingService.orElse sourceLanguage (JS.lit "auto"))
                                      targetLanguage) ;;
        translatedText <- callRun (JS.lit "Translator") translator chunk ;;
        ret (workerSuccess translatedText)
    end.

Definition translateText (text targetLanguage : jsstring)
           (sourceLanguage : option jsstring) (onProgress : bool)
  : Service (ChromeAIResult Translated) :=
  if negb (hasWindow host) then ret (ssrError Translated)
  else
    tryCatch
      (match global host (JS.lit "Translator") with
       | None =>
           ret (failed (JS.lit "API_UNAVAILABLE")
                  (JS.lit "Chrome AI Translator is not available") None)
       | Some api =>
           availability <- direct (callAvailability (JS.lit "Translator") api NoOptions) ;;
           if negb (JS.eqb availability (JS.lit "available")) then
             ret (failed (JS.lit "API_NOT_READY")
                    (JS.lit "Translator is " ++ availability ++
                     JS.lit ". Please wait for model to be ready.") None)
           else
             result <- ChunkingService.processWithChunking text ChunkingService.translator
                         (translateWorker targetLanguage sourceLanguage) onProgress ;;
             if ChunkingService.success result &&
                ChunkingService.truthyData (ChunkingService.data result)
             then ret (succeeded
                         {| translatedText :=
                              ChunkingService.dataString (ChunkingService.data result) |})
             else ret (failed (JS.lit "TRANSLATE_ERROR")
                         (nullish (ChunkingService.error result)
                            (JS.lit "Failed to translate text"))
                         None)
       end)
      (fun error =>
         ret (failed (JS.lit "TRANSLATE_ERROR")
                (messageOr (JS.lit "Failed to translate text") error) (Some error))).

(** The worker that [rewriteText] hands to the engine: an option is
    passed on only when it is given. *)
Definition rewriteWorker (tone format length : option jsstring)
  : ChunkingService.Worker St hostCall :=
  fun chunk =>
    match global host (JS.lit "Rewriter") with
    | None => ret (workerFailure (JS.lit "Rewriter API not available"))
    | Some api =>
        rewriter <- callCreate (JS.lit "Rewriter") api
                      (RewriterOptions (whenTruthy tone) (whenTruthy format)
                                       (whenTruthy length)) ;;
        rewrittenText <- callRun (JS.lit "Rewriter") rewriter chunk ;;
        ret (workerSuccess rewrittenText)
    end.

Definition rewriteText (text : jsstring) (tone format length : option jsstring)
           (onProgress : bool) : Service (ChromeAIResult Rewritten) :=
  if negb (hasWindow host) then ret (ssrError Rewritten)
  else
    tryCatch
      (match global host (JS.lit "Rewriter") with
       | None =>
           ret (failed (JS.lit "API_UNAVAILABLE")
                  (JS.lit "Chrome AI Rewriter is not available") None)
       | Some api =>
           availability <- direct (callAvailability (JS.lit "Rewriter") api NoOptions) ;;
           if negb (JS.eqb availability (JS.lit "available")) then
             ret (failed (JS.lit "API_NOT_READY")
                    (JS.lit "Rewriter is " ++ availability ++
                     JS.lit ". Please wait for model to be ready.") None)
           else
             result <- ChunkingService.processWithChunking text ChunkingService.rewriter
                         (rewriteWorker tone format length) onProgress ;;
             if ChunkingService.success result &&
                ChunkingService.truthyData (ChunkingService.data result)
             then ret (succeeded
                         {| rewrittenText :=
                              ChunkingService.dataString (ChunkingService.data result) |})
             else ret (failed (JS.lit "REWRITE_ERROR")
                         (nullish (ChunkingService.error result)
                            (JS.lit "Failed to rewrite text"))
                         None)
       end)
      (fun error =>
         ret (failed (JS.lit "REWRITE_ERROR")
                (messageOr (JS.lit "Failed to rewrite text") error) (Some error))).

End Service.

End ChromeAIService.

(* ================================================================== *)
(** * Vocabulary of the properties *)
(* ================================================================== *)

Module Plan.

Import ChunkingService.
Local Open Scope Z_scope.

(** The window that starts at cursor position [k * increment]. *)
Definition windowAt (options : ChunkingOptions) (content : jsstring) (k : nat) : jsstring :=
  JS.slice content (Z.of_nat k * increment options)
           (Z.of_nat k * increment options + chunkSize options).

(** The number of cursor positions below the length of the text,
    [ceil (len / increment)]. *)
Definition windowCount (options : ChunkingOptions) (content : jsstring) : nat :=
  Z.to_nat ((JS.length content + increment options - 1) / increment options).

(** All windows the cursor visits, in order, before any is dropped. *)
Definition windows (options : ChunkingOptions) (content : jsstring) : list jsstring :=
  map (windowAt options content) (seq 0 (windowCount options content)).

(** The cursor positions of [n] iterations from [i] on. *)
Fixpoint cursors (options : ChunkingOptions) (n : nat) (i : Z) : list Z :=
  match n with
  | O => []
  | S n' => i :: cursors options n' (i + increment options)
  end.

(** Iterations left from cursor [i]. *)
Definition remaining (options : ChunkingOptions) (content : jsstring) (i : Z) : nat :=
  Z.to_nat ((JS.length content - i + increment options - 1) / increment options).

(** A chunk made of white space only. *)
Definition blank (chunk : jsstring) : bool := forallb JS.isWhiteSpace chunk.

(** [chunks] can be laid over [content], each chunk a substring at some
    position, so that every character of [content] lies under one of them. *)
Definition covers (content : jsstring) (chunks : list jsstring) : Prop :=
  exists starts : list nat,
    List.length starts = List.length chunks /\
    (forall n a c, nth_error starts n = Some a -> nth_error chunks n = Some c ->
                   c = firstn (List.length c) (skipn a content)) /\
    (forall j, (j < List.length content)%nat ->
               exists n a c, nth_error starts n = Some a /\ nth_error chunks n = Some c /\
                             (a <= j < a + List.length c)%nat).

End Plan.

(** ** Observing a run of the engine *)

Module Observe.

Import ChunkingService.

(** The result of a run in which nothing was collected. *)
Definition allChunksFailed : ChunkingResult :=
  mkResult false None (Some (JS.lit "All chunks failed to process")).

(** What the [catch] clause of [processWithChunking] returns. *)
Definition caught (e : Effect.thrown) : ChunkingResult :=
  mkResult false None (Some (Effect.messageOr (JS.lit "Chunking processing failed") e)).

(** What the direct path makes of the worker's answer. *)
Definition passedOn (answer : Effect.thrown + ChunkingResult) : ChunkingResult :=
  match answer with
  | inr r =>
      if success r then mkResult true (data r) None
      else mkResult false None (Some (orElse (error r) (JS.lit "API call failed")))
  | inl e => caught e
  end.

(** What the engine makes of the answer to the final call on the joined
    text. *)
Definition condensed (joined : jsstring) (answer : Effect.thrown + ChunkingResult)
  : ChunkingResult :=
  match answer with
  | inr r =>
      if success r then mkResult true (data r) None
      else mkResult true (Some joined) None
  | inl e => caught e
  end.

Section Observe.
Variables St HEv : Type.

(** The arguments of the worker calls of a trace, in order. *)
Fixpoint invocations (tr : list (event HEv)) : list jsstring :=
  match tr with
  | [] => []
  | Invoke chunk :: tr' => chunk :: invocations tr'
  | _ :: tr' => invocations tr'
  end.

(** The warnings of a trace, in order. *)
Fixpoint warnings (tr : list (event HEv)) : list jsstring :=
  match tr with
  | [] => []
  | Warn message :: tr' => message :: warnings tr'
  | _ :: tr' => warnings tr'
  end.

(** What the worker itself did during a trace. *)
Fixpoint hostEvents (tr : list (event HEv)) : list HEv :=
  match tr with
  | [] => []
  | Inner e :: tr' => e :: hostEvents tr'
  | _ :: tr' => hostEvents tr'
  end.

(** A worker result that the chunk loop collects: reported as a success
    and carrying a non-empty string. *)
Definition collectable (r : ChunkingResult) : bool :=
  success r && truthyData (data r).

(** The outputs of the collectable results, in order. *)
Definition collected (answers : list ChunkingResult) : list jsstring :=
  map (fun r => dataString (data r)) (filter collectable answers).

(** The worker is called on each chunk in turn, from state [st]; every
    call returns (none throws), with these results and this final state. *)
Fixpoint answers (apiFunction : Worker St HEv) (chunks : list jsstring) (st : St)
  : option (list ChunkingResult * St) :=
  match chunks with
  | [] => Some ([], st)
  | chunk :: chunks' =>
      match apiFunction chunk st with
      | (inr r, st1, _) =>
          match answers apiFunction chunks' st1 with
          | Some (rs, st2) => Some (r :: rs, st2)
          | None => None
          end
      | (inl _, _, _) => None
      end
  end.

End Observe.

(** ** Observing the gateway and the adapters *)

Import ChromeAIService.

(** The five values of the availability status type. *)
Definition availabilityStatuses : list jsstring :=
  [JS.lit "available"; JS.lit "downloadable"; JS.lit "downloading";
   JS.lit "unavailable"; JS.lit "unsupported"].

(** The error code of a result, if it has one. *)
Definition errorCode (T : Type) (r : ChromeAIResult T) : option jsstring :=
  match ChromeAIService.error r with
  | Some e => Some (code e)
  | None => None
  end.

(** The model is called: a session is asked for or a session's verb runs. *)
Definition isModelCall (call : hostCall) : bool :=
  match call with
  | Availability _ _ => false
  | Create _ _ => true
  | Run _ _ => true
  end.

(** The calls to the model in the trace of a service method. *)
Definition modelCalls (tr : list (event hostCall)) : list hostCall :=
  filter isModelCall (hostEvents tr).

Section Gateway.
Variable St : Type.

(** The status query of [downloadSpecificAPI]: the answer of
    [api.availability], or ['unavailable'] for an API without it. *)
Definition statusQuery (apiName : jsstring) (api : ApiObject St) : HostOp St jsstring :=
  match availability api with
  | Some f => f (if JS.eqb apiName (JS.lit "Translator") then enToEs else NoOptions)
  | None => fun st => (inr (JS.lit "unavailable"), st)
  end.

(** A session of capability [apiName] is asked for during the trace. *)
Definition attemptsModel (apiName : jsstring) (tr : list (event hostCall)) : Prop :=
  exists options, In (Inner (Create apiName options)) tr.

(** The argument of the first worker call of the engine, if it makes
    one: the text itself on the direct path, the first chunk otherwise. *)
Definition firstCall (content : jsstring) (apiKey : APIKey) : option jsstring :=
  if needsChunking content apiKey
  then hd_error (createChunks content apiKey)
  else Some content.

(** The refusal of an adapter that waits for its model. *)
Definition notReady (T : Type) (name status : jsstring) : ChromeAIResult T :=
  failed (JS.lit "API_NOT_READY")
         (name ++ JS.lit " is " ++ status ++ JS.lit ". Please wait for model to be ready.")
         None.

End Gateway.

End Observe.

(* ================================================================== *)
(** * Concrete inputs *)
(* ================================================================== *)

Module Scenarios.

Import ChunkingService.
Local Open Scope Z_scope.

(** A letter followed by 8000 spaces: 8001 characters, one more than the
    summarizer's [chunkSize]. *)
Definition blankTail : jsstring := 97%N :: repeat 32%N (Z.to_nat 8000).

(** A profile whose overlap equals its chunk size, so that the cursor
    never advances. *)
Definition stuckOptions : ChunkingOptions := mkOptions 10 4 (Some 4).

(** A small profile in the shape of the registry's: windows of four
    characters that overlap by one. *)
Definition smallOptions : ChunkingOptions := mkOptions 10 4 (Some 1).

(** A text of 8001 letters: two windows under the summarizer's profile,
    of 8000 and of 401 characters. *)
Definition twoWindows : jsstring := repeat 97%N (Z.to_nat 8001).

Definition ok (output : jsstring) : ChunkingResult := mkResult true (Some output) None.
Definition ko (message : jsstring) : ChunkingResult := mkResult false None (Some message).

(** A worker that answers its [n]-th call, on [chunk], with [script n chunk];
    the state counts the calls. *)
Definition scripted (script : nat -> jsstring -> Effect.thrown + ChunkingResult)
  : Worker nat unit :=
  fun chunk n => (script n chunk, S n, []).

(** Succeeds, except that its second call returns a failure. *)
Definition failSecond : Worker nat unit :=
  scripted (fun n _ => if (n =? 1)%nat then inr (ko (JS.lit "boom")) else inr (ok (JS.lit "S"))).

(** Succeeds, except that its second call throws. *)
Definition throwSecond : Worker nat unit :=
  scripted (fun n _ => if (n =? 1)%nat then inl (Effect.ThrownError (JS.lit "boom"))
                       else inr (ok (JS.lit "S"))).

(** Returns a failure on every call. *)
Definition alwaysFail : Worker nat unit :=
  scripted (fun _ _ => inr (ko (JS.lit "no"))).

(** Reports success on every call, with an empty output. *)
Definition emptySuccess : Worker nat unit :=
  scripted (fun _ _ => inr (ok [])).


(** Returns a failure on its first call and throws from the second on. *)
Definition failThenThrow : Worker nat unit :=
  scripted (fun n _ => if (n =? 0)%nat then inr (ko (JS.lit "no"))
                       else inl (Effect.ThrownError (JS.lit "boom"))).


(** ** Hosts *)

Import ChromeAIService.

(** A session that echoes its input. *)
Definition echoSession : Session unit := fun input st => (inr input, st).

(** A capability whose [availability] answers [status] and whose
    [create] hands out an echoing session. *)
Definition reporting (status : jsstring) : ApiObject unit :=
  mkApi (Some (fun _ st => (inr status, st)))
        (Some (fun _ st => (inr echoSession, st))).

(** A browser page that exposes one capability global. *)
Definition pageWith (apiName : jsstring) (api : ApiObject unit) (active : bool) : Host unit :=
  mkHost true
         (fun name => if JS.eqb name apiName then Some api else None)
         (fun _ => active).

End Scenarios.

(* ================================================================== *)
(** * chrome-ai-service-simple.ts: aggregate status and download triggers *)
(* ================================================================== *)

Module StatusAndDownloads.

Import Effect ChromeAIService.

(** [interface ChromeAIAvailability]. *)
Record ChromeAIAvailability := mkAvailability {
  available : bool;
  summarizer : jsstring;
  writer : jsstring;
  rewriter : jsstring;
  translator : jsstring;
  languageModel : jsstring;
  error : option jsstring
}.

(** One element of the result of [Promise.allSettled]: fulfilled with a
    value or rejected with a reason; settling never throws. *)
Definition settle (St Ev A : Type) (m : M St Ev A) : M St Ev (thrown + A) :=
  fun st =>
    match m st with
    | (r, st1, tr1) => (inr r, st1, tr1)
    end.

(** [settled.status === 'fulfilled' ? settled.value : fallback]. *)
Definition fulfilledOr (fallback : jsstring) (settled : thrown + jsstring) : jsstring :=
  match settled with
  | inr value => value
  | inl _ => fallback
  end.

Definition unavailable : jsstring := JS.lit "unavailable".

(** The diagnostic of [getAvailabilityStatus] when nothing is available. *)
Definition diagnostic (statuses : list jsstring) : jsstring :=
  let unavailableCount :=
    List.length (filter (fun status => JS.eqb status unavailable) statuses) in
  if (unavailableCount =? 5)%nat
  then JS.lit "All AI models are unavailable. This is usually due to insufficient storage space (need ~20GB free) or Chrome AI not being enabled."
  else JS.ofNat unavailableCount ++
       JS.lit " out of 5 AI models are unavailable. This may be due to insufficient storage space or incomplete downloads.".

Section Status.
Variable St : Type.
Variable host : Host St.

Local Open Scope js_scope.

(** [getAvailabilityStatus].  The five queries are started in the order
    of the array handed to [Promise.allSettled]; each is one atomic host
    call, made in that order. *)
Definition getAvailabilityStatus : Service St ChromeAIAvailability :=
  if negb (hasWindow host) then
    ret (mkAvailability false unavailable unavailable unavailable unavailable unavailable
           (Some (JS.lit "Cannot check Chrome AI availability on server side")))
  else
    tryCatch
      (summarizerStatus <- settle (checkApiAvailability host (JS.lit "Summarizer")) ;;
       writerStatus <- settle (checkApiAvailability host (JS.lit "Writer")) ;;
       rewriterStatus <- settle (checkApiAvailability host (JS.lit "Rewriter")) ;;
       translatorStatus <- settle (checkApiAvailability host (JS.lit "Translator")) ;;
       languageModelStatus <- settle (checkApiAvailability host (JS.lit "LanguageModel")) ;;
       let summarizer := fulfilledOr unavailable summarizerStatus in
       let writer := fulfilledOr unavailable writerStatus in
       let rewriter := fulfilledOr unavailable rewriterStatus in
       let translator := fulfilledOr unavailable translatorStatus in
       let languageModel := fulfilledOr unavailable languageModelStatus in
       let available :=
         JS.eqb summarizer (JS.lit "available") || JS.eqb writer (JS.lit "available") ||
         JS.eqb rewriter (JS.lit "available") || JS.eqb translator (JS.lit "available") ||
         JS.eqb languageModel (JS.lit "available") in
       let error :=
         if negb available
         then Some (diagnostic [summarizer; writer; rewriter; translator; languageModel])
         else None in
       ret (mkAvailability available summarizer writer rewriter translator languageModel
              error))
      (fun _ =>
         ret (mkAvailability false unavailable unavailable unavailable unavailable
                unavailable
                (Some (JS.lit "Failed to check Chrome AI availability. Please ensure Chrome AI is enabled in your browser settings.")))).

(** [triggerModelDownload]: the LanguageModel download. *)
Definition triggerModelDownload : Service St (ChromeAIResult DownloadStatus) :=
  if negb (hasWindow host) then ret (ssrError DownloadStatus)
  else
    tryCatch
      (match global host (JS.lit "LanguageModel") with
       | None =>
           ret (failed (JS.lit "API_UNAVAILABLE")
                  (JS.lit "Chrome AI LanguageModel is not available. Please enable Chrome AI flags.")
                  None)
       | Some api =>
           active <- gets (userActivationIsActive host) ;;
           if negb active then
             ret (failed (JS.lit "USER_ACTIVATION_REQUIRED")
                    (JS.lit "User activation required to download model. Please click a button or interact with the page.")
                    None)
           else
             direct (callCreate (JS.lit "LanguageModel") api NoOptions) ;;
             ret (succeeded {| status := JS.lit "Model created successfully" |})
       end)
      (fun error =>
         ret (failed (JS.lit "DOWNLOAD_ERROR")
                (messageOr (JS.lit "Failed to create model") error) (Some error))).

(** [triggerWriterDownload]. *)
Definition triggerWriterDownload : Service St (ChromeAIResult DownloadStatus) :=
  if negb (hasWindow host) then ret (ssrError DownloadStatus)
  else
    tryCatch
      (match global host (JS.lit "Writer") with
       | None =>
           ret (failed (JS.lit "API_UNAVAILABLE")
                  (JS.lit "Chrome AI Writer is not available") None)
       | Some api =>
           availability <- direct (callAvailability (JS.lit "Writer") api NoOptions) ;;
           if JS.eqb availability (JS.lit "unavailable") then
             ret (failed (JS.lit "API_UNAVAILABLE")
                    (JS.lit "Writer API is not available on this device") None)
           else if JS.eqb availability (JS.lit "available") then
             ret (succeeded {| status := JS.lit "Writer model is already available" |})
           else
             active <- gets (userActivationIsActive host) ;;
             if negb active then
               ret (failed (JS.lit "USER_ACTIVATION_REQUIRED")
                      (JS.lit "User activation required to download model. Please click a button or interact with the page.")
                      None)
             else
               direct (callCreate (JS.lit "Writer") api
                         (WriterOptions (JS.lit "neutral") (JS.lit "plain-text")
                                        (JS.lit "medium") None true)) ;;
               ret (succeeded
                      {| status := JS.lit "Writer model download triggered successfully" |})
       end)
      (fun error =>
         ret (failed (JS.lit "DOWNLOAD_ERROR")
                (messageOr (JS.lit "Failed to trigger Writer model download") error)
                (Some error))).

End Status.

End StatusAndDownloads.

(* ================================================================== *)
(** * agents.ts: the progress callbacks of the analysis tasks *)
(* ================================================================== *)

Module AnalysisTasks.

Local Open Scope Z_scope.

(** A Number that holds a non-negative integer, or [Infinity]: what
    [parseInt] makes of a string of decimal digits. *)
Inductive number :=
  | Num (value : Z)
  | PosInfinity.

(** The second argument the tasks hand to their own progress sink. *)
Record ChunkProgress := mkProgress {
  current : number;
  total : number;
  stage : jsstring
}.

(** [\d]. *)
Definition isDigit (c : JS.codeunit) : bool := ((48 <=? c) && (c <=? 57))%N.

Fixpoint takeWhile (p : JS.codeunit -> bool) (s : jsstring) : jsstring :=
  match s with
  | [] => []
  | c :: s' => if p c then c :: takeWhile p s' else []
  end.

(** The rest of [s] after [prefix], when [s] starts with it. *)
Fixpoint stripPrefix (prefix s : jsstring) : option jsstring :=
  match prefix, s with
  | [], _ => Some s
  | _ :: _, [] => None
  | p :: prefix', c :: s' => if (p =? c)%N then stripPrefix prefix' s' else None
  end.

(** [/Processing section (\d+) of (\d+)/] tried at the start of [s]: the
    two captured groups.  Each [\d+] takes all the digits there are; giving
    one back could only put a digit where the pattern wants a space. *)
Definition matchSectionAt (s : jsstring) : option (jsstring * jsstring) :=
  match stripPrefix (JS.lit "Processing section ") s with
  | None => None
  | Some rest1 =>
      match takeWhile isDigit rest1 with
      | [] => None
      | group1 =>
          match stripPrefix (JS.lit " of ") (JS.dropWhile isDigit rest1) with
          | None => None
          | Some rest2 =>
              match takeWhile isDigit rest2 with
              | [] => None
              | group2 => Some (group1, group2)
              end
          end
      end
  end.

(** [message.match(/Processing section (\d+) of (\d+)/)]: the pattern is
    not anchored, the leftmost position where it matches wins. *)
Fixpoint matchSection (s : jsstring) : option (jsstring * jsstring) :=
  match matchSectionAt s with
  | Some groups => Some groups
  | None =>
      match s with
      | [] => None
      | _ :: s' => matchSection s'
      end
  end.

(** The integer that a string of decimal digits denotes. *)
Definition digitsValue (digits : jsstring) : Z :=
  fold_left (fun acc c => 10 * acc + (Z.of_N c - 48)) digits 0.

(** The Number for a non-negative integer: the nearest double, ties to
    the even significand, and [Infinity] from [2^1024 - 2^970] on.  Up to
    [2^53] every integer is a double; above, a double keeps the 53 leading
    bits. *)
Definition toNumber (n : Z) : number :=
  if n <=? 2 ^ 53 then Num n
  else
    let e := Z.log2 n - 52 in
    let q := Z.shiftr n e in
    let r := n - Z.shiftl q e in
    let half := Z.shiftl 1 (e - 1) in
    let q' := if (half <? r) || ((r =? half) && Z.odd q) then q + 1 else q in
    let rounded := Z.shiftl q' e in
    if rounded <? 2 ^ 1024 then Num rounded else PosInfinity.

(** [parseInt] on a captured group, which holds decimal digits only: the
    integer they denote, as a Number.  Every digit is taken into account;
    the language lets an implementation replace the digits after the
    twentieth by zeros, which changes nothing for the numbers of at most
    twenty digits. *)
Definition parseInt (digits : jsstring) : number :=
  toNumber (digitsValue digits).

(** The body of the [onProgress] callbacks that the tasks pass to the
    service: the arguments with which the task's own sink is called. *)
Definition relayProgress (stageName message : jsstring)
  : jsstring * option ChunkProgress :=
  match matchSection message with
  | Some (group1, group2) =>
      (message, Some (mkProgress (parseInt group1) (parseInt group2) stageName))
  | None => (message, None)
  end.

End AnalysisTasks.

(* ================================================================== *)
(** * Further vocabulary *)
(* ================================================================== *)

Module Protocol.

Import ChunkingService ChromeAIService.

(** The progress message of the chunk loop for the [i]-th of [total]
    sections, counted from one. *)
Definition sectionMessage (i total : nat) : jsstring :=
  JS.lit "Processing section " ++ JS.ofNat i ++ JS.lit " of " ++ JS.ofNat total ++
  JS.lit "...".

(** The announcement of a chunked run. *)
Definition largeDocumentMessage (total : nat) : jsstring :=
  JS.lit "Processing large document in " ++ JS.ofNat total ++ JS.lit " sections...".

Section Trace.
Variables St HEv : Type.

(** What a progress report leaves in the trace. *)
Definition reported (onProgress : bool) (message : jsstring) : list (event HEv) :=
  if onProgress then [Progress message] else [].

(** The progress messages of a trace, in order. *)
Fixpoint progressMessages (tr : list (event HEv)) : list jsstring :=
  match tr with
  | [] => []
  | Progress message :: tr' => message :: progressMessages tr'
  | _ :: tr' => progressMessages tr'
  end.

(** The pauses of a trace, in order. *)
Fixpoint delays (tr : list (event HEv)) : list Z :=
  match tr with
  | [] => []
  | Delay ms :: tr' => ms :: delays tr'
  | _ :: tr' => delays tr'
  end.

(** What the worker does when called as listed: on each chunk, from the
    state it was called in. *)
Definition replay (apiFunction : Worker St HEv) (calls : list (jsstring * St)) : list HEv :=
  concat (map (fun call => Effect.trace (apiFunction (fst call) (snd call))) calls).

End Trace.

(** Sessions asked for and verbs run among host calls. *)
Definition isCreate (call : hostCall) : bool :=
  match call with
  | Create _ _ => true
  | _ => false
  end.

Definition isRun (call : hostCall) : bool :=
  match call with
  | Run _ _ => true
  | _ => false
  end.

Definition creates (calls : list hostCall) : nat := List.length (filter isCreate calls).
Definition runs (calls : list hostCall) : nat := List.length (filter isRun calls).

(** A result of the service is in order: a success carries data and no
    error, a failure carries no data and an error with one of [codes]. *)
Definition wellFormed (T : Type) (codes : list jsstring) (r : ChromeAIResult T) : Prop :=
  if ChromeAIService.success r
  then ChromeAIService.data r <> None /\ ChromeAIService.error r = None
  else ChromeAIService.data r = None /\
       exists e, ChromeAIService.error r = Some e /\ In (code e) codes.

(** The structured progress values that a task's sink receives when its
    callback is given the progress messages of a trace. *)
Definition relayed (HEv : Type) (stageName : jsstring) (tr : list (event HEv))
  : list AnalysisTasks.ChunkProgress :=
  flat_map (fun message =>
              match snd (AnalysisTasks.relayProgress stageName message) with
              | Some p => [p]
              | None => []
              end)
           (progressMessages tr).

End Protocol.

(* ================================================================== *)
(** * Further concrete inputs *)
(* ================================================================== *)

Module MoreInputs.

Import ChunkingService ChromeAIService.

(** 8001 spaces: over the summarizer's budget and blank. *)
Definition allBlank : jsstring := repeat 32%N (Z.to_nat 8001).

(** A session that fails on the host's second call of a verb and answers
    [S] otherwise; the state counts the host's calls of verbs. *)
Definition flakySession : Session nat :=
  fun _ n =>
    if (n =? 1)%nat
    then (inl (Effect.ThrownError (JS.lit "The model crashed")), S n)
    else (inr (JS.lit "S"), S n).

(** A page whose Summarizer is available and hands out flaky sessions. *)
Definition flakyPage : Host nat :=
  mkHost true
         (fun name =>
            if JS.eqb name (JS.lit "Summarizer")
            then Some (mkApi (Some (fun _ n => (inr (JS.lit "available"), n)))
                             (Some (fun _ n => (inr flakySession, n))))
            else None)
         (fun _ => true).

(** A session that answers the empty string. *)
Definition muteSession : Session unit := fun _ st => (inr [], st).

(** A capability that is available and hands out mute sessions. *)
Definition muteApi : ApiObject unit :=
  mkApi (Some (fun _ st => (inr (JS.lit "available"), st)))
        (Some (fun _ st => (inr muteSession, st))).

(** A browser page without any capability global. *)
Definition barePage : Host unit := mkHost true (fun _ => None) (fun _ => false).

(** A page on which every capability is [muteApi] and the user has not
    interacted. *)
Definition mutePage : Host unit := mkHost true (fun _ => Some muteApi) (fun _ => false).

End MoreInputs.

(* ================================================================== *)
(** * The splitter *)
(* ================================================================== *)

Section Splitter.

Import ChunkingService Plan.
Local Open Scope Z_scope.

Lemma dropWhile_nil (p : JS.codeunit -> bool) (s : jsstring) :
  JS.dropWhile p s = [] <-> forallb p s = true.
Proof.
  induction s as [|c s IH]; simpl.
  - tauto.
  - destruct (p c); simpl; [exact IH | split; discriminate].
Qed.

Lemma dropWhile_suffix (p : JS.codeunit -> bool) (s : jsstring) :
  exists pre, s = pre ++ JS.dropWhile p s /\ forallb p pre = true.
Proof.
  induction s as [|c s [pre [E F]]]; simpl.
  - exists []; auto.
  - destruct (p c) eqn:Pc.
    + exists (c :: pre); simpl; rewrite Pc, F; split; [f_equal; exact E | reflexivity].
    + exists []; auto.
Qed.

Lemma trimEnd_nil (s : jsstring) :
  JS.trimEnd s = [] <-> forallb JS.isWhiteSpace s = true.
Proof.
  induction s as [|c s IH]; simpl.
  - tauto.
  - destruct (JS.trimEnd s) as [|d t].
    + destruct (JS.isWhiteSpace c); simpl.
      * split; intros _; [apply IH|]; reflexivity.
      * split; discriminate.
    + split; [discriminate|]. intro H. apply andb_true_iff in H.
      destruct H as [_ H]. apply IH in H. discriminate.
Qed.

Lemma blank_trim (s : jsstring) : JS.trim s = [] <-> blank s = true.
Proof.
  unfold JS.trim, JS.trimStart, blank. rewrite trimEnd_nil.
  destruct (dropWhile_suffix JS.isWhiteSpace s) as [pre [E F]].
  set (t := JS.dropWhile JS.isWhiteSpace s) in *.
  assert (G : forallb JS.isWhiteSpace s = forallb JS.isWhiteSpace (pre ++ t))
    by (rewrite <- E; reflexivity).
  rewrite G, forallb_app, F. simpl. tauto.
Qed.

(** A chunk is kept exactly when it is not blank. *)
Lemma keepChunk_blank (chunk : jsstring) : keepChunk chunk = negb (blank chunk).
Proof.
  unfold keepChunk, JS.length.
  destruct (blank chunk) eqn:B; simpl.
  - apply blank_trim in B. rewrite B. reflexivity.
  - destruct (JS.trim chunk) eqn:T.
    + apply blank_trim in T. congruence.
    + simpl List.length. apply Z.ltb_lt. lia.
Qed.

(** ** The loop visits the cursor positions in order *)

Lemma createChunks_loop_done (fuel : nat) (options : ChunkingOptions)
      (content : jsstring) (i : Z) (chunks : list jsstring) :
  JS.length content <= i ->
  createChunks_loop fuel options content i chunks = Some chunks.
Proof.
  intro H. destruct fuel; simpl;
    (destruct (i <? JS.length content) eqn:E; [apply Z.ltb_lt in E; lia | reflexivity]).
Qed.

Lemma remaining_zero (options : ChunkingOptions) (content : jsstring) (i : Z) :
  0 < increment options -> remaining options content i = O -> JS.length content <= i.
Proof.
  unfold remaining. intros Hs H.
  destruct (Z_lt_le_dec i (JS.length content)) as [L|L]; [|exact L].
  exfalso.
  assert (1 <= (JS.length content - i + increment options - 1) / increment options).
  { apply Z.div_le_lower_bound; lia. }
  lia.
Qed.

Lemma remaining_succ (options : ChunkingOptions) (content : jsstring) (i : Z) (n : nat) :
  0 < increment options -> remaining options content i = S n ->
  i < JS.length content /\ remaining options content (i + increment options) = n.
Proof.
  unfold remaining. intros Hs H.
  set (st := increment options) in *.
  set (len := JS.length content) in *.
  assert (E : len - i + st - 1 = (len - (i + st) + st - 1) + 1 * st) by lia.
  rewrite E, Z.div_add in H by lia.
  split; [|lia].
  destruct (Z_lt_le_dec i len) as [L|L]; [exact L|].
  exfalso.
  assert ((len - (i + st) + st - 1) / st < 0).
  { apply Z.div_lt_upper_bound; lia. }
  lia.
Qed.

Lemma createChunks_loop_cursors (options : ChunkingOptions) (content : jsstring) :
  0 < increment options ->
  forall (n fuel : nat) (i : Z) (chunks : list jsstring),
    remaining options content i = n -> (n <= fuel)%nat ->
    createChunks_loop fuel options content i chunks =
    Some (chunks ++
          filter keepChunk
            (map (fun a => JS.slice content a (a + chunkSize options))
                 (cursors options n i))).
Proof.
  intros Hs n. induction n as [|n IH]; intros fuel i chunks Hr Hf.
  - simpl. rewrite app_nil_r. apply createChunks_loop_done.
    apply remaining_zero with (options := options); assumption.
  - destruct (remaining_succ _ _ _ Hs Hr) as [Hlt Hr'].
    destruct fuel as [|fuel]; [lia|].
    simpl. apply Z.ltb_lt in Hlt. rewrite Hlt.
    rewrite (IH fuel) by (assumption || lia).
    destruct (keepChunk (JS.slice content i (i + chunkSize options)));
      [rewrite <- app_assoc|]; reflexivity.
Qed.

Lemma cursors_seq (options : ChunkingOptions) (n : nat) (i : Z) :
  cursors options n i = map (fun k => i + Z.of_nat k * increment options) (seq 0 n).
Proof.
  revert i. induction n as [|n IH]; intro i; simpl; [reflexivity|].
  f_equal; [lia|].
  rewrite IH, <- seq_shift, map_map.
  apply map_ext. intro k. lia.
Qed.

Lemma windowCount_le (options : ChunkingOptions) (content : jsstring) :
  0 < increment options -> (windowCount options content <= List.length content)%nat.
Proof.
  unfold windowCount, JS.length. intro Hs.
  set (len := Z.of_nat (List.length content)).
  assert ((len + increment options - 1) / increment options <= len).
  { destruct (Z.eq_dec len 0) as [E|E].
    - rewrite E. rewrite Z.div_small; lia.
    - apply Z.lt_succ_r, Z.div_lt_upper_bound; [lia|]. nia. }
  lia.
Qed.

(** With a positive increment the loop ends within [content.length]
    iterations, and its result is the list of visited windows with the
    blank ones removed. *)
Lemma createChunksWith_windows (options : ChunkingOptions) (content : jsstring) (fuel : nat) :
  0 < increment options -> (List.length content <= fuel)%nat ->
  createChunksWith fuel options content =
  Some (filter (fun c => negb (blank c)) (windows options content)).
Proof.
  intros Hs Hf. unfold createChunksWith.
  rewrite (createChunks_loop_cursors options content Hs
             (n := windowCount options content)).
  - simpl. f_equal. rewrite cursors_seq. unfold windows. rewrite map_map.
    rewrite (filter_ext keepChunk (fun c => negb (blank c)) keepChunk_blank).
    f_equal.
  - unfold remaining, windowCount. f_equal. f_equal. lia.
  - pose proof (windowCount_le options content Hs). lia.
Qed.

(** ** Windows as substrings *)

Lemma slice_substring (s : jsstring) (a n : Z) :
  0 <= a -> 0 <= n ->
  JS.slice s a (a + n) = firstn (Z.to_nat n) (skipn (Z.to_nat a) s).
Proof.
  intros Ha Hn. unfold JS.slice, JS.clampIndex, JS.length.
  set (len := Z.of_nat (length s)).
  destruct (a <? 0) eqn:E1; [apply Z.ltb_lt in E1; lia|].
  destruct (a + n <? 0) eqn:E2; [apply Z.ltb_lt in E2; lia|].
  destruct (Z_lt_le_dec a len) as [L|L].
  - rewrite (Z.min_l a len) by lia.
    destruct (Z_le_gt_dec (a + n) len) as [M|M].
    + rewrite Z.min_l by lia. f_equal. lia.
    + rewrite Z.min_r by lia.
      rewrite !firstn_all2; [reflexivity | |]; rewrite length_skipn; subst len; lia.
  - rewrite !Z.min_r by lia. rewrite Z.sub_diag. simpl.
    rewrite skipn_all2 by (subst len; lia). rewrite firstn_nil. reflexivity.
Qed.

Lemma windowAt_substring (options : ChunkingOptions) (content : jsstring) (k : nat) :
  0 < increment options -> 0 <= chunkSize options ->
  windowAt options content k =
  firstn (Z.to_nat (chunkSize options))
         (skipn (k * Z.to_nat (increment options)) content).
Proof.
  intros Hs Hc. unfold windowAt. rewrite slice_substring by lia.
  do 2 f_equal. lia.
Qed.

Lemma windowAt_length (options : ChunkingOptions) (content : jsstring) (k : nat) :
  0 < increment options -> 0 <= chunkSize options ->
  Z.of_nat (length (windowAt options content k)) =
  Z.max 0 (Z.min (chunkSize options)
                 (JS.length content - Z.of_nat k * increment options)).
Proof.
  intros Hs Hc. rewrite windowAt_substring by assumption.
  rewrite length_firstn, length_skipn. unfold JS.length. lia.
Qed.

Lemma windowCount_spec (options : ChunkingOptions) (content : jsstring) (k : nat) :
  0 < increment options ->
  (k < windowCount options content)%nat <->
  Z.of_nat k * increment options < JS.length content.
Proof.
  intro Hs. unfold windowCount.
  set (st := increment options) in *. set (len := JS.length content).
  assert (Hlen : 0 <= len) by (subst len; unfold JS.length; lia).
  assert (Hq : 0 <= (len + st - 1) / st) by (apply Z.div_pos; lia).
  split; intro H.
  - assert (Z.of_nat k + 1 <= (len + st - 1) / st) by lia.
    assert (st * (Z.of_nat k + 1) <= len + st - 1).
    { etransitivity; [apply Z.mul_le_mono_nonneg_l; [lia | eassumption]|].
      apply Z.mul_div_le. lia. }
    lia.
  - assert (Z.of_nat k + 1 <= (len + st - 1) / st).
    { apply Z.div_le_lower_bound; lia. }
    lia.
Qed.

(** The window whose cursor position is the last one at or before [j]
    is visited and holds the character at [j]. *)
Lemma window_holds (options : ChunkingOptions) (content : jsstring) (j : nat) :
  0 <= overlapOrZero options < chunkSize options ->
  (j < length content)%nat ->
  let k := (j / Z.to_nat (increment options))%nat in
  let a := (k * Z.to_nat (increment options))%nat in
  (k < windowCount options content)%nat /\
  (a <= j < a + length (windowAt options content k))%nat /\
  nth_error (windowAt options content k) (j - a) = nth_error content j.
Proof.
  intros Hv Hj k a.
  assert (Hs : 0 < increment options) by (unfold increment; lia).
  assert (Hc : 0 <= chunkSize options) by lia.
  set (S := Z.to_nat (increment options)) in *.
  assert (HS : (0 < S)%nat) by (subst S; lia).
  assert (HSC : (S <= Z.to_nat (chunkSize options))%nat)
    by (subst S; unfold increment; lia).
  assert (Hk : (a <= j < a + S)%nat).
  { subst a k. pose proof (Nat.div_mod_eq j S) as D.
    pose proof (Nat.mod_upper_bound j S ltac:(lia)) as U. lia. }
  assert (Hlen : length (windowAt options content k) =
                 Nat.min (Z.to_nat (chunkSize options)) (length content - a)).
  { rewrite windowAt_substring by assumption.
    rewrite length_firstn, length_skipn. reflexivity. }
  split; [|split].
  - apply windowCount_spec; [assumption|]. unfold JS.length.
    assert (Z.of_nat k * increment options = Z.of_nat a) by (subst a S; lia).
    lia.
  - rewrite Hlen. lia.
  - rewrite windowAt_substring by assumption.
    rewrite nth_error_firstn.
    destruct (j - a <? Z.to_nat (chunkSize options))%nat eqn:E;
      [|apply Nat.ltb_ge in E; lia].
    rewrite nth_error_skipn. f_equal. fold S. fold a. lia.
Qed.

Lemma windows_nth (options : ChunkingOptions) (content : jsstring) (k : nat) :
  nth_error (windows options content) k =
  if (k <? windowCount options content)%nat
  then Some (windowAt options content k) else None.
Proof.
  unfold windows. rewrite nth_error_map, nth_error_seq.
  destruct (k <? windowCount options content)%nat; reflexivity.
Qed.

Lemma windows_length (options : ChunkingOptions) (content : jsstring) :
  length (windows options content) = windowCount options content.
Proof. unfold windows. rewrite length_map, length_seq. reflexivity. Qed.

Lemma not_blank_holds (chunk : jsstring) (m : nat) (c : JS.codeunit) :
  nth_error chunk m = Some c -> JS.isWhiteSpace c = false -> blank chunk = false.
Proof.
  intros Hn Hc. unfold blank.
  destruct (forallb JS.isWhiteSpace chunk) eqn:F; [|reflexivity].
  rewrite forallb_forall in F. apply nth_error_In in Hn.
  rewrite (F c Hn) in Hc. discriminate.
Qed.

(** ** Coverage *)

(** Every character that is not white space lies in a window that is kept. *)
Lemma kept_window_holds (options : ChunkingOptions) (content : jsstring) (j : nat)
      (c : JS.codeunit) :
  0 <= overlapOrZero options < chunkSize options ->
  nth_error content j = Some c -> JS.isWhiteSpace c = false ->
  exists k : nat,
    In (windowAt options content k)
       (filter (fun w => negb (blank w)) (windows options content)) /\
    (k * Z.to_nat (increment options) <= j
     < k * Z.to_nat (increment options) + length (windowAt options content k))%nat.
Proof.
  intros Hv Hj Hc.
  assert (Hlt : (j < length content)%nat).
  { apply nth_error_Some. congruence. }
  destruct (window_holds options content Hv Hlt) as [Hk [Hr Hn]].
  set (k := (j / Z.to_nat (increment options))%nat) in *.
  exists k. split; [|exact Hr].
  apply filter_In. split.
  - apply nth_error_In with (n := k). rewrite windows_nth.
    apply Nat.ltb_lt in Hk. rewrite Hk. reflexivity.
  - rewrite Hj in Hn. rewrite (not_blank_holds _ _ Hn Hc). reflexivity.
Qed.

(** When no visited window is blank, nothing is dropped and the chunks
    cover the text. *)
Lemma windows_cover (options : ChunkingOptions) (content : jsstring) :
  0 <= overlapOrZero options < chunkSize options ->
  covers content (windows options content).
Proof.
  intro Hv.
  assert (Hs : 0 < increment options) by (unfold increment; lia).
  assert (Hc : 0 <= chunkSize options) by lia.
  exists (map (fun k => (k * Z.to_nat (increment options))%nat)
              (seq 0 (windowCount options content))).
  split; [|split].
  - rewrite windows_length, length_map, length_seq. reflexivity.
  - intros n a c Ha Hw. rewrite windows_nth in Hw.
    rewrite nth_error_map, nth_error_seq in Ha.
    destruct (n <? windowCount options content)%nat; [|discriminate].
    simpl in Ha. injection Ha as <-. injection Hw as <-.
    rewrite windowAt_substring by assumption.
    rewrite length_firstn.
    set (C := Z.to_nat (chunkSize options)).
    set (l := skipn (n * Z.to_nat (increment options)) content).
    destruct (Nat.le_gt_cases C (length l)) as [L|L].
    + f_equal. lia.
    + rewrite !firstn_all2 by lia. reflexivity.
  - intros j Hj.
    destruct (window_holds options content Hv Hj) as [Hk [Hr _]].
    set (k := (j / Z.to_nat (increment options))%nat) in *.
    exists k, (k * Z.to_nat (increment options))%nat, (windowAt options content k).
    split; [|split].
    + rewrite nth_error_map, nth_error_seq.
      apply Nat.ltb_lt in Hk. rewrite Hk. reflexivity.
    + rewrite windows_nth. apply Nat.ltb_lt in Hk. rewrite Hk. reflexivity.
    + exact Hr.
Qed.

Lemma filter_nothing_blank (ws : list jsstring) :
  (forall w, In w ws -> blank w = false) ->
  filter (fun w => negb (blank w)) ws = ws.
Proof.
  intro H. apply forallb_filter_id. apply forallb_forall.
  intros w Hin. rewrite (H w Hin). reflexivity.
Qed.

(** One chunk shorter than the text cannot cover it. *)
Lemma short_chunk_does_not_cover (content chunk : jsstring) :
  (length chunk < length content)%nat -> ~ covers content [chunk].
Proof.
  intros Hlt [starts [Hlen [Hsub Hall]]].
  destruct starts as [|a [|b starts]]; simpl in Hlen; try discriminate.
  assert (H0 : (0 < length content)%nat) by lia.
  destruct (Hall 0%nat H0) as [n [a0 [c0 [Ha0 [Hc0 Hr0]]]]].
  destruct n as [|n]; [|destruct n; discriminate].
  simpl in Ha0, Hc0. injection Ha0 as <-. injection Hc0 as <-.
  assert (Hl : (length content - 1 < length content)%nat) by lia.
  destruct (Hall _ Hl) as [n [a1 [c1 [Ha1 [Hc1 Hr1]]]]].
  destruct n as [|n]; [|destruct n; discriminate].
  simpl in Ha1, Hc1. injection Ha1 as <-. injection Hc1 as <-.
  lia.
Qed.

(** ** Overlap *)

(** What window [k] has beyond the next cursor position is the start of
    window [k + 1]: the two share [overlapSize] characters unless the end
    of the text cuts the shared part short. *)
Lemma windows_overlap (options : ChunkingOptions) (content : jsstring) (k : nat) :
  0 <= overlapOrZero options < chunkSize options ->
  skipn (Z.to_nat (increment options)) (windowAt options content k) =
  firstn (Z.to_nat (overlapOrZero options)) (windowAt options content (S k)) /\
  Z.of_nat (length (skipn (Z.to_nat (increment options)) (windowAt options content k))) =
  Z.max 0 (Z.min (overlapOrZero options)
                 (JS.length content - Z.of_nat (S k) * increment options)).
Proof.
  intro Hv.
  assert (Hs : 0 < increment options) by (unfold increment; lia).
  assert (Hc : 0 <= chunkSize options) by lia.
  rewrite !windowAt_substring by assumption.
  set (S0 := Z.to_nat (increment options)).
  set (C := Z.to_nat (chunkSize options)).
  assert (HO : Z.to_nat (overlapOrZero options) = (C - S0)%nat)
    by (subst C S0; unfold increment; lia).
  rewrite HO. split.
  - rewrite skipn_firstn_comm, skipn_skipn, firstn_firstn.
    rewrite Nat.min_l by lia. reflexivity.
  - rewrite skipn_firstn_comm, skipn_skipn, length_firstn, length_skipn.
    unfold JS.length. subst C S0. unfold increment in *. lia.
Qed.

(** ** Termination *)

(** With a step that is not positive the cursor never reaches the end of
    a non-empty text: however many iterations are allowed, the loop has
    not returned. *)
Lemma createChunks_loop_stuck (options : ChunkingOptions) (content : jsstring) :
  increment options <= 0 ->
  forall (fuel : nat) (i : Z) (chunks : list jsstring),
    i < JS.length content ->
    createChunks_loop fuel options content i chunks = None.
Proof.
  intros Hs fuel. induction fuel as [|fuel IH]; intros i chunks Hi; simpl.
  - apply Z.ltb_lt in Hi. rewrite Hi. reflexivity.
  - pose proof Hi as Hi'. apply Z.ltb_lt in Hi'. rewrite Hi'.
    apply IH. lia.
Qed.

Lemma registry_increment (apiKey : APIKey) :
  0 <= overlapOrZero (API_TOKEN_LIMITS apiKey) < chunkSize (API_TOKEN_LIMITS apiKey) /\
  0 < increment (API_TOKEN_LIMITS apiKey) /\
  2 * overlapOrZero (API_TOKEN_LIMITS apiKey) <= chunkSize (API_TOKEN_LIMITS apiKey).
Proof. destruct apiKey; vm_compute; intuition discriminate. Qed.

(** [createChunks] is the list of visited windows without the blank ones. *)
Lemma createChunks_windows (content : jsstring) (apiKey : APIKey) :
  createChunks content apiKey =
  filter (fun w => negb (blank w)) (windows (API_TOKEN_LIMITS apiKey) content).
Proof.
  unfold createChunks.
  rewrite createChunksWith_windows; [reflexivity | apply registry_increment | lia].
Qed.

(** C6, as the code has it.  [createChunks] has no guard on its step; it
    returns for every text and every profile whose step is positive, within
    [content.length] iterations, and so for each of the six profiles of the
    registry, the only ones its signature admits. *)
Theorem createChunks_terminates (options : ChunkingOptions) (content : jsstring)
        (fuel : nat) :
  0 < increment options -> (length content <= fuel)%nat ->
  (exists chunks, createChunksWith fuel options content = Some chunks) /\
  (forall apiKey : APIKey,
      createChunksWith fuel (API_TOKEN_LIMITS apiKey) content =
      Some (createChunks content apiKey)).
Proof.
  intros Hs Hf. split.
  - eexists. apply createChunksWith_windows; assumption.
  - intro apiKey. rewrite createChunks_windows.
    apply createChunksWith_windows; [apply registry_increment | assumption].
Qed.

(** The small profile on a five-letter text. *)
Lemma createChunks_terminates_witness :
  0 < increment Scenarios.smallOptions /\
  (length (JS.lit "hello") <= 5)%nat /\
  (exists chunks,
      createChunksWith 5 Scenarios.smallOptions (JS.lit "hello") = Some chunks) /\
  (forall apiKey : APIKey,
      createChunksWith 5 (API_TOKEN_LIMITS apiKey) (JS.lit "hello") =
      Some (createChunks (JS.lit "hello") apiKey)).
Proof.
  assert (H1 : 0 < increment Scenarios.smallOptions) by (vm_compute; reflexivity).
  assert (H2 : (length (JS.lit "hello") <= 5)%nat) by (vm_compute; lia).
  split; [exact H1 | split; [exact H2 |]].
  exact (createChunks_terminates Scenarios.smallOptions (JS.lit "hello") H1 H2).
Defined.

(** C6 as stated fails: with a step that is not positive and a text that
    is not empty the splitter neither returns nor raises an error. *)
Lemma createChunks_no_guard :
  increment Scenarios.stuckOptions <= 0 /\
  ~ exists (fuel : nat) (chunks : list jsstring),
      createChunksWith fuel Scenarios.stuckOptions (JS.lit "ab") = Some chunks.
Proof.
  split; [vm_compute; discriminate|].
  intros [fuel [chunks H]]. unfold createChunksWith in H.
  rewrite createChunks_loop_stuck in H; [discriminate | vm_compute; discriminate | reflexivity].
Qed.

(** ** Coverage and overlap of the chunks *)

(** C4, as the code has it.  For a profile with
    [0 <= overlapSize < chunkSize] the splitter returns the visited windows
    with the blank ones dropped.  The chunks hold every character that is
    not white space; when no window is blank they are all the windows and
    cover the text.  Window [k] and window [k + 1] share the characters
    from the next cursor position on: exactly [overlapSize] of them when
    window [k] has its full length, fewer when the end of the text cuts it
    short, which, if [2 * overlapSize <= chunkSize], only happens for the
    last pair. *)
Theorem createChunks_coverage_overlap (options : ChunkingOptions) (content : jsstring)
        (fuel : nat) :
  0 <= overlapOrZero options < chunkSize options ->
  (length content <= fuel)%nat ->
  let step := Z.to_nat (increment options) in
  let shared k := skipn step (windowAt options content k) in
  exists chunks : list jsstring,
    createChunksWith fuel options content = Some chunks /\
    chunks = filter (fun w => negb (blank w)) (windows options content) /\
    (forall apiKey, options = API_TOKEN_LIMITS apiKey ->
                    createChunks content apiKey = chunks) /\
    (forall j c, nth_error content j = Some c -> JS.isWhiteSpace c = false ->
       exists k : nat,
         In (windowAt options content k) chunks /\
         (k * step <= j < k * step + length (windowAt options content k))%nat) /\
    ((forall w, In w (windows options content) -> blank w = false) ->
     chunks = windows options content /\ covers content chunks) /\
    (forall k, (S k < windowCount options content)%nat ->
       shared k = firstn (Z.to_nat (overlapOrZero options))
                         (windowAt options content (S k)) /\
       Z.of_nat (length (shared k)) <= overlapOrZero options /\
       (Z.of_nat (length (windowAt options content k)) = chunkSize options ->
        Z.of_nat (length (shared k)) = overlapOrZero options) /\
       (2 * overlapOrZero options <= chunkSize options ->
        (S (S k) < windowCount options content)%nat ->
        Z.of_nat (length (shared k)) = overlapOrZero options)).
Proof.
  intros Hv Hf step shared.
  assert (Hs : 0 < increment options) by (unfold increment; lia).
  assert (Hc : 0 <= chunkSize options) by lia.
  exists (filter (fun w => negb (blank w)) (windows options content)).
  split; [apply createChunksWith_windows; assumption|].
  split; [reflexivity|].
  split; [intros apiKey ->; apply createChunks_windows|].
  split; [intros j c Hj Hw; apply kept_window_holds with (c := c); assumption|].
  split.
  - intro Hnb. rewrite (filter_nothing_blank _ Hnb).
    split; [reflexivity | apply windows_cover; assumption].
  - intros k Hk. destruct (windows_overlap options content k Hv) as [E L].
    fold step in E, L. fold (shared k) in E, L.
    split; [exact E|].
    apply windowCount_spec in Hk; [|assumption].
    split; [lia|]. split.
    + intro Hfull. rewrite windowAt_length in Hfull by assumption.
      unfold increment in *. lia.
    + intros H2 Hk2. apply windowCount_spec in Hk2; [|assumption].
      unfold increment in *. lia.
Qed.

(** The small profile on an eleven-letter text with a space in it. *)
Lemma createChunks_coverage_overlap_witness :
  0 <= overlapOrZero Scenarios.smallOptions < chunkSize Scenarios.smallOptions /\
  (length (JS.lit "hello world") <= 11)%nat /\
  exists chunks : list jsstring,
    createChunksWith 11 Scenarios.smallOptions (JS.lit "hello world") = Some chunks /\
    chunks = filter (fun w => negb (blank w))
                    (windows Scenarios.smallOptions (JS.lit "hello world")).
Proof.
  assert (H1 : 0 <= overlapOrZero Scenarios.smallOptions
               < chunkSize Scenarios.smallOptions) by (vm_compute; intuition discriminate).
  assert (H2 : (length (JS.lit "hello world") <= 11)%nat) by (vm_compute; lia).
  split; [exact H1 | split; [exact H2 |]].
  destruct (createChunks_coverage_overlap Scenarios.smallOptions (JS.lit "hello world")
              H1 H2) as [chunks [E [F _]]].
  exists chunks. split; assumption.
Defined.

(** C4 as stated fails on the summarizer's own profile: of a letter
    followed by 8000 spaces only the first window is kept, and one chunk
    of 8000 characters cannot cover 8001. *)
Lemma createChunks_drops_blank_window :
  overlapOrZero (API_TOKEN_LIMITS summarizer) < chunkSize (API_TOKEN_LIMITS summarizer) /\
  createChunks Scenarios.blankTail summarizer = [firstn (Z.to_nat 8000) Scenarios.blankTail] /\
  ~ covers Scenarios.blankTail (createChunks Scenarios.blankTail summarizer).
Proof.
  assert (E : createChunks Scenarios.blankTail summarizer =
              [firstn (Z.to_nat 8000) Scenarios.blankTail]) by (vm_compute; reflexivity).
  split; [vm_compute; reflexivity | split; [exact E|]].
  rewrite E. apply short_chunk_does_not_cover.
  apply Nat.ltb_lt. vm_compute. reflexivity.
Qed.

End Splitter.

(* ================================================================== *)
(** * The execution engine *)
(* ================================================================== *)

Section EngineFacts.

Import ChunkingService Observe.
Variables St HEv : Type.
Implicit Types (apiFunction : Worker St HEv) (st : St) (tr : list (event HEv)).

Lemma invocations_app tr1 tr2 :
  invocations (tr1 ++ tr2) = invocations tr1 ++ invocations tr2.
Proof.
  induction tr1 as [|e tr1 IH]; simpl; [reflexivity|].
  destruct e; simpl; rewrite IH; reflexivity.
Qed.

Lemma invocations_host (htr : list HEv) : invocations (map (@Inner HEv) htr) = [].
Proof. induction htr; simpl; auto. Qed.

Lemma warnings_app tr1 tr2 :
  warnings (tr1 ++ tr2) = warnings tr1 ++ warnings tr2.
Proof.
  induction tr1 as [|e tr1 IH]; simpl; [reflexivity|].
  destruct e; simpl; rewrite IH; reflexivity.
Qed.

Lemma warnings_host (htr : list HEv) : warnings (map (@Inner HEv) htr) = [].
Proof. induction htr; simpl; auto. Qed.

(** A progress report leaves the state alone and is no worker call. *)
Lemma progress_run (onProgress : bool) (message : jsstring) st :
  exists tr, @progress St HEv onProgress message st = (inr tt, st, tr) /\
             invocations tr = [] /\ warnings tr = [].
Proof.
  destruct onProgress; simpl; eexists; (split; [reflexivity | split; reflexivity]).
Qed.

(** One call of the worker, as the engine sees it. *)
Lemma invoke_run apiFunction (chunk : jsstring) st :
  forall r st1 htr, apiFunction chunk st = (r, st1, htr) ->
  invoke apiFunction chunk st = (r, st1, Invoke chunk :: map (@Inner HEv) htr).
Proof.
  intros r st1 htr H. unfold invoke, Effect.bind, Effect.emit, Effect.mapTrace.
  rewrite H. destruct r; reflexivity.
Qed.

Lemma collected_cons (r : ChunkingResult) (rs : list ChunkingResult) :
  collected (r :: rs) =
  if collectable r then dataString (data r) :: collected rs else collected rs.
Proof. unfold collected. simpl. destruct (collectable r); reflexivity. Qed.

(** The chunk loop when every call returns: the collectable outputs are
    appended in order, one worker call is made per chunk, on the chunk
    itself, and one warning is logged per result that is not collected. *)
Lemma processChunks_loop_answers apiFunction (onProgress : bool) (total : nat) :
  forall (rest : list jsstring) (i : nat) (results : list jsstring) st outs st1,
    answers apiFunction rest st = Some (outs, st1) ->
    exists tr,
      processChunks_loop apiFunction onProgress total rest i results st =
        (inr (results ++ collected outs), st1, tr) /\
      invocations tr = rest /\
      length (warnings tr) = length (filter (fun r => negb (collectable r)) outs).
Proof.
  induction rest as [|chunk rest IH]; intros i results st outs st1 H; simpl in H.
  - injection H as <- <-. exists []. simpl. rewrite app_nil_r. auto.
  - destruct (apiFunction chunk st) as [[[e|r] st'] htr] eqn:Hw; [discriminate|].
    destruct (answers apiFunction rest st') as [[rs st2]|] eqn:Ha; [|discriminate].
    injection H as <- <-.
    cbn [processChunks_loop]. unfold Effect.bind.
    match goal with
    | |- context [@progress _ _ ?p ?m st] =>
        destruct (progress_run p m st) as [ptr [Ep [Ip Wp]]]
    end.
    rewrite Ep. rewrite (invoke_run _ _ _ Hw).
    rewrite collected_cons. unfold collectable.
    destruct (success r && truthyData (data r)) eqn:C; simpl.
    + destruct (IH (S i) (results ++ [dataString (data r)]) st' rs st2 Ha)
        as [tr [E [I W]]].
      rewrite E. eexists. split; [rewrite <- app_assoc; reflexivity|].
      rewrite !invocations_app, !warnings_app, Ip, Wp. simpl.
      rewrite invocations_app, warnings_app, invocations_host, warnings_host. simpl.
      rewrite I, W, C. auto.
    + destruct (IH (S i) results st' rs st2 Ha) as [tr [E [I W]]].
      rewrite E. eexists. split; [reflexivity|].
      rewrite !invocations_app, !warnings_app, Ip, Wp. simpl.
      rewrite invocations_app, warnings_app, invocations_host, warnings_host. simpl.
      rewrite I, W, C. auto.
Qed.

Ltac run_progress :=
  match goal with
  | |- context [@progress _ _ ?p ?m ?s] =>
      let ptr := fresh "ptr" in
      let Ep := fresh "Ep" in
      let Ip := fresh "Ip" in
      let Wp := fresh "Wp" in
      destruct (progress_run p m s) as [ptr [Ep [Ip Wp]]]; rewrite Ep
  end.

Ltac trace_facts :=
  repeat (rewrite ?invocations_app, ?warnings_app, ?invocations_host, ?warnings_host;
          simpl invocations; simpl warnings);
  repeat match goal with
         | H : invocations _ = _ |- _ => rewrite H
         | H : warnings _ = _ |- _ => rewrite H
         end;
  rewrite ?app_nil_r; simpl app.

(** Chunked path, every call returns, nothing is collected. *)
Lemma chunked_nothing_collected apiFunction (onProgress : bool)
      (content : jsstring) (apiKey : APIKey) st outs st1 :
  needsChunking content apiKey = true ->
  answers apiFunction (createChunks content apiKey) st = Some (outs, st1) ->
  collected outs = [] ->
  exists tr,
    processWithChunking content apiKey apiFunction onProgress st =
      (inr allChunksFailed, st1, tr) /\
    invocations tr = createChunks content apiKey /\
    length (warnings tr) = length outs.
Proof.
  intros Hn Ha Hc.
  unfold processWithChunking, Effect.tryCatch, Effect.bind. rewrite Hn. change (negb true) with false. cbv beta iota.
  run_progress.
  destruct (processChunks_loop_answers apiFunction onProgress
              (length (createChunks content apiKey)) _ 0 [] _ Ha) as [tr [E [I W]]].
  rewrite E, Hc. simpl.
  eexists. split; [reflexivity|]. split.
  - trace_facts. reflexivity.
  - trace_facts. rewrite W.
    assert (F : filter collectable outs = []).
    { unfold collected in Hc. destruct (filter collectable outs); [reflexivity|discriminate]. }
    clear - F. induction outs as [|r rs IH]; simpl in *; [reflexivity|].
    destruct (collectable r); [discriminate|]. simpl. rewrite IH by assumption. reflexivity.
Qed.

Lemma collected_length_nonzero (outs : list ChunkingResult) :
  collected outs <> [] -> (length (collected outs) =? 0)%nat = false.
Proof. destruct (collected outs); [congruence | reflexivity]. Qed.

(** Chunked path, every call returns, something is collected and the
    joined text fits the budget. *)
Lemma chunked_joined_fits apiFunction (onProgress : bool)
      (content : jsstring) (apiKey : APIKey) st outs st1 :
  needsChunking content apiKey = true ->
  answers apiFunction (createChunks content apiKey) st = Some (outs, st1) ->
  collected outs <> [] ->
  needsChunking (JS.join separator (collected outs)) apiKey = false ->
  exists tr,
    processWithChunking content apiKey apiFunction onProgress st =
      (inr (mkResult true (Some (JS.join separator (collected outs))) None), st1, tr) /\
    invocations tr = createChunks content apiKey /\
    length (warnings tr) = length (filter (fun r => negb (collectable r)) outs).
Proof.
  intros Hn Ha Hc Hfit.
  unfold processWithChunking, Effect.tryCatch, Effect.bind.
  rewrite Hn. change (negb true) with false. cbv beta iota.
  run_progress.
  destruct (processChunks_loop_answers apiFunction onProgress
              (length (createChunks content apiKey)) _ 0 [] _ Ha) as [tr [E [I W]]].
  rewrite E. change ([] ++ collected outs) with (collected outs). cbv beta iota.
  rewrite (collected_length_nonzero _ Hc). cbv beta iota.
  run_progress. rewrite Hfit. simpl.
  eexists. split; [reflexivity|].
  split; trace_facts; [reflexivity | exact W].
Qed.

(** Chunked path, every chunk call returns, something is collected and
    the joined text is over the budget: one more call, on the joined text. *)
Lemma chunked_condense apiFunction (onProgress : bool)
      (content : jsstring) (apiKey : APIKey) st outs st1 answer st2 htr :
  needsChunking content apiKey = true ->
  answers apiFunction (createChunks content apiKey) st = Some (outs, st1) ->
  collected outs <> [] ->
  needsChunking (JS.join separator (collected outs)) apiKey = true ->
  apiFunction (JS.join separator (collected outs)) st1 = (answer, st2, htr) ->
  exists tr,
    processWithChunking content apiKey apiFunction onProgress st =
      (inr (condensed (JS.join separator (collected outs)) answer), st2, tr) /\
    invocations tr = createChunks content apiKey ++ [JS.join separator (collected outs)].
Proof.
  intros Hn Ha Hc Hover Hfin.
  unfold processWithChunking, Effect.tryCatch, Effect.bind.
  rewrite Hn. change (negb true) with false. cbv beta iota.
  run_progress.
  destruct (processChunks_loop_answers apiFunction onProgress
              (length (createChunks content apiKey)) _ 0 [] _ Ha) as [tr [E [I W]]].
  rewrite E. change ([] ++ collected outs) with (collected outs). cbv beta iota.
  rewrite (collected_length_nonzero _ Hc). cbv beta iota.
  run_progress. rewrite Hover. cbv beta iota.
  run_progress. rewrite (invoke_run _ _ _ Hfin).
  destruct answer as [e|r]; simpl.
  - eexists. split; [reflexivity|]. trace_facts. reflexivity.
  - destruct (success r); simpl; (eexists; split; [reflexivity|]; trace_facts; reflexivity).
Qed.

(** The direct path: one call, on the text itself. *)
Lemma direct_call apiFunction (onProgress : bool)
      (content : jsstring) (apiKey : APIKey) st answer st1 htr :
  needsChunking content apiKey = false ->
  apiFunction content st = (answer, st1, htr) ->
  exists tr,
    processWithChunking content apiKey apiFunction onProgress st =
      (inr (passedOn answer), st1, tr) /\
    invocations tr = [content] /\
    hostEvents tr = htr.
Proof.
  intros Hn Hw.
  unfold processWithChunking, Effect.tryCatch, Effect.bind.
  rewrite Hn. change (negb false) with true. cbv beta iota.
  run_progress. rewrite (invoke_run _ _ _ Hw).
  assert (Hh : hostEvents (ptr ++ Invoke content :: map (@Inner HEv) htr) = htr).
  { clear - Ep. destruct onProgress; simpl in Ep; injection Ep as <-; simpl;
      induction htr; simpl; congruence. }
  destruct answer as [e|r]; simpl.
  - eexists. split; [reflexivity|]. split; [trace_facts; reflexivity|].
    rewrite app_nil_r. exact Hh.
  - destruct (success r); simpl;
      (eexists; split; [reflexivity|]; split; [trace_facts; reflexivity|]);
      rewrite app_nil_r; exact Hh.
Qed.

(** The chunk loop when a call throws: the loop is left at once, with
    what was thrown; the chunks after it are not processed. *)
Lemma processChunks_loop_throws apiFunction (onProgress : bool) (total : nat)
      (chunk : jsstring) (post : list jsstring) (e : Effect.thrown) :
  forall (pre : list jsstring) (i : nat) (results : list jsstring) st outs st1 st2 htr,
    answers apiFunction pre st = Some (outs, st1) ->
    apiFunction chunk st1 = (inl e, st2, htr) ->
    exists tr,
      processChunks_loop apiFunction onProgress total (pre ++ chunk :: post) i results st =
        (inl e, st2, tr) /\
      invocations tr = pre ++ [chunk].
Proof.
  induction pre as [|c pre IH]; intros i results st outs st1 st2 htr Ha Hthrow; simpl in Ha.
  - injection Ha as <- <-. simpl app.
    cbn [processChunks_loop]. unfold Effect.bind.
    run_progress. rewrite (invoke_run _ _ _ Hthrow).
    eexists. split; [reflexivity|]. trace_facts. reflexivity.
  - destruct (apiFunction c st) as [[[e0|r] st'] htr0] eqn:Hw; [discriminate|].
    destruct (answers apiFunction pre st') as [[rs st3]|] eqn:Ha'; [|discriminate].
    injection Ha as <- <-.
    simpl app. cbn [processChunks_loop]. unfold Effect.bind.
    run_progress. rewrite (invoke_run _ _ _ Hw).
    destruct (success r && truthyData (data r)); simpl.
    + destruct (IH (S i) (results ++ [dataString (data r)]) st' rs st3 st2 htr Ha' Hthrow)
        as [tr [E I]].
      rewrite E. eexists. split; [reflexivity|]. trace_facts. reflexivity.
    + destruct (IH (S i) results st' rs st3 st2 htr Ha' Hthrow) as [tr [E I]].
      rewrite E. eexists. split; [reflexivity|]. trace_facts. reflexivity.
Qed.

(** Chunked path, a chunk call throws: the [catch] clause turns what was
    thrown into a failure, whatever the earlier chunks returned. *)
Lemma chunked_throw apiFunction (onProgress : bool)
      (content : jsstring) (apiKey : APIKey) pre chunk post st outs st1 e st2 htr :
  needsChunking content apiKey = true ->
  createChunks content apiKey = pre ++ chunk :: post ->
  answers apiFunction pre st = Some (outs, st1) ->
  apiFunction chunk st1 = (inl e, st2, htr) ->
  exists tr,
    processWithChunking content apiKey apiFunction onProgress st =
      (inr (caught e), st2, tr) /\
    invocations tr = pre ++ [chunk].
Proof.
  intros Hn Hsplit Ha Hthrow.
  unfold processWithChunking, Effect.tryCatch, Effect.bind.
  rewrite Hn. change (negb true) with false. cbv beta iota.
  run_progress. rewrite Hsplit.
  destruct (@processChunks_loop_throws apiFunction onProgress
              (length (pre ++ chunk :: post)) chunk post e pre 0 [] st outs st1 st2 htr
              Ha Hthrow)
    as [tr [E I]].
  rewrite E. simpl.
  eexists. split; [reflexivity|]. trace_facts. reflexivity.
Qed.

Lemma collected_nonempty (outs : list ChunkingResult) :
  (exists r, In r outs /\ collectable r = true) -> collected outs <> [].
Proof.
  intros [r [Hin Hc]] E. unfold collected in E.
  apply map_eq_nil in E.
  assert (Hf : In r (filter collectable outs)) by (apply filter_In; auto).
  rewrite E in Hf. exact Hf.
Qed.

Lemma collected_empty (outs : list ChunkingResult) :
  (forall r, In r outs -> collectable r = false) -> collected outs = [].
Proof.
  intro H. unfold collected.
  induction outs as [|r rs IH]; simpl; [reflexivity|].
  rewrite (H r) by (left; reflexivity). apply IH.
  intros r' Hin. apply H. right. exact Hin.
Qed.

Lemma answers_length apiFunction (chunks : list jsstring) :
  forall st outs st1,
    answers apiFunction chunks st = Some (outs, st1) -> length outs = length chunks.
Proof.
  induction chunks as [|c cs IH]; intros st outs st1 Ha; simpl in Ha.
  - injection Ha as <- _. reflexivity.
  - destruct (apiFunction c st) as [[[e|r] st'] htr]; [discriminate|].
    destruct (answers apiFunction cs st') as [[rs st2]|] eqn:Hr; [|discriminate].
    injection Ha as <- _. simpl. f_equal. exact (IH _ _ _ Hr).
Qed.

(** ** The claims about the engine *)

(** C1, as the code has it.  In a chunked execution in which no worker
    call throws and at least one chunk's call succeeds with a non-empty
    output, [processWithChunking] returns success whatever the other
    chunks' calls returned: the output is the successful chunks' outputs
    joined in order, or, when that is over the budget, what the final
    call on it makes of it.  Each chunk is passed to the worker once, in
    order, and one warning is logged per skipped chunk. *)
Theorem partial_failure_tolerated apiFunction (onProgress : bool)
        (content : jsstring) (apiKey : APIKey) st outs st1 :
  needsChunking content apiKey = true ->
  answers apiFunction (createChunks content apiKey) st = Some (outs, st1) ->
  (exists r, In r outs /\ collectable r = true) ->
  let joined := JS.join separator (collected outs) in
  (needsChunking joined apiKey = false ->
   exists tr,
     processWithChunking content apiKey apiFunction onProgress st =
       (inr (mkResult true (Some joined) None), st1, tr) /\
     invocations tr = createChunks content apiKey /\
     length (warnings tr) = length (filter (fun r => negb (collectable r)) outs)) /\
  (needsChunking joined apiKey = true ->
   forall r st2 htr,
     apiFunction joined st1 = (inr r, st2, htr) ->
     exists tr result,
       processWithChunking content apiKey apiFunction onProgress st =
         (inr result, st2, tr) /\
       success result = true /\
       data result = (if success r then data r else Some joined)).
Proof.
  intros Hn Ha Hsome joined. pose proof (collected_nonempty _ Hsome) as Hc.
  split.
  - intro Hfit. apply chunked_joined_fits; assumption.
  - intros Hover r st2 htr Hfin.
    destruct (chunked_condense apiFunction onProgress content apiKey st Hn Ha Hc Hover Hfin)
      as [tr [E _]].
    exists tr, (condensed joined (inr r)). split; [exact E|].
    simpl. destruct (success r); split; reflexivity.
Qed.

(** C2, as the code has it.  In a chunked execution in which no chunk's
    call yields a collected result, [processWithChunking] returns a
    failure.  When every call returns, every chunk has been passed to the
    worker and the message is ['All chunks failed to process'].  When a
    call throws, the run ends at that chunk and the message is that of the
    thrown error, or ['Chunking processing failed'] when what was thrown
    is not an error. *)
Theorem total_failure_reported apiFunction (onProgress : bool)
        (content : jsstring) (apiKey : APIKey) st :
  needsChunking content apiKey = true ->
  (forall outs st1,
      answers apiFunction (createChunks content apiKey) st = Some (outs, st1) ->
      (forall r, In r outs -> collectable r = false) ->
      exists tr,
        processWithChunking content apiKey apiFunction onProgress st =
          (inr (mkResult false None (Some (JS.lit "All chunks failed to process"))),
           st1, tr) /\
        invocations tr = createChunks content apiKey) /\
  (forall pre chunk post outs st1 e st2 htr,
      createChunks content apiKey = pre ++ chunk :: post ->
      answers apiFunction pre st = Some (outs, st1) ->
      (forall r, In r outs -> collectable r = false) ->
      apiFunction chunk st1 = (inl e, st2, htr) ->
      exists tr,
        processWithChunking content apiKey apiFunction onProgress st =
          (inr (mkResult false None
                  (Some (match e with
                         | Effect.ThrownError message => message
                         | Effect.ThrownOther => JS.lit "Chunking processing failed"
                         end))),
           st2, tr) /\
        invocations tr = pre ++ [chunk]).
Proof.
  intro Hn. split.
  - intros outs st1 Ha Hnone.
    destruct (chunked_nothing_collected apiFunction onProgress content apiKey st Hn Ha
                (collected_empty _ Hnone)) as [tr [E [I _]]].
    exists tr. split; assumption.
  - intros pre chunk post outs st1 e st2 htr Hc Ha _ Hthrow.
    destruct (chunked_throw apiFunction onProgress content apiKey pre chunk post st
                Hn Hc Ha Hthrow) as [tr [E I]].
    exists tr. split; [|exact I].
    rewrite E. unfold caught. destruct e; reflexivity.
Qed.

(** C3.  A text no longer than the profile's [chunkSize] needs no
    chunking, whatever the profile; [processWithChunking] then calls the
    worker once, on the text itself, does nothing else to the host, and
    hands back what the worker returned: a success with its data, a
    failure with its error message, or with ['API call failed'] when the
    worker gave none or an empty one.  A call that throws gives the
    failure of the [catch] clause. *)
Theorem small_input_single_call apiFunction (onProgress : bool)
        (content : jsstring) (apiKey : APIKey) st answer st1 htr :
  (JS.length content <= chunkSize (API_TOKEN_LIMITS apiKey))%Z ->
  apiFunction content st = (answer, st1, htr) ->
  (forall options : ChunkingOptions,
      (JS.length content <= chunkSize options)%Z ->
      needsChunkingWith options content = false) /\
  needsChunking content apiKey = false /\
  exists tr,
    processWithChunking content apiKey apiFunction onProgress st =
      (inr (match answer with
            | inr r =>
                if success r then mkResult true (data r) None
                else mkResult false None
                       (Some (match error r with
                              | Some (c :: message) => c :: message
                              | Some [] | None => JS.lit "API call failed"
                              end))
            | inl (Effect.ThrownError message) => mkResult false None (Some message)
            | inl Effect.ThrownOther =>
                mkResult false None (Some (JS.lit "Chunking processing failed"))
            end), st1, tr) /\
    invocations tr = [content] /\
    hostEvents tr = htr.
Proof.
  intros Hlen Hw.
  assert (Hgen : forall options : ChunkingOptions,
             (JS.length content <= chunkSize options)%Z ->
             needsChunkingWith options content = false).
  { intros options H. unfold needsChunkingWith. apply Z.ltb_ge. exact H. }
  assert (Hn : needsChunking content apiKey = false) by (apply Hgen; exact Hlen).
  split; [exact Hgen|]. split; [exact Hn|].
  destruct (direct_call apiFunction onProgress content apiKey st Hn Hw) as [tr [E [I Hh]]].
  exists tr. split; [|split; [exact I | exact Hh]].
  rewrite E. destruct answer as [[message|]|r]; [reflexivity | reflexivity |].
  unfold passedOn, orElse. destruct (success r); [reflexivity|].
  destruct (error r) as [[|c message]|]; reflexivity.
Qed.


(** C10.  In the chunked path a result that reports success with an empty
    or missing output is not collectable: the loop leaves it out of its
    results and warns about it like a failed chunk.  When every chunk's
    call returns such a result the outcome is the failure
    ['All chunks failed to process'], with one warning per chunk, although
    no call reported a failure. *)
Theorem empty_success_not_collected apiFunction (onProgress : bool)
        (content : jsstring) (apiKey : APIKey) st outs st1 :
  needsChunking content apiKey = true ->
  answers apiFunction (createChunks content apiKey) st = Some (outs, st1) ->
  (forall r, success r = true -> data r = None \/ data r = Some [] ->
             collectable r = false) /\
  (exists tr,
      processChunks_loop apiFunction onProgress (length (createChunks content apiKey))
                         (createChunks content apiKey) 0 [] st =
        (inr (collected outs), st1, tr) /\
      length (warnings tr) = length (filter (fun r => negb (collectable r)) outs)) /\
  ((forall r, In r outs -> success r = true /\ (data r = None \/ data r = Some [])) ->
   exists tr,
     processWithChunking content apiKey apiFunction onProgress st =
       (inr (mkResult false None (Some (JS.lit "All chunks failed to process"))), st1, tr) /\
     length (warnings tr) = length (createChunks content apiKey)).
Proof.
  intros Hn Ha.
  assert (Hskip : forall r, success r = true -> data r = None \/ data r = Some [] ->
                            collectable r = false).
  { intros r Hs [Hd|Hd]; unfold collectable; rewrite Hs, Hd; reflexivity. }
  split; [exact Hskip|]. split.
  - destruct (processChunks_loop_answers apiFunction onProgress
                (length (createChunks content apiKey)) _ 0 [] _ Ha) as [tr [E [_ W]]].
    exists tr. split; assumption.
  - intro Hempty.
    assert (Hnone : forall r, In r outs -> collectable r = false).
    { intros r Hin. destruct (Hempty r Hin) as [Hs Hd]. apply Hskip; assumption. }
    pose proof (answers_length _ _ _ Ha) as Hlen.
    destruct (chunked_nothing_collected apiFunction onProgress content apiKey st Hn Ha
                (collected_empty _ Hnone)) as [tr [E [_ W]]].
    exists tr. split; [exact E | rewrite W; exact Hlen].
Qed.

End EngineFacts.

(** ** The engine on concrete runs *)

Section EngineRuns.

Import ChunkingService Observe Scenarios.

(** Two chunks, the second of which fails: the run succeeds with the
    output of the first, and one warning is logged. *)
Lemma partial_failure_tolerated_witness :
  needsChunking twoWindows summarizer = true /\
  answers failSecond (createChunks twoWindows summarizer) 0%nat =
    Some ([ok (JS.lit "S"); ko (JS.lit "boom")], 2%nat) /\
  (exists r, In r [ok (JS.lit "S"); ko (JS.lit "boom")] /\ collectable r = true) /\
  exists tr,
    processWithChunking twoWindows summarizer failSecond true 0%nat =
      (inr (mkResult true (Some (JS.lit "S")) None), 2%nat, tr) /\
    invocations tr = createChunks twoWindows summarizer /\
    length (warnings tr) = 1%nat.
Proof.
  assert (H1 : needsChunking twoWindows summarizer = true) by (vm_compute; reflexivity).
  assert (H2 : answers failSecond (createChunks twoWindows summarizer) 0%nat =
               Some ([ok (JS.lit "S"); ko (JS.lit "boom")], 2%nat))
    by (vm_compute; reflexivity).
  assert (H3 : exists r, In r [ok (JS.lit "S"); ko (JS.lit "boom")] /\ collectable r = true)
    by (exists (ok (JS.lit "S")); split; [left; reflexivity | reflexivity]).
  split; [exact H1 | split; [exact H2 | split; [exact H3 |]]].
  destruct (@partial_failure_tolerated nat unit failSecond true twoWindows summarizer
              0%nat _ 2%nat H1 H2 H3) as [Hfit _].
  exact (Hfit eq_refl).
Defined.

(** C1 as stated fails when a chunk's call throws: the first of two
    chunks succeeds, the call on the second throws, and the run is a
    failure carrying the thrown message. *)
Lemma thrown_chunk_fails_run :
  needsChunking twoWindows summarizer = true /\
  (exists c1 c2,
      createChunks twoWindows summarizer = [c1; c2] /\
      Effect.outcome (throwSecond c1 0%nat) = inr (ok (JS.lit "S")) /\
      Effect.outcome (throwSecond c2 1%nat) = inl (Effect.ThrownError (JS.lit "boom"))) /\
  Effect.outcome (processWithChunking twoWindows summarizer throwSecond true 0%nat) =
    inr (mkResult false None (Some (JS.lit "boom"))).
Proof.
  split; [vm_compute; reflexivity|]. split.
  - exists (firstn (Z.to_nat 8000) twoWindows), (skipn (Z.to_nat 7600) twoWindows).
    split; [vm_compute; reflexivity | split; reflexivity].
  - vm_compute. reflexivity.
Qed.

(** Two chunks, both of which return a failure. *)
Lemma total_failure_reported_witness :
  needsChunking twoWindows summarizer = true /\
  answers alwaysFail (createChunks twoWindows summarizer) 0%nat =
    Some ([ko (JS.lit "no"); ko (JS.lit "no")], 2%nat) /\
  (forall r, In r [ko (JS.lit "no"); ko (JS.lit "no")] -> collectable r = false) /\
  exists tr,
    processWithChunking twoWindows summarizer alwaysFail false 0%nat =
      (inr (mkResult false None (Some (JS.lit "All chunks failed to process"))),
       2%nat, tr) /\
    invocations tr = createChunks twoWindows summarizer.
Proof.
  assert (H1 : needsChunking twoWindows summarizer = true) by (vm_compute; reflexivity).
  assert (H2 : answers alwaysFail (createChunks twoWindows summarizer) 0%nat =
               Some ([ko (JS.lit "no"); ko (JS.lit "no")], 2%nat))
    by (vm_compute; reflexivity).
  assert (H3 : forall r, In r [ko (JS.lit "no"); ko (JS.lit "no")] -> collectable r = false).
  { intros r [<-|[<-|[]]]; reflexivity. }
  split; [exact H1 | split; [exact H2 | split; [exact H3 |]]].
  exact (proj1 (@total_failure_reported nat unit alwaysFail false twoWindows summarizer
                  0%nat H1) _ _ H2 H3).
Defined.

(** C2 as stated fails when a call fails by throwing: the first of two
    chunks returns a failure, the call on the second throws, so that
    every chunk's call has failed and nothing is collected; the message
    is the thrown one and not that of a total failure. *)
Lemma total_failure_thrown_message :
  needsChunking twoWindows summarizer = true /\
  (exists c1 c2,
      createChunks twoWindows summarizer = [c1; c2] /\
      Effect.outcome (failThenThrow c1 0%nat) = inr (ko (JS.lit "no")) /\
      collectable (ko (JS.lit "no")) = false /\
      Effect.outcome (failThenThrow c2 1%nat) = inl (Effect.ThrownError (JS.lit "boom"))) /\
  Effect.outcome (processWithChunking twoWindows summarizer failThenThrow true 0%nat) =
    inr (mkResult false None (Some (JS.lit "boom"))) /\
  JS.eqb (JS.lit "boom") (JS.lit "All chunks failed to process") = false.
Proof.
  split; [vm_compute; reflexivity|]. split.
  - exists (firstn (Z.to_nat 8000) twoWindows), (skipn (Z.to_nat 7600) twoWindows).
    split; [vm_compute; reflexivity | repeat split; reflexivity].
  - split; vm_compute; reflexivity.
Qed.

(** Five letters under the summarizer's budget of 8000, and a worker
    that returns a failure with a message of its own. *)
Lemma small_input_single_call_witness :
  (JS.length (JS.lit "hello") <= chunkSize (API_TOKEN_LIMITS summarizer))%Z /\
  alwaysFail (JS.lit "hello") 0%nat = (inr (ko (JS.lit "no")), 1%nat, []) /\
  needsChunking (JS.lit "hello") summarizer = false /\
  exists tr,
    processWithChunking (JS.lit "hello") summarizer alwaysFail true 0%nat =
      (inr (mkResult false None (Some (JS.lit "no"))), 1%nat, tr) /\
    invocations tr = [JS.lit "hello"] /\
    hostEvents tr = [].
Proof.
  assert (H1 : (JS.length (JS.lit "hello") <= chunkSize (API_TOKEN_LIMITS summarizer))%Z)
    by (vm_compute; discriminate).
  assert (H2 : alwaysFail (JS.lit "hello") 0%nat = (inr (ko (JS.lit "no")), 1%nat, []))
    by reflexivity.
  split; [exact H1 | split; [exact H2 |]].
  exact (proj2 (@small_input_single_call nat unit alwaysFail true (JS.lit "hello") summarizer
                  0%nat _ 1%nat [] H1 H2)).
Defined.



(** Two chunks, both answered by a success without output. *)
Lemma empty_success_not_collected_witness :
  needsChunking twoWindows summarizer = true /\
  answers emptySuccess (createChunks twoWindows summarizer) 0%nat =
    Some ([ok []; ok []], 2%nat) /\
  exists tr,
    processWithChunking twoWindows summarizer emptySuccess true 0%nat =
      (inr (mkResult false None (Some (JS.lit "All chunks failed to process"))), 2%nat, tr) /\
    length (warnings tr) = length (createChunks twoWindows summarizer).
Proof.
  assert (H1 : needsChunking twoWindows summarizer = true) by (vm_compute; reflexivity).
  assert (H2 : answers emptySuccess (createChunks twoWindows summarizer) 0%nat =
               Some ([ok []; ok []], 2%nat)) by (vm_compute; reflexivity).
  assert (H3 : forall r, In r [ok []; ok []] ->
                         success r = true /\ (data r = None \/ data r = Some [])).
  { intros r [<-|[<-|[]]]; (split; [reflexivity | right; reflexivity]). }
  split; [exact H1 | split; [exact H2 |]].
  exact (proj2 (proj2 (@empty_success_not_collected nat unit emptySuccess true twoWindows
                         summarizer 0%nat _ 2%nat H1 H2)) H3).
Defined.

End EngineRuns.

(* ================================================================== *)
(** * The availability gateway *)
(* ================================================================== *)

Section GatewayFacts.

Import Effect ChunkingService ChromeAIService Observe.
Variable St : Type.
Variable host : Host St.

Lemma eqb_eq (a b : jsstring) : JS.eqb a b = true <-> a = b.
Proof.
  unfold JS.eqb. destruct (list_eq_dec N.eq_dec a b); split; congruence.
Qed.

Lemma eqb_neq (a b : jsstring) : JS.eqb a b = false <-> a <> b.
Proof.
  unfold JS.eqb. destruct (list_eq_dec N.eq_dec a b); split; congruence.
Qed.

(** A host call made by a service method, as it shows in the trace. *)
Lemma direct_availability (apiName : jsstring) (api : ApiObject St) f options st r st1 :
  availability api = Some f -> f options st = (r, st1) ->
  direct (callAvailability apiName api options) st =
    (r, st1, [Inner (Availability apiName options)]).
Proof.
  intros Hf Hr. unfold direct, mapTrace, callAvailability, perform.
  rewrite Hf, Hr. reflexivity.
Qed.

Lemma direct_create (apiName : jsstring) (api : ApiObject St) mk options st r st1 :
  create api = Some mk -> mk options st = (r, st1) ->
  direct (callCreate apiName api options) st =
    (r, st1, [Inner (Create apiName options)]).
Proof.
  intros Hf Hr. unfold direct, mapTrace, callCreate, perform.
  rewrite Hf, Hr. reflexivity.
Qed.

(** ** [checkApiAvailability] *)

(** C9, as the code has it.  [checkApiAvailability] answers
    ['unavailable'], without a host call, when there is no window or the
    capability or its [availability] function is missing.  Otherwise it
    makes one call of [availability] (with the language pair for the
    Translator, without options for the others): when the call returns,
    the result is the string it returned, unchanged, whatever it is; when
    it throws, the result is ['unavailable'].  So the result is one of the
    five status values whenever the host's answer is. *)
Theorem checkApiAvailability_passes_on (apiName : jsstring) (st : St) :
  let options := if JS.eqb apiName (JS.lit "Translator") then enToEs else NoOptions in
  (hasWindow host = false \/ global host apiName = None \/
   (exists api, global host apiName = Some api /\ availability api = None) ->
   checkApiAvailability host apiName st = (inr (JS.lit "unavailable"), st, [])) /\
  (forall api f,
      hasWindow host = true ->
      global host apiName = Some api ->
      availability api = Some f ->
      (forall answer st1,
          f options st = (inr answer, st1) ->
          checkApiAvailability host apiName st =
            (inr answer, st1, [Inner (Availability apiName options)])) /\
      (forall e st1,
          f options st = (inl e, st1) ->
          checkApiAvailability host apiName st =
            (inr (JS.lit "unavailable"), st1, [Inner (Availability apiName options)]))) /\
  (forall status st1 tr,
      checkApiAvailability host apiName st = (inr status, st1, tr) ->
      (forall api f answer st2,
          global host apiName = Some api -> availability api = Some f ->
          f options st = (inr answer, st2) -> In answer availabilityStatuses) ->
      In status availabilityStatuses).
Proof.
  intro options.
  assert (Hu : In (JS.lit "unavailable") availabilityStatuses)
    by (unfold availabilityStatuses; simpl; tauto).
  assert (Hcall : forall api f r st1,
             hasWindow host = true -> global host apiName = Some api ->
             availability api = Some f -> f options st = (r, st1) ->
             checkApiAvailability host apiName st =
               (inr (match r with inr answer => answer | inl _ => JS.lit "unavailable" end),
                st1, [Inner (Availability apiName options)])).
  { intros api f r st1 Hw Hg Hf Hr. unfold checkApiAvailability.
    rewrite Hw, Hg, Hf. cbn [negb]. subst options.
    destruct (JS.eqb apiName (JS.lit "Translator"));
      unfold tryCatch, bind;
      rewrite (direct_availability apiName api _ st Hf Hr);
      destruct r; reflexivity. }
  assert (Hmissing :
            hasWindow host = false \/ global host apiName = None \/
            (exists api, global host apiName = Some api /\ availability api = None) ->
            checkApiAvailability host apiName st = (inr (JS.lit "unavailable"), st, [])).
  { unfold checkApiAvailability. intros [Hw|[Hg|[api [Hg Hf]]]].
    - rewrite Hw. reflexivity.
    - destruct (hasWindow host); [|reflexivity]. rewrite Hg. reflexivity.
    - destruct (hasWindow host); [|reflexivity]. rewrite Hg, Hf. reflexivity. }
  split; [exact Hmissing|]. split.
  - intros api f Hw Hg Hf. split.
    + intros answer st1 Hr. exact (Hcall api f (inr answer) st1 Hw Hg Hf Hr).
    + intros e st1 Hr. exact (Hcall api f (inl e) st1 Hw Hg Hf Hr).
  - intros status st1 tr E Hall.
    destruct (hasWindow host) eqn:Hw.
    2:{ rewrite (Hmissing (or_introl eq_refl)) in E. injection E as <- _ _. exact Hu. }
    destruct (global host apiName) as [api|] eqn:Hg.
    2:{ rewrite (Hmissing (or_intror (or_introl eq_refl))) in E.
        injection E as <- _ _. exact Hu. }
    destruct (availability api) as [f|] eqn:Hf.
    2:{ rewrite (Hmissing (or_intror (or_intror (ex_intro _ api (conj eq_refl Hf))))) in E.
        injection E as <- _ _. exact Hu. }
    destruct (f options st) as [[e|answer] st2] eqn:Hr;
      rewrite (Hcall api f _ st2 eq_refl eq_refl Hf Hr) in E; injection E as <- _ _.
    + exact Hu.
    + exact (Hall api f answer st2 eq_refl Hf Hr).
Qed.

(** ** [downloadSpecificAPI] *)

Lemma statusQuery_direct (apiName : jsstring) (api : ApiObject St) st answer st1 :
  statusQuery apiName api st = (answer, st1) ->
  exists tr,
    (match availability api with
     | Some _ =>
         if JS.eqb apiName (JS.lit "Translator")
         then direct (callAvailability apiName api enToEs)
         else direct (callAvailability apiName api NoOptions)
     | None => ret (JS.lit "unavailable")
     end) st = (answer, st1, tr) /\
    modelCalls tr = [].
Proof.
  unfold statusQuery. intro H.
  destruct (availability api) as [f|] eqn:Hf.
  - destruct (JS.eqb apiName (JS.lit "Translator"));
      rewrite (direct_availability apiName api _ st Hf H);
      eexists; split; reflexivity.
  - injection H as <- <-. eexists. split; reflexivity.
Qed.

Lemma modelCalls_app (tr1 tr2 : list (event hostCall)) :
  modelCalls (tr1 ++ tr2) = modelCalls tr1 ++ modelCalls tr2.
Proof.
  unfold modelCalls.
  assert (H : hostEvents (tr1 ++ tr2) = hostEvents tr1 ++ hostEvents tr2).
  { induction tr1 as [|e tr1 IH]; simpl; [reflexivity|].
    destruct e; simpl; rewrite ?IH; reflexivity. }
  rewrite H. apply filter_app.
Qed.

Lemma code_differs :
  Some (JS.lit "API_UNAVAILABLE") <> Some (JS.lit "USER_ACTIVATION_REQUIRED") /\
  Some (JS.lit "DOWNLOAD_ERROR") <> Some (JS.lit "USER_ACTIVATION_REQUIRED").
Proof. split; vm_compute; discriminate. Qed.

(** C8.  On a page that exposes the capability with its [create]
    function, [downloadSpecificAPI] queries the status and then: on
    ['unavailable'] it fails with [API_UNAVAILABLE], on ['available'] it
    succeeds with the message that the model is already available, in both
    cases without reading the user activation and without calling the
    model; on any other status it fails with [USER_ACTIVATION_REQUIRED]
    when the user activation is absent.  That code is produced in no
    other case. *)
Theorem download_gating (apiName : jsstring) (api : ApiObject St) mk st status st1 :
  hasWindow host = true ->
  global host apiName = Some api ->
  create api = Some mk ->
  statusQuery apiName api st = (inr status, st1) ->
  (status = JS.lit "unavailable" ->
   exists tr,
     downloadSpecificAPI host apiName st =
       (inr (failed (JS.lit "API_UNAVAILABLE")
                    (apiName ++ JS.lit " API is not available on this device") None),
        st1, tr) /\
     modelCalls tr = []) /\
  (status = JS.lit "available" ->
   exists tr,
     downloadSpecificAPI host apiName st =
       (inr (succeeded {| ChromeAIService.status :=
                            apiName ++ JS.lit " model is already available" |}),
        st1, tr) /\
     modelCalls tr = []) /\
  (status <> JS.lit "available" -> status <> JS.lit "unavailable" ->
   userActivationIsActive host st1 = false ->
   exists tr r,
     downloadSpecificAPI host apiName st = (inr r, st1, tr) /\
     ChromeAIService.success r = false /\
     errorCode r = Some (JS.lit "USER_ACTIVATION_REQUIRED") /\
     modelCalls tr = []) /\
  (forall r st2 tr,
     downloadSpecificAPI host apiName st = (inr r, st2, tr) ->
     errorCode r = Some (JS.lit "USER_ACTIVATION_REQUIRED") ->
     status <> JS.lit "available" /\ status <> JS.lit "unavailable" /\
     userActivationIsActive host st1 = false).
Proof.
  intros Hw Hg Hc Hq.
  destruct (statusQuery_direct apiName api st Hq) as [qtr [Eq Mq]].
  unfold downloadSpecificAPI. rewrite Hw, Hg, Hc. cbn [negb].
  unfold tryCatch, bind.
  match goal with
  | |- context [match availability api with Some _ => ?a | None => ?b end st] =>
      replace (match availability api with Some _ => a | None => b end st)
        with (@inr thrown jsstring status, st1, qtr) by (symmetry; exact Eq)
  end.
  destruct (JS.eqb status (JS.lit "available")) eqn:Ea.
  { apply eqb_eq in Ea. simpl.
    split; [intro H; rewrite H in Ea; vm_compute in Ea; discriminate|].
    split; [intros _; eexists; split; [reflexivity | rewrite app_nil_r; exact Mq]|].
    split; [intros H; contradiction|].
    intros r st2 tr H Hcode. injection H as <- _ _. discriminate. }
  apply eqb_neq in Ea.
  destruct (JS.eqb status (JS.lit "unavailable")) eqn:Eu.
  { apply eqb_eq in Eu. simpl.
    split; [intros _; eexists; split; [reflexivity | rewrite app_nil_r; exact Mq]|].
    split; [intro H; contradiction|].
    split; [intros _ H; contradiction|].
    intros r st2 tr H Hcode. injection H as <- _ _.
    destruct (proj1 code_differs Hcode). }
  apply eqb_neq in Eu.
  split; [intro H; contradiction|]. split; [intro H; contradiction|].
  unfold gets.
  destruct (userActivationIsActive host st1) eqn:Hact; cbn [negb].
  - split; [intros _ _ H; discriminate|].
    intros r st2 tr.
    destruct (JS.eqb apiName (JS.lit "Translator"));
      [|destruct (JS.eqb apiName (JS.lit "Writer"))];
      cbv beta iota;
      match goal with
      | |- context [direct (callCreate apiName api ?o) st1] =>
          destruct (mk o st1) as [[e|session] st3] eqn:Hmk;
          rewrite (direct_create apiName api o st1 Hc Hmk)
      end;
      simpl; intros H Hcode; injection H as <- _ _;
      solve [destruct (proj2 code_differs Hcode) | discriminate Hcode].
  - simpl. split.
    + intros _ _ _. do 2 eexists. split; [reflexivity|].
      split; [reflexivity|]. split; [reflexivity|].
      rewrite app_nil_r. exact Mq.
    + intros r st2 tr H Hcode. auto.
Qed.

End GatewayFacts.

(* ================================================================== *)
(** * The capability adapters *)
(* ================================================================== *)

Section TraceFacts.

Import Effect.
Variables St Ev : Type.

(** What a computation did stays in the trace of what follows it. *)
Lemma bind_trace_first (A B : Type) (m : M St Ev A) (k : A -> M St Ev B) (st : St) (e : Ev) :
  In e (trace (m st)) -> In e (trace (bind m k st)).
Proof.
  unfold bind. destruct (m st) as [[[x|a] st1] tr1]; simpl; [tauto|].
  destruct (k a st1) as [[r st2] tr2]. simpl. intro H. apply in_or_app. tauto.
Qed.

Lemma bind_trace_then (A B : Type) (m : M St Ev A) (k : A -> M St Ev B) (st : St)
      (a : A) (st1 : St) (tr1 : list Ev) (e : Ev) :
  m st = (inr a, st1, tr1) -> In e (trace (k a st1)) -> In e (trace (bind m k st)).
Proof.
  unfold bind. intros ->. destruct (k a st1) as [[r st2] tr2]. simpl.
  intro H. apply in_or_app. tauto.
Qed.

Lemma tryCatch_trace_body (A : Type) (body : M St Ev A) (handler : thrown -> M St Ev A)
      (st : St) (e : Ev) :
  In e (trace (body st)) -> In e (trace (tryCatch body handler st)).
Proof.
  unfold tryCatch. destruct (body st) as [[[x|a] st1] tr1]; simpl; [|tauto].
  destruct (handler x st1) as [[r st2] tr2]. simpl. intro H. apply in_or_app. tauto.
Qed.

End TraceFacts.

Section AdapterFacts.

Import Effect ChunkingService ChromeAIService Observe.
Variable St : Type.
Variable host : Host St.

(** The engine never throws. *)
Lemma processWithChunking_returns (content : jsstring) (apiKey : APIKey)
      (apiFunction : Worker St hostCall) (onProgress : bool) (st : St) :
  exists result st1 tr,
    processWithChunking content apiKey apiFunction onProgress st = (inr result, st1, tr).
Proof.
  unfold processWithChunking, tryCatch.
  match goal with
  | |- context [match ?body st with _ => _ end] =>
      destruct (body st) as [[[e|r] st1] tr1]
  end; simpl; do 3 eexists; reflexivity.
Qed.

(** Whatever the worker does on its first call shows in the trace of
    the engine: the call is made as long as there is a chunk to process. *)
Lemma processWithChunking_first_call (content : jsstring) (apiKey : APIKey)
      (apiFunction : Worker St hostCall) (onProgress : bool) (st : St)
      (first : jsstring) (e : hostCall) :
  (needsChunking content apiKey = false /\ first = content) \/
  (needsChunking content apiKey = true /\
   exists rest, createChunks content apiKey = first :: rest) ->
  In e (trace (apiFunction first st)) ->
  In (Inner e) (trace (processWithChunking content apiKey apiFunction onProgress st)).
Proof.
  intros Hcase He.
  assert (Hinv : In (Inner e) (trace (invoke apiFunction first st))).
  { destruct (apiFunction first st) as [[r st1] htr] eqn:Hw.
    rewrite (invoke_run _ _ _ Hw). simpl. right. apply in_map. exact He. }
  unfold processWithChunking. apply tryCatch_trace_body.
  destruct Hcase as [[Hn ->]|[Hn [rest Hc]]]; rewrite Hn; cbn [negb].
  - destruct (@progress_run St hostCall onProgress (JS.lit "Processing document...") st)
      as [ptr [Ep _]].
    eapply bind_trace_then; [exact Ep|]. apply bind_trace_first. exact Hinv.
  - cbv zeta. rewrite Hc.
    match goal with
    | |- context [@progress _ _ ?p ?m] =>
        destruct (@progress_run St hostCall p m st) as [ptr [Ep _]]
    end.
    eapply bind_trace_then; [exact Ep|]. apply bind_trace_first.
    cbn [processChunks_loop].
    match goal with
    | |- context [@progress _ _ ?p ?m] =>
        destruct (@progress_run St hostCall p m st) as [ptr' [Ep' _]]
    end.
    eapply bind_trace_then; [exact Ep'|]. apply bind_trace_first. exact Hinv.
Qed.

Lemma firstCall_cases (content : jsstring) (apiKey : APIKey) (first : jsstring) :
  firstCall content apiKey = Some first ->
  (needsChunking content apiKey = false /\ first = content) \/
  (needsChunking content apiKey = true /\
   exists rest, createChunks content apiKey = first :: rest).
Proof.
  unfold firstCall. destruct (needsChunking content apiKey).
  - destruct (createChunks content apiKey) as [|c rest]; simpl; [discriminate|].
    intro H. injection H as ->. right. split; [reflexivity|]. exists rest. reflexivity.
  - intro H. injection H as ->. left. split; reflexivity.
Qed.

(** A worker that asks for a session leaves the request in its trace,
    whether it is granted or not. *)
Lemma callCreate_traced (A : Type) (apiName : jsstring) (api : ApiObject St) mk
      (options : hostOptions) (k : Session St -> H St A) (st : St) :
  create api = Some mk ->
  In (Create apiName options) (trace (bind (callCreate apiName api options) k st)).
Proof.
  intro Hc. apply bind_trace_first. unfold callCreate, perform. rewrite Hc.
  destruct (mk options st) as [r st1]. simpl. left. reflexivity.
Qed.

(** The engine, called with a worker that asks for a session of [name]
    with [options] on every chunk, makes that request if it has a first
    call to make. *)
Lemma engine_attempts (content : jsstring) (apiKey : APIKey)
      (worker : Worker St hostCall) (onProgress : bool) (st : St)
      (name : jsstring) (options : hostOptions) (first : jsstring) :
  firstCall content apiKey = Some first ->
  (forall chunk s, In (Create name options) (trace (worker chunk s))) ->
  In (Inner (Create name options))
     (trace (processWithChunking content apiKey worker onProgress st)).
Proof.
  intros Hfirst Hworker.
  apply processWithChunking_first_call with (first := first);
    [apply firstCall_cases; exact Hfirst | apply Hworker].
Qed.

(** There is a first call unless the text is over the budget and has no
    chunk. *)
Lemma something_to_send (content : jsstring) (apiKey : APIKey) :
  needsChunking content apiKey = false \/ createChunks content apiKey <> [] ->
  exists first, firstCall content apiKey = Some first.
Proof.
  unfold firstCall. intros [Hn|Hc].
  - rewrite Hn. exists content. reflexivity.
  - destruct (needsChunking content apiKey); [|exists content; reflexivity].
    destruct (createChunks content apiKey) as [|c rest]; [congruence|].
    exists c. reflexivity.
Qed.

(** A text over the budget without any chunk: the engine reports a total
    failure, and neither its worker nor the host is called. *)
Lemma nothing_to_send (content : jsstring) (apiKey : APIKey)
      (worker : Worker St hostCall) (onProgress : bool) (st : St) :
  needsChunking content apiKey = true ->
  createChunks content apiKey = [] ->
  exists tr,
    processWithChunking content apiKey worker onProgress st =
      (inr (mkResult false None (Some (JS.lit "All chunks failed to process"))), st, tr) /\
    hostEvents tr = [].
Proof.
  intros Hn Hc. unfold processWithChunking. rewrite Hn. cbn [negb]. cbv zeta.
  rewrite Hc. destruct onProgress; eexists; split; reflexivity.
Qed.

Ltac after_status Hf Hr :=
  apply tryCatch_trace_body;
  eapply bind_trace_then; [exact (direct_availability _ _ _ _ Hf Hr)|].

Ltac refuse Hw Hg Hf Hr Hne :=
  rewrite Hw, Hg; cbn [negb]; unfold tryCatch, bind;
  rewrite (direct_availability _ _ _ _ Hf Hr);
  apply eqb_neq in Hne; rewrite Hne; reflexivity.

Ltac proceed Hw Hg Hf Hr Ha Hfirst Hmk :=
  rewrite Hw, Hg; cbn [negb]; after_status Hf Hr;
  apply (proj2 (eqb_eq _ _)) in Ha; rewrite Ha; cbn [negb];
  apply bind_trace_first;
  apply engine_attempts with (first := _) (1 := Hfirst);
  intros chunk s; rewrite ?Hg; cbv beta iota;
  apply callCreate_traced with (mk := _) (1 := Hmk).

Ltac blank Hw Hg Hf Hr sent :=
  rewrite Hw, Hg; cbn [negb]; unfold tryCatch, bind;
  rewrite (direct_availability _ _ _ _ Hf Hr);
  change (negb (JS.eqb (JS.lit "available") (JS.lit "available"))) with false;
  cbv iota;
  let tr := fresh "tr" in
  let E := fresh "E" in
  let Hh := fresh "Hh" in
  destruct sent as [tr [E Hh]];
  rewrite E; split; [reflexivity|];
  cbn [trace snd ret ChunkingService.success ChunkingService.data
       ChunkingService.truthyData andb];
  rewrite !modelCalls_app; unfold modelCalls; rewrite Hh; reflexivity.

(** C7, as the code has it.  Once the status query has answered,
    [generateText] asks for a session whatever the status is, and
    [summarizeText] hands the text to the engine whatever the status is:
    it asks for a session whenever there is something to send (the text
    is within the budget or has a chunk), and for a text over the budget
    without any chunk it returns [SUMMARIZE_ERROR] without calling the
    model.  [proofreadText], [translateText] and [rewriteText] return the
    [API_NOT_READY] failure, without calling the model, unless the status
    is ['available']; when it is, they behave as [summarizeText] does. *)
Theorem adapters_and_reported_status (text : jsstring) (onProgress : bool)
        (api : ApiObject St) f mk (st st1 : St) (status : jsstring) :
  hasWindow host = true ->
  availability api = Some f ->
  create api = Some mk ->
  f NoOptions st = (inr status, st1) ->
  (forall language,
      global host (JS.lit "Summarizer") = Some api ->
      (needsChunking text summarizer = false \/ createChunks text summarizer <> [] ->
       attemptsModel (JS.lit "Summarizer")
         (trace (summarizeText host text language onProgress st))) /\
      (needsChunking text summarizer = true -> createChunks text summarizer = [] ->
       outcome (summarizeText host text language onProgress st) =
         inr (failed (JS.lit "SUMMARIZE_ERROR") (JS.lit "All chunks failed to process")
                None) /\
       modelCalls (trace (summarizeText host text language onProgress st)) = [])) /\
  (forall tone format length,
      global host (JS.lit "Writer") = Some api ->
      attemptsModel (JS.lit "Writer")
        (trace (generateText host text tone format length onProgress st))) /\
  (forall language,
      global host (JS.lit "Proofreader") = Some api ->
      (status <> JS.lit "available" ->
       proofreadText host text language onProgress st =
         (inr (failed (JS.lit "API_NOT_READY")
                 (JS.lit "Proofreader is " ++ status ++
                  JS.lit ". Please wait for model to be ready.") None),
          st1, [Inner (Availability (JS.lit "Proofreader") NoOptions)])) /\
      (status = JS.lit "available" ->
       (needsChunking text proofreader = false \/ createChunks text proofreader <> [] ->
        attemptsModel (JS.lit "Proofreader")
          (trace (proofreadText host text language onProgress st))) /\
       (needsChunking text proofreader = true -> createChunks text proofreader = [] ->
        outcome (proofreadText host text language onProgress st) =
          inr (failed (JS.lit "PROOFREAD_ERROR") (JS.lit "All chunks failed to process")
                 None) /\
        modelCalls (trace (proofreadText host text language onProgress st)) = []))) /\
  (forall targetLanguage sourceLanguage,
      global host (JS.lit "Translator") = Some api ->
      (status <> JS.lit "available" ->
       translateText host text targetLanguage sourceLanguage onProgress st =
         (inr (failed (JS.lit "API_NOT_READY")
                 (JS.lit "Translator is " ++ status ++
                  JS.lit ". Please wait for model to be ready.") None),
          st1, [Inner (Availability (JS.lit "Translator") NoOptions)])) /\
      (status = JS.lit "available" ->
       (needsChunking text translator = false \/ createChunks text translator <> [] ->
        attemptsModel (JS.lit "Translator")
          (trace (translateText host text targetLanguage sourceLanguage onProgress st))) /\
       (needsChunking text translator = true -> createChunks text translator = [] ->
        outcome (translateText host text targetLanguage sourceLanguage onProgress st) =
          inr (failed (JS.lit "TRANSLATE_ERROR") (JS.lit "All chunks failed to process")
                 None) /\
        modelCalls
          (trace (translateText host text targetLanguage sourceLanguage onProgress st)) =
          []))) /\
  (forall tone format length,
      global host (JS.lit "Rewriter") = Some api ->
      (status <> JS.lit "available" ->
       rewriteText host text tone format length onProgress st =
         (inr (failed (JS.lit "API_NOT_READY")
                 (JS.lit "Rewriter is " ++ status ++
                  JS.lit ". Please wait for model to be ready.") None),
          st1, [Inner (Availability (JS.lit "Rewriter") NoOptions)])) /\
      (status = JS.lit "available" ->
       (needsChunking text rewriter = false \/ createChunks text rewriter <> [] ->
        attemptsModel (JS.lit "Rewriter")
          (trace (rewriteText host text tone format length onProgress st))) /\
       (needsChunking text rewriter = true -> createChunks text rewriter = [] ->
        outcome (rewriteText host text tone format length onProgress st) =
          inr (failed (JS.lit "REWRITE_ERROR") (JS.lit "All chunks failed to process")
                 None) /\
        modelCalls (trace (rewriteText host text tone format length onProgress st)) =
          []))).
Proof.
  intros Hw Hf Hmk Hr.
  split; [|split; [|split; [|split]]].
  - intros language Hg. split.
    + intro Hsend. destruct (something_to_send text summarizer Hsend) as [first Hfirst].
      eexists. unfold summarizeText.
      rewrite Hw, Hg; cbn [negb]. after_status Hf Hr.
      apply bind_trace_first.
      apply engine_attempts with (first := first) (1 := Hfirst).
      intros chunk s. unfold summarizeWorker. rewrite Hg.
      apply callCreate_traced with (mk := mk) (1 := Hmk).
    + intros Hn Hc. unfold summarizeText.
      blank Hw Hg Hf Hr
            (nothing_to_send text summarizer (summarizeWorker host language)
               onProgress st1 Hn Hc).
  - intros tone format length Hg. eexists. unfold generateText.
    rewrite Hw, Hg; cbn [negb]. after_status Hf Hr.
    apply bind_trace_first. unfold direct, mapTrace, callCreate, perform.
    rewrite Hmk.
    match goal with |- context [mk ?o st1] => destruct (mk o st1) as [r st2] end.
    simpl. left. reflexivity.
  - intros language Hg. split.
    + intro Hne. unfold proofreadText. refuse Hw Hg Hf Hr Hne.
    + intros Ha. split.
      * intro Hsend. destruct (something_to_send text proofreader Hsend) as [first Hfirst].
        eexists. unfold proofreadText, proofreadWorker.
        proceed Hw Hg Hf Hr Ha Hfirst Hmk.
      * intros Hn Hc. subst status. unfold proofreadText.
        blank Hw Hg Hf Hr
              (nothing_to_send text proofreader (proofreadWorker host language)
                 onProgress st1 Hn Hc).
  - intros targetLanguage sourceLanguage Hg. split.
    + intro Hne. unfold translateText. refuse Hw Hg Hf Hr Hne.
    + intros Ha. split.
      * intro Hsend. destruct (something_to_send text translator Hsend) as [first Hfirst].
        eexists. unfold translateText, translateWorker.
        proceed Hw Hg Hf Hr Ha Hfirst Hmk.
      * intros Hn Hc. subst status. unfold translateText.
        blank Hw Hg Hf Hr
              (nothing_to_send text translator
                 (translateWorker host targetLanguage sourceLanguage) onProgress st1 Hn Hc).
  - intros tone format length Hg. split.
    + intro Hne. unfold rewriteText. refuse Hw Hg Hf Hr Hne.
    + intros Ha. split.
      * intro Hsend. destruct (something_to_send text rewriter Hsend) as [first Hfirst].
        eexists. unfold rewriteText, rewriteWorker.
        proceed Hw Hg Hf Hr Ha Hfirst Hmk.
      * intros Hn Hc. subst status. unfold rewriteText.
        blank Hw Hg Hf Hr
              (nothing_to_send text rewriter (rewriteWorker host tone format length)
                 onProgress st1 Hn Hc).
Qed.

End AdapterFacts.

(** ** The gateway on concrete pages *)

Section GatewayRuns.

Import Effect ChunkingService ChromeAIService Observe.

(** A page whose Translator reports ['unavailable'], with the user
    activation present. *)
Lemma download_gating_witness :
  let api := Scenarios.reporting (JS.lit "unavailable") in
  let page := Scenarios.pageWith (JS.lit "Translator") api true in
  hasWindow page = true /\
  global page (JS.lit "Translator") = Some api /\
  statusQuery (JS.lit "Translator") api tt = (inr (JS.lit "unavailable"), tt) /\
  exists tr,
    downloadSpecificAPI page (JS.lit "Translator") tt =
      (inr (failed (JS.lit "API_UNAVAILABLE")
                   (JS.lit "Translator" ++ JS.lit " API is not available on this device")
                   None), tt, tr) /\
    modelCalls tr = [].
Proof.
  intros api page.
  assert (H1 : hasWindow page = true) by reflexivity.
  assert (H2 : global page (JS.lit "Translator") = Some api) by reflexivity.
  assert (H3 : create api = Some (fun _ st => (inr Scenarios.echoSession, st)))
    by reflexivity.
  assert (H4 : statusQuery (JS.lit "Translator") api tt = (inr (JS.lit "unavailable"), tt))
    by reflexivity.
  split; [exact H1 | split; [exact H2 | split; [exact H4 |]]].
  exact (proj1 (@download_gating unit page (JS.lit "Translator") api _ tt _ tt
                  H1 H2 H3 H4) eq_refl).
Defined.

(** C9 as stated fails: a status string outside the five values, such as
    the ['readily'] of earlier releases of the host, is handed back as it
    came. *)
Lemma checkApiAvailability_unlisted_status :
  let page := Scenarios.pageWith (JS.lit "Summarizer")
                                 (Scenarios.reporting (JS.lit "readily")) false in
  outcome (checkApiAvailability page (JS.lit "Summarizer") tt) = inr (JS.lit "readily") /\
  ~ In (JS.lit "readily") availabilityStatuses.
Proof.
  split; [vm_compute; reflexivity|].
  unfold availabilityStatuses. simpl.
  intros [H|[H|[H|[H|[H|[]]]]]]; vm_compute in H; discriminate.
Qed.

(** A page whose Proofreader reports ['downloadable']. *)
Lemma adapters_and_reported_status_witness :
  let api := Scenarios.reporting (JS.lit "downloadable") in
  let page := Scenarios.pageWith (JS.lit "Proofreader") api true in
  hasWindow page = true /\
  availability api = Some (fun _ st => (inr (JS.lit "downloadable"), st)) /\
  create api = Some (fun _ st => (inr Scenarios.echoSession, st)) /\
  global page (JS.lit "Proofreader") = Some api /\
  proofreadText page (JS.lit "teh text") None false tt =
    (inr (failed (JS.lit "API_NOT_READY")
            (JS.lit "Proofreader is downloadable. Please wait for model to be ready.")
            None),
     tt, [Inner (Availability (JS.lit "Proofreader") NoOptions)]).
Proof.
  intros api page.
  assert (H1 : hasWindow page = true) by reflexivity.
  assert (H2 : availability api = Some (fun _ st => (inr (JS.lit "downloadable"), st)))
    by reflexivity.
  assert (H3 : create api = Some (fun _ st => (inr Scenarios.echoSession, st)))
    by reflexivity.
  assert (H4 : (fun (_ : hostOptions) (st : unit) =>
                  (@inr thrown jsstring (JS.lit "downloadable"), st)) NoOptions tt =
               (inr (JS.lit "downloadable"), tt)) by reflexivity.
  assert (H5 : global page (JS.lit "Proofreader") = Some api) by reflexivity.
  split; [exact H1 | split; [exact H2 | split; [exact H3 | split; [exact H5 |]]]].
  destruct (@adapters_and_reported_status unit page (JS.lit "teh text") false api _ _
              tt tt (JS.lit "downloadable") H1 H2 H3 H4) as [_ [_ [Hp _]]].
  refine (proj1 (Hp None H5) _).
  vm_compute. discriminate.
Defined.

(** C7 as stated fails for the adapters that wait for their model: with
    a status of ['downloadable'], [proofreadText] returns [API_NOT_READY]
    and the only call that reached the host is the status query. *)
Lemma proofreadText_refuses_unready :
  let page := Scenarios.pageWith (JS.lit "Proofreader")
                                 (Scenarios.reporting (JS.lit "downloadable")) true in
  let run := proofreadText page (JS.lit "teh text") None false tt in
  outcome run =
    inr (failed (JS.lit "API_NOT_READY")
                (JS.lit "Proofreader is downloadable. Please wait for model to be ready.")
                None) /\
  trace run = [Inner (Availability (JS.lit "Proofreader") NoOptions)] /\
  ~ attemptsModel (JS.lit "Proofreader") (trace run).
Proof.
  assert (E : trace (proofreadText
                       (Scenarios.pageWith (JS.lit "Proofreader")
                          (Scenarios.reporting (JS.lit "downloadable")) true)
                       (JS.lit "teh text") None false tt) =
              [Inner (Availability (JS.lit "Proofreader") NoOptions)])
    by (vm_compute; reflexivity).
  split; [vm_compute; reflexivity|]. split; [exact E|].
  cbv zeta. rewrite E. intros [options [H|[]]]. discriminate.
Qed.

End GatewayRuns.

(* ================================================================== *)
(** * More on the splitter *)
(* ================================================================== *)

Section SplitterMore.

Import ChunkingService Plan.
Local Open Scope Z_scope.

Lemma forallb_firstn_skipn (A : Type) (p : A -> bool) (n : nat) (l : list A) :
  forallb p l = true ->
  forallb p (firstn n l) = true /\ forallb p (skipn n l) = true.
Proof.
  intro H. rewrite <- (firstn_skipn n l), forallb_app in H.
  apply andb_true_iff in H. exact H.
Qed.

Lemma in_windows (options : ChunkingOptions) (content w : jsstring) :
  In w (windows options content) ->
  exists k, (k < windowCount options content)%nat /\ w = windowAt options content k.
Proof.
  unfold windows. intro H. apply in_map_iff in H. destruct H as [k [E Hk]].
  apply in_seq in Hk. exists k. split; [lia | congruence].
Qed.

(** X1.  Every chunk that [createChunks] returns is one of the visited
    windows: a substring of the text at a multiple of the step, not empty,
    not blank and at most [chunkSize] long; when the text needs chunking,
    each chunk is strictly shorter than the text. *)
Theorem createChunks_chunk_shape (content : jsstring) (apiKey : APIKey) (chunk : jsstring) :
  In chunk (createChunks content apiKey) ->
  let options := API_TOKEN_LIMITS apiKey in
  exists k : nat,
    (k < windowCount options content)%nat /\
    chunk = firstn (length chunk) (skipn (k * Z.to_nat (increment options)) content) /\
    0 < JS.length chunk <= chunkSize options /\
    blank chunk = false /\
    (needsChunking content apiKey = true -> JS.length chunk < JS.length content).
Proof.
  intros Hin options.
  destruct (registry_increment apiKey) as [Hv [Hs _]]. fold options in Hv, Hs.
  assert (Hc : 0 <= chunkSize options) by lia.
  rewrite createChunks_windows in Hin. fold options in Hin.
  apply filter_In in Hin. destruct Hin as [Hw Hnb].
  destruct (in_windows _ _ _ Hw) as [k [Hk ->]].
  exists k. split; [exact Hk|].
  assert (Hb : blank (windowAt options content k) = false)
    by (destruct (blank (windowAt options content k)); [discriminate | reflexivity]).
  pose proof (windowAt_length options content k Hs Hc) as Hlen.
  assert (Hne : 0 < JS.length (windowAt options content k)).
  { unfold JS.length. destruct (windowAt options content k); [discriminate Hb | simpl; lia]. }
  split.
  - rewrite windowAt_substring by assumption.
    rewrite length_firstn.
    set (C := Z.to_nat (chunkSize options)).
    set (l := skipn (k * Z.to_nat (increment options)) content).
    destruct (Nat.le_gt_cases C (length l)) as [L|L].
    + f_equal. lia.
    + rewrite !firstn_all2 by lia. reflexivity.
  - split; [unfold JS.length in *; lia|]. split; [exact Hb|].
    intro Hn. unfold needsChunking, needsChunkingWith in Hn. fold options in Hn.
    apply Z.ltb_lt in Hn. unfold JS.length in *. lia.
Qed.

(** A text of eleven characters under the summarizer's profile. *)
Lemma createChunks_chunk_shape_witness :
  In (JS.lit "hello world") (createChunks (JS.lit "hello world") summarizer) /\
  exists k : nat,
    (k < windowCount (API_TOKEN_LIMITS summarizer) (JS.lit "hello world"))%nat /\
    0 < JS.length (JS.lit "hello world") <= chunkSize (API_TOKEN_LIMITS summarizer).
Proof.
  assert (H : In (JS.lit "hello world") (createChunks (JS.lit "hello world") summarizer))
    by (vm_compute; left; reflexivity).
  split; [exact H|].
  destruct (createChunks_chunk_shape _ _ _ H) as [k [Hk [_ [Hl _]]]].
  exists k. split; assumption.
Defined.

(** X2.  [createChunks] returns at most one chunk per cursor position,
    [ceil (len / step)] of them, exactly that many when no window is blank;
    a text that needs chunking has at least two windows. *)
Theorem createChunks_count (content : jsstring) (apiKey : APIKey) :
  let options := API_TOKEN_LIMITS apiKey in
  (length (createChunks content apiKey) <= windowCount options content)%nat /\
  (windowCount options content <= length content)%nat /\
  ((forall w, In w (windows options content) -> blank w = false) ->
   length (createChunks content apiKey) = windowCount options content) /\
  (needsChunking content apiKey = true -> (2 <= windowCount options content)%nat).
Proof.
  intro options.
  destruct (registry_increment apiKey) as [Hv [Hs _]]. fold options in Hv, Hs.
  rewrite createChunks_windows. fold options.
  split; [rewrite <- (windows_length options content); apply filter_length_le|].
  split; [apply windowCount_le; exact Hs|]. split.
  - intro Hnb. rewrite (filter_nothing_blank _ Hnb). apply windows_length.
  - intro Hn. unfold needsChunking, needsChunkingWith in Hn. fold options in Hn.
    apply Z.ltb_lt in Hn.
    apply (windowCount_spec options content 1 Hs).
    unfold increment in *. change (Z.of_nat 1) with 1. lia.
Qed.

Lemma strip_overlap (step : nat) :
  (0 < step)%nat ->
  forall (n : nat) (s : jsstring),
    (length s <= n * step)%nat ->
    concat (map (fun k => firstn step (skipn (k * step) s)) (seq 0 n)) = s.
Proof.
  intros Hs n. induction n as [|n IH]; intros s Hlen.
  - simpl in *. destruct s; [reflexivity | simpl in Hlen; lia].
  - simpl seq. rewrite <- seq_shift. cbn [map concat]. rewrite map_map.
    change (skipn (0 * step) s) with s.
    transitivity (firstn step s ++ skipn step s); [|apply firstn_skipn].
    f_equal.
    transitivity (concat (map (fun k => firstn step (skipn (k * step) (skipn step s)))
                              (seq 0 n)));
      [|apply IH; rewrite length_skipn; lia].
    f_equal. apply map_ext. intro k. rewrite skipn_skipn. f_equal. f_equal. lia.
Qed.

(** X3.  Splitting loses nothing that is not dropped: for a profile with
    [0 <= overlapSize < chunkSize], the first [step] characters of each
    window, put end to end, are the text; so they are for the chunks of
    [createChunks] when no window is blank. *)
Theorem windows_reconstruct (options : ChunkingOptions) (content : jsstring) :
  0 <= overlapOrZero options < chunkSize options ->
  let step := Z.to_nat (increment options) in
  concat (map (firstn step) (windows options content)) = content /\
  (forall apiKey, options = API_TOKEN_LIMITS apiKey ->
     (forall w, In w (windows options content) -> blank w = false) ->
     concat (map (firstn step) (createChunks content apiKey)) = content).
Proof.
  intros Hv step.
  assert (Hs : 0 < increment options) by (unfold increment; lia).
  assert (Hc : 0 <= chunkSize options) by lia.
  assert (E : concat (map (firstn step) (windows options content)) = content).
  { unfold windows. rewrite map_map.
    rewrite (map_ext _ (fun k => firstn step (skipn (k * step) content))).
    - apply strip_overlap; [subst step; lia|].
      assert (H : JS.length content <= Z.of_nat (windowCount options content) *
                                      increment options).
      { unfold windowCount.
        set (len := JS.length content). set (st := increment options) in *.
        assert (0 <= len) by (subst len; unfold JS.length; lia).
        rewrite Z2Nat.id by (apply Z.div_pos; lia).
        pose proof (Z.mul_succ_div_gt (len + st - 1) st Hs) as G.
        rewrite Z.mul_comm. lia. }
      unfold JS.length in H. subst step. nia.
    - intro k. rewrite windowAt_substring by assumption.
      rewrite firstn_firstn. f_equal. subst step. unfold increment. lia. }
  split; [exact E|].
  intros apiKey -> Hnb. rewrite createChunks_windows.
  rewrite (filter_nothing_blank _ Hnb). exact E.
Qed.

Lemma windows_reconstruct_witness :
  0 <= overlapOrZero Scenarios.smallOptions < chunkSize Scenarios.smallOptions /\
  concat (map (firstn (Z.to_nat (increment Scenarios.smallOptions)))
              (windows Scenarios.smallOptions (JS.lit "hello world"))) =
  JS.lit "hello world".
Proof.
  assert (H : 0 <= overlapOrZero Scenarios.smallOptions < chunkSize Scenarios.smallOptions)
    by (vm_compute; intuition discriminate).
  split; [exact H|].
  exact (proj1 (windows_reconstruct Scenarios.smallOptions (JS.lit "hello world") H)).
Defined.

(** A blank text has no chunks. *)
Lemma createChunks_blank (content : jsstring) (apiKey : APIKey) :
  blank content = true -> createChunks content apiKey = [].
Proof.
  intro Hb. rewrite createChunks_windows.
  destruct (registry_increment apiKey) as [Hv [Hs _]].
  assert (Hc : 0 <= chunkSize (API_TOKEN_LIMITS apiKey)) by lia.
  unfold windows. induction (seq 0 (windowCount (API_TOKEN_LIMITS apiKey) content))
    as [|k ks IH]; simpl; [reflexivity|].
  assert (Hk : blank (windowAt (API_TOKEN_LIMITS apiKey) content k) = true).
  { rewrite windowAt_substring by assumption. unfold blank in *.
    apply forallb_firstn_skipn, forallb_firstn_skipn. exact Hb. }
  rewrite Hk. simpl. exact IH.
Qed.

End SplitterMore.

(* ================================================================== *)
(** * More on the execution engine *)
(* ================================================================== *)

Section EngineMore.

Import Effect ChunkingService Observe Protocol.
Variables St HEv : Type.
Implicit Types (apiFunction : Worker St HEv) (st : St) (tr : list (event HEv)).

Lemma hostEvents_app tr1 tr2 :
  hostEvents (tr1 ++ tr2) = hostEvents tr1 ++ hostEvents tr2.
Proof.
  induction tr1 as [|e tr1 IH]; simpl; [reflexivity|].
  destruct e; simpl; rewrite IH; reflexivity.
Qed.

Lemma hostEvents_inner (htr : list HEv) : hostEvents (map (@Inner HEv) htr) = htr.
Proof. induction htr; simpl; congruence. Qed.

Lemma progressMessages_app tr1 tr2 :
  progressMessages (tr1 ++ tr2) = progressMessages tr1 ++ progressMessages tr2.
Proof.
  induction tr1 as [|e tr1 IH]; simpl; [reflexivity|].
  destruct e; simpl; rewrite IH; reflexivity.
Qed.

Lemma progressMessages_inner (htr : list HEv) :
  progressMessages (map (@Inner HEv) htr) = [].
Proof. induction htr; simpl; auto. Qed.

Lemma delays_app tr1 tr2 : delays (tr1 ++ tr2) = delays tr1 ++ delays tr2.
Proof.
  induction tr1 as [|e tr1 IH]; simpl; [reflexivity|].
  destruct e; simpl; rewrite IH; reflexivity.
Qed.

Lemma delays_inner (htr : list HEv) : delays (map (@Inner HEv) htr) = [].
Proof. induction htr; simpl; auto. Qed.

Lemma progress_shape (onProgress : bool) (message : jsstring) st :
  @progress St HEv onProgress message st = (inr tt, st, reported HEv onProgress message).
Proof. destruct onProgress; reflexivity. Qed.

Lemma reported_quiet (onProgress : bool) (message : jsstring) :
  invocations (reported HEv onProgress message) = [] /\
  hostEvents (reported HEv onProgress message) = [] /\
  delays (reported HEv onProgress message) = [] /\
  warnings (reported HEv onProgress message) = [].
Proof. destruct onProgress; simpl; auto. Qed.

Ltac quiet :=
  repeat (rewrite ?invocations_app, ?hostEvents_app, ?warnings_app, ?delays_app,
            ?progressMessages_app,
            ?invocations_host, ?hostEvents_inner, ?warnings_host, ?delays_inner,
            ?progressMessages_inner,
            ?(proj1 (reported_quiet _ _)),
            ?(proj1 (proj2 (reported_quiet _ _))),
            ?(proj1 (proj2 (proj2 (reported_quiet _ _)))),
            ?(proj2 (proj2 (proj2 (reported_quiet _ _))));
          cbn [invocations hostEvents warnings delays progressMessages app]);
  rewrite ?app_nil_r.

(** X4.  [processWithChunking] never throws: whatever the worker does,
    in whatever state, the run ends with a result; a success carries no
    error, a failure carries no data and an error message. *)
Theorem processWithChunking_never_throws (content : jsstring) (apiKey : APIKey)
        apiFunction (onProgress : bool) st :
  exists result st1 tr,
    processWithChunking content apiKey apiFunction onProgress st = (inr result, st1, tr) /\
    (success result = true -> error result = None) /\
    (success result = false -> data result = None /\ error result <> None).
Proof.
  unfold processWithChunking, tryCatch, bind.
  destruct (needsChunking content apiKey); cbn [negb]; rewrite progress_shape.
  - destruct (processChunks_loop apiFunction onProgress
                (length (createChunks content apiKey)) (createChunks content apiKey)
                0 [] st) as [[[e|results] st1] tr1].
    + simpl. do 3 eexists. split; [reflexivity|]. simpl.
      split; [discriminate | intros _; split; [reflexivity | discriminate]].
    + destruct (length results =? 0)%nat.
      * simpl. do 3 eexists. split; [reflexivity|]. simpl.
        split; [discriminate | intros _; split; [reflexivity | discriminate]].
      * rewrite progress_shape.
        destruct (needsChunking (JS.join separator results) apiKey).
        -- rewrite progress_shape.
           destruct (apiFunction (JS.join separator results) st1) as [[a st2] htr] eqn:Hw.
           rewrite (invoke_run _ _ _ Hw).
           destruct a as [e|r]; [|destruct (success r)]; simpl;
             do 3 eexists; (split; [reflexivity|]); simpl;
             solve [ split; [discriminate | intros _; split; [reflexivity | discriminate]]
                   | split; [reflexivity | discriminate] ].
        -- simpl. do 3 eexists. split; [reflexivity|]. simpl.
           split; [reflexivity | discriminate].
  - destruct (apiFunction content st) as [[a st1] htr] eqn:Hw.
    rewrite (invoke_run _ _ _ Hw).
    destruct a as [e|r]; [|destruct (success r)]; simpl;
      do 3 eexists; (split; [reflexivity|]); simpl;
      solve [ split; [discriminate | intros _; split; [reflexivity | discriminate]]
            | split; [reflexivity | discriminate] ].
Qed.

Lemma replay_cons apiFunction (chunk : jsstring) st (calls : list (jsstring * St)) :
  replay apiFunction ((chunk, st) :: calls) =
  trace (apiFunction chunk st) ++ replay apiFunction calls.
Proof. reflexivity. Qed.

(** The chunk loop in general, throwing calls included: the worker
    calls it makes, what reaches the host through them, and where its
    results come from. *)
Lemma processChunks_loop_calls apiFunction (onProgress : bool) (total : nat) :
  forall (rest : list jsstring) (i : nat) (results : list jsstring) st,
  exists calls : list (jsstring * St),
    invocations (trace (processChunks_loop apiFunction onProgress total rest i results st)) =
      map fst calls /\
    hostEvents (trace (processChunks_loop apiFunction onProgress total rest i results st)) =
      replay apiFunction calls /\
    forall results',
      outcome (processChunks_loop apiFunction onProgress total rest i results st) =
        inr results' ->
      exists new,
        results' = results ++ new /\
        (new <> [] ->
         exists call r,
           In call calls /\
           outcome (apiFunction (fst call) (snd call)) = inr r /\
           collectable r = true).
Proof.
  induction rest as [|chunk rest IH]; intros i results st.
  - exists []. simpl. split; [reflexivity|]. split; [reflexivity|].
    intros results' H. injection H as <-. exists []. rewrite app_nil_r.
    split; [reflexivity | congruence].
  - cbn [processChunks_loop]. unfold bind. rewrite progress_shape.
    destruct (apiFunction chunk st) as [[a st1] htr] eqn:Hw.
    rewrite (invoke_run _ _ _ Hw).
    destruct a as [e|r].
    + exists [(chunk, st)]. rewrite replay_cons, Hw. simpl. quiet.
      split; [reflexivity|]. split; [reflexivity|]. discriminate.
    + destruct (success r && truthyData (data r)) eqn:C; simpl.
      * destruct (IH (S i) (results ++ [dataString (data r)]) st1) as [calls [I [Hh Hr]]].
        destruct (processChunks_loop apiFunction onProgress total rest (S i)
                    (results ++ [dataString (data r)]) st1) as [[o st2] tr2].
        simpl in I, Hh, Hr. exists ((chunk, st) :: calls).
        rewrite replay_cons, Hw. simpl. quiet. rewrite I, Hh.
        split; [reflexivity|]. split; [reflexivity|].
        intros results' Ho. destruct (Hr results' Ho) as [new [E _]].
        exists (dataString (data r) :: new).
        split.
        -- rewrite E, <- app_assoc. reflexivity.
        -- intros _. exists (chunk, st), r. simpl. rewrite Hw.
           split; [left; reflexivity | split; [reflexivity | exact C]].
      * destruct (IH (S i) results st1) as [calls [I [Hh Hr]]].
        destruct (processChunks_loop apiFunction onProgress total rest (S i)
                    results st1) as [[o st2] tr2].
        simpl in I, Hh, Hr. exists ((chunk, st) :: calls).
        rewrite replay_cons, Hw. simpl. quiet. rewrite I, Hh.
        split; [reflexivity|]. split; [reflexivity|].
        intros results' Ho. destruct (Hr results' Ho) as [new [E Hnew]].
        exists new. split; [exact E|].
        intro Hne. destruct (Hnew Hne) as [call [r0 [Hin Hc]]].
        exists call, r0. split; [right; exact Hin | exact Hc].
Qed.

(** The calls of a whole run. *)
Lemma processWithChunking_calls (content : jsstring) (apiKey : APIKey)
      apiFunction (onProgress : bool) st :
  exists calls : list (jsstring * St),
    invocations (trace (processWithChunking content apiKey apiFunction onProgress st)) =
      map fst calls /\
    hostEvents (trace (processWithChunking content apiKey apiFunction onProgress st)) =
      replay apiFunction calls /\
    forall result,
      outcome (processWithChunking content apiKey apiFunction onProgress st) = inr result ->
      success result = true ->
      exists call r,
        In call calls /\
        outcome (apiFunction (fst call) (snd call)) = inr r /\
        success r = true.
Proof.
  unfold processWithChunking, tryCatch, bind.
  destruct (needsChunking content apiKey); cbn [negb]; rewrite progress_shape.
  - destruct (processChunks_loop_calls apiFunction onProgress
                (length (createChunks content apiKey)) (createChunks content apiKey)
                0 [] st) as [calls [I [Hh Hr]]].
    destruct (processChunks_loop apiFunction onProgress
                (length (createChunks content apiKey)) (createChunks content apiKey)
                0 [] st) as [[[e|results] st1] tr1]; simpl in I, Hh, Hr.
    + exists calls. simpl. quiet. rewrite I, Hh.
      split; [reflexivity|]. split; [reflexivity|].
      intros result H. injection H as <-. discriminate.
    + destruct (Hr results eq_refl) as [new [E Hnew]]. simpl in E. subst new.
      assert (Hcall : results <> [] ->
                      exists call r,
                        In call calls /\
                        outcome (apiFunction (fst call) (snd call)) = inr r /\
                        success r = true).
      { intro Hne. destruct (Hnew Hne) as [call [r [Hin [Ho Hc]]]].
        exists call, r. split; [exact Hin | split; [exact Ho|]].
        unfold collectable in Hc. apply andb_true_iff in Hc. tauto. }
      destruct (length results =? 0)%nat eqn:L.
      * exists calls. simpl. quiet. rewrite I, Hh.
        split; [reflexivity|]. split; [reflexivity|].
        intros result H. injection H as <-. discriminate.
      * assert (Hne : results <> []) by (intros ->; discriminate).
        rewrite progress_shape.
        destruct (needsChunking (JS.join separator results) apiKey).
        -- rewrite progress_shape.
           destruct (apiFunction (JS.join separator results) st1) as [[a st2] htr] eqn:Hw.
           rewrite (invoke_run _ _ _ Hw).
           exists (calls ++ [(JS.join separator results, st1)]).
           assert (Hrep : replay apiFunction (calls ++ [(JS.join separator results, st1)]) =
                          replay apiFunction calls ++ htr).
           { unfold replay. rewrite map_app, concat_app. simpl. rewrite Hw, app_nil_r.
             reflexivity. }
           rewrite Hrep, map_app.
           destruct (Hcall Hne) as [call [r0 [Hin Hc]]].
           destruct a as [e|r]; [|destruct (success r)]; simpl; quiet; rewrite I, Hh;
             (split; [reflexivity|]); (split; [reflexivity|]);
             intros result H Hs; exists call, r0;
             (split; [apply in_or_app; left; exact Hin | exact Hc]).
        -- exists calls. simpl. quiet. rewrite I, Hh.
           split; [reflexivity|]. split; [reflexivity|].
           intros result H Hs. exact (Hcall Hne).
  - destruct (apiFunction content st) as [[a st1] htr] eqn:Hw.
    rewrite (invoke_run _ _ _ Hw).
    exists [(content, st)]. rewrite replay_cons, Hw.
    destruct a as [e|r]; [|destruct (success r) eqn:Hs]; simpl; quiet;
      (split; [reflexivity|]); (split; [reflexivity|]);
      intros result H Hres; injection H as <-; try discriminate.
    exists (content, st), r. simpl. rewrite Hw.
    split; [left; reflexivity | split; [reflexivity | exact Hs]].
Qed.

(** X7.  The engine touches the host only through its worker: what
    reaches the host during a run is what the worker calls did, call by
    call and in the order of the calls. *)
Theorem host_only_through_worker (content : jsstring) (apiKey : APIKey)
        apiFunction (onProgress : bool) st :
  exists calls : list (jsstring * St),
    invocations (trace (processWithChunking content apiKey apiFunction onProgress st)) =
      map fst calls /\
    hostEvents (trace (processWithChunking content apiKey apiFunction onProgress st)) =
      replay apiFunction calls.
Proof.
  destruct (processWithChunking_calls content apiKey apiFunction onProgress st)
    as [calls [I [Hh _]]].
  exists calls. split; assumption.
Qed.

(** X8.  The engine does not invent a success: a run that returns
    [success: true] contains a worker call that returned a result with
    [success: true]. *)
Theorem success_needs_successful_call (content : jsstring) (apiKey : APIKey)
        apiFunction (onProgress : bool) st result st1 tr :
  processWithChunking content apiKey apiFunction onProgress st = (inr result, st1, tr) ->
  success result = true ->
  exists chunk s r,
    In chunk (invocations tr) /\
    outcome (apiFunction chunk s) = inr r /\
    success r = true.
Proof.
  intros Hrun Hs.
  destruct (processWithChunking_calls content apiKey apiFunction onProgress st)
    as [calls [I [_ Hc]]].
  rewrite Hrun in I, Hc. simpl in I, Hc.
  destruct (Hc result eq_refl Hs) as [[chunk s] [r [Hin [Ho Hr]]]].
  exists chunk, s, r. split; [|split; assumption].
  rewrite I. apply (in_map fst) in Hin. exact Hin.
Qed.

(** X5.  A worker call that throws ends the run at once.  On the chunked
    path the chunks after it are never passed to the worker and what the
    earlier chunks returned is discarded; on both paths the result is the
    failure whose message is that of the thrown error, or
    ['Chunking processing failed'] when what was thrown is not an error. *)
Theorem thrown_call_ends_run apiFunction (onProgress : bool)
        (content : jsstring) (apiKey : APIKey) pre chunk post st outs st1 e st2 htr :
  (needsChunking content apiKey = true /\
   createChunks content apiKey = pre ++ chunk :: post \/
   needsChunking content apiKey = false /\ pre = [] /\ chunk = content) ->
  answers apiFunction pre st = Some (outs, st1) ->
  apiFunction chunk st1 = (inl e, st2, htr) ->
  exists tr,
    processWithChunking content apiKey apiFunction onProgress st =
      (inr (mkResult false None
              (Some (messageOr (JS.lit "Chunking processing failed") e))), st2, tr) /\
    invocations tr = pre ++ [chunk].
Proof.
  intros [[Hn Hsplit]|[Hn [-> ->]]] Ha Hthrow.
  - exact (chunked_throw apiFunction onProgress content apiKey pre chunk post st
             Hn Hsplit Ha Hthrow).
  - simpl in Ha. injection Ha as _ <-.
    destruct (direct_call apiFunction onProgress content apiKey st Hn Hthrow)
      as [tr [E [I _]]].
    exists tr. split; [exact E | exact I].
Qed.

(** X6.  A blank text over the budget is a total failure without any
    worker call: it has no chunk, the host is not touched and the state is
    as before. *)
Theorem blank_text_no_calls apiFunction (onProgress : bool)
        (content : jsstring) (apiKey : APIKey) st :
  Plan.blank content = true ->
  needsChunking content apiKey = true ->
  createChunks content apiKey = [] /\
  exists tr,
    processWithChunking content apiKey apiFunction onProgress st =
      (inr (mkResult false None (Some (JS.lit "All chunks failed to process"))), st, tr) /\
    invocations tr = [] /\ hostEvents tr = [].
Proof.
  intros Hb Hn. pose proof (createChunks_blank content apiKey Hb) as Hc.
  split; [exact Hc|].
  assert (Ha : answers apiFunction (createChunks content apiKey) st = Some ([], st))
    by (rewrite Hc; reflexivity).
  destruct (chunked_nothing_collected apiFunction onProgress content apiKey st Hn Ha
              eq_refl) as [tr [E [I _]]].
  exists tr. split; [exact E|]. rewrite Hc in I. split; [exact I|].
  destruct (processWithChunking_calls content apiKey apiFunction onProgress st)
    as [calls [I' [Hh _]]].
  rewrite E in I', Hh. simpl in I', Hh. rewrite I in I'.
  destruct calls; [exact Hh | discriminate].
Qed.

(** The chunk loop when every call returns: one progress message per
    chunk, numbered from [i + 1], and one pause after each chunk. *)
Lemma processChunks_loop_progress apiFunction (onProgress : bool) (total : nat) :
  forall (rest : list jsstring) (i : nat) (results : list jsstring) st outs st1,
    answers apiFunction rest st = Some (outs, st1) ->
    progressMessages
      (trace (processChunks_loop apiFunction onProgress total rest i results st)) =
      (if onProgress
       then map (fun k => sectionMessage k total) (seq (i + 1) (length rest))
       else []) /\
    delays (trace (processChunks_loop apiFunction onProgress total rest i results st)) =
      repeat 100%Z (length rest).
Proof.
  induction rest as [|chunk rest IH]; intros i results st outs st1 H; simpl in H.
  - simpl. destruct onProgress; auto.
  - destruct (apiFunction chunk st) as [[[e|r] st'] htr] eqn:Hw; [discriminate|].
    destruct (answers apiFunction rest st') as [[rs st2]|] eqn:Ha; [|discriminate].
    cbn [processChunks_loop]. unfold bind. rewrite progress_shape.
    rewrite (invoke_run _ _ _ Hw).
    destruct (success r && truthyData (data r)); simpl.
    + destruct (IH (S i) (results ++ [dataString (data r)]) st' rs st2 Ha) as [P D].
      destruct (processChunks_loop apiFunction onProgress total rest (S i)
                  (results ++ [dataString (data r)]) st') as [[o st3] tr3].
      simpl in P, D. simpl. quiet. rewrite P, D.
      replace (S i + 1)%nat with (S (i + 1)) by lia.
      destruct onProgress; simpl; auto.
    + destruct (IH (S i) results st' rs st2 Ha) as [P D].
      destruct (processChunks_loop apiFunction onProgress total rest (S i) results st')
        as [[o st3] tr3].
      simpl in P, D. simpl. quiet. rewrite P, D.
      replace (S i + 1)%nat with (S (i + 1)) by lia.
      destruct onProgress; simpl; auto.
Qed.

(** The progress messages and pauses of a chunked run in which every
    chunk's call returns. *)
Lemma chunked_run_messages apiFunction (onProgress : bool)
        (content : jsstring) (apiKey : APIKey) st outs st1 :
  needsChunking content apiKey = true ->
  answers apiFunction (createChunks content apiKey) st = Some (outs, st1) ->
  let sections := length (createChunks content apiKey) in
  let joined := JS.join separator (collected outs) in
  let run := processWithChunking content apiKey apiFunction onProgress st in
  progressMessages (trace run) =
    (if onProgress
     then largeDocumentMessage sections ::
          map (fun k => sectionMessage k sections) (seq 1 sections) ++
          (match collected outs with
           | [] => []
           | _ :: _ =>
               JS.lit "Combining results..." ::
               (if needsChunking joined apiKey then [JS.lit "Finalizing results..."] else [])
           end)
     else []) /\
  delays (trace run) = repeat 100%Z sections.
Proof.
  intros Hn Ha sections joined run. subst run.
  destruct (processChunks_loop_answers apiFunction onProgress sections _ 0 [] _ Ha)
    as [tr [E _]].
  destruct (processChunks_loop_progress apiFunction onProgress sections _ 0 [] _ Ha)
    as [P D].
  fold sections in P, D. rewrite E in P, D. simpl in P, D.
  unfold processWithChunking, tryCatch, bind.
  rewrite Hn. cbn [negb]. rewrite progress_shape. fold sections. rewrite E.
  change ([] ++ collected outs) with (collected outs). fold joined.
  destruct (collected outs) as [|out rest] eqn:Hc.
  - simpl. quiet. rewrite P, D.
    destruct onProgress; simpl; rewrite ?app_nil_r; auto.
  - cbn [length Nat.eqb]. rewrite progress_shape.
    destruct (needsChunking joined apiKey).
    + rewrite progress_shape.
      destruct (apiFunction joined st1) as [[a st2] htr] eqn:Hw.
      rewrite (invoke_run _ _ _ Hw).
      destruct a as [e|r]; [|destruct (success r)]; simpl; quiet; rewrite P, D;
        destruct onProgress; simpl; rewrite ?app_nil_r; auto.
    + simpl. quiet. rewrite P, D.
      destruct onProgress; simpl; rewrite ?app_nil_r; auto.
Qed.

(** X9.  The progress protocol of a chunked run in which every chunk's
    call returns.  With a sink, the messages are the announcement with the
    number of sections, one message per section numbered 1 to N in order,
    then ['Combining results...'] if something was collected and
    ['Finalizing results...'] if the joined text goes back to the worker;
    without a sink there is none.  The run pauses 100 ms after every
    chunk, the last one included. *)
Theorem chunked_progress_protocol apiFunction (onProgress : bool)
        (content : jsstring) (apiKey : APIKey) st outs st1 :
  needsChunking content apiKey = true ->
  answers apiFunction (createChunks content apiKey) st = Some (outs, st1) ->
  let sections := length (createChunks content apiKey) in
  let joined := JS.join separator (collected outs) in
  let run := processWithChunking content apiKey apiFunction onProgress st in
  progressMessages (trace run) =
    (if onProgress
     then largeDocumentMessage sections ::
          map (fun k => sectionMessage k sections) (seq 1 sections) ++
          (match collected outs with
           | [] => []
           | _ :: _ =>
               JS.lit "Combining results..." ::
               (if needsChunking joined apiKey then [JS.lit "Finalizing results..."] else [])
           end)
     else []) /\
  delays (trace run) = repeat 100%Z sections.
Proof.
  intros Hn Ha. exact (chunked_run_messages apiFunction onProgress content apiKey st Hn Ha).
Qed.

End EngineMore.

(** ** More concrete runs of the engine *)

Section EngineMoreRuns.

Import Effect ChunkingService Observe Protocol Scenarios MoreInputs.

(** Two chunks, the call on the second throws. *)
Lemma thrown_call_ends_run_witness :
  let c1 := firstn (Z.to_nat 8000) twoWindows in
  let c2 := skipn (Z.to_nat 7600) twoWindows in
  (needsChunking twoWindows summarizer = true /\
   createChunks twoWindows summarizer = [c1] ++ c2 :: []) /\
  answers throwSecond [c1] 0%nat = Some ([ok (JS.lit "S")], 1%nat) /\
  throwSecond c2 1%nat = (inl (ThrownError (JS.lit "boom")), 2%nat, []) /\
  exists tr,
    processWithChunking twoWindows summarizer throwSecond true 0%nat =
      (inr (mkResult false None (Some (JS.lit "boom"))), 2%nat, tr) /\
    invocations tr = [c1] ++ [c2].
Proof.
  intros c1 c2.
  assert (H1 : needsChunking twoWindows summarizer = true /\
               createChunks twoWindows summarizer = [c1] ++ c2 :: [])
    by (split; vm_compute; reflexivity).
  assert (H2 : answers throwSecond [c1] 0%nat = Some ([ok (JS.lit "S")], 1%nat))
    by reflexivity.
  assert (H3 : throwSecond c2 1%nat = (inl (ThrownError (JS.lit "boom")), 2%nat, []))
    by reflexivity.
  split; [exact H1 | split; [exact H2 | split; [exact H3 |]]].
  exact (@thrown_call_ends_run nat unit throwSecond true twoWindows summarizer
           [c1] c2 [] 0%nat _ 1%nat _ 2%nat [] (or_introl H1) H2 H3).
Defined.

(** 8001 spaces handed to a worker that is never called. *)
Lemma blank_text_no_calls_witness :
  Plan.blank allBlank = true /\
  needsChunking allBlank summarizer = true /\
  exists tr,
    processWithChunking allBlank summarizer alwaysFail true 0%nat =
      (inr (mkResult false None (Some (JS.lit "All chunks failed to process"))), 0%nat, tr) /\
    invocations tr = [] /\ hostEvents tr = [].
Proof.
  assert (H1 : Plan.blank allBlank = true) by (vm_compute; reflexivity).
  assert (H2 : needsChunking allBlank summarizer = true) by (vm_compute; reflexivity).
  split; [exact H1 | split; [exact H2 |]].
  exact (proj2 (@blank_text_no_calls nat unit alwaysFail true allBlank summarizer 0%nat
                  H1 H2)).
Defined.

(** A run over two chunks of which the first succeeds. *)
Lemma success_needs_successful_call_witness :
  let run := processWithChunking twoWindows summarizer failSecond false 0%nat in
  run = (inr (mkResult true (Some (JS.lit "S")) None), 2%nat, trace run) /\
  exists chunk s r,
    In chunk (invocations (trace run)) /\
    outcome (failSecond chunk s) = inr r /\
    success r = true.
Proof.
  intro run.
  assert (H1 : run = (inr (mkResult true (Some (JS.lit "S")) None), 2%nat, trace run))
    by (vm_compute; reflexivity).
  split; [exact H1|].
  exact (@success_needs_successful_call nat unit twoWindows summarizer failSecond false
           0%nat _ _ _ H1 eq_refl).
Defined.

(** Two sections with a sink: four messages and two pauses. *)
Lemma chunked_progress_protocol_witness :
  needsChunking twoWindows summarizer = true /\
  answers failSecond (createChunks twoWindows summarizer) 0%nat =
    Some ([ok (JS.lit "S"); ko (JS.lit "boom")], 2%nat) /\
  progressMessages
    (trace (processWithChunking twoWindows summarizer failSecond true 0%nat)) =
    [JS.lit "Processing large document in 2 sections...";
     JS.lit "Processing section 1 of 2..."; JS.lit "Processing section 2 of 2...";
     JS.lit "Combining results..."] /\
  delays (trace (processWithChunking twoWindows summarizer failSecond true 0%nat)) =
    [100%Z; 100%Z].
Proof.
  assert (H1 : needsChunking twoWindows summarizer = true) by (vm_compute; reflexivity).
  assert (H2 : answers failSecond (createChunks twoWindows summarizer) 0%nat =
               Some ([ok (JS.lit "S"); ko (JS.lit "boom")], 2%nat))
    by (vm_compute; reflexivity).
  split; [exact H1 | split; [exact H2 |]].
  destruct (@chunked_progress_protocol nat unit failSecond true twoWindows summarizer
              0%nat _ 2%nat H1 H2) as [P D].
  split.
  - rewrite P. vm_compute. reflexivity.
  - rewrite D. vm_compute. reflexivity.
Defined.

End EngineMoreRuns.

(* ================================================================== *)
(** * The progress callbacks of the analysis tasks *)
(* ================================================================== *)

Section CallbackFacts.

Import Effect ChunkingService Observe Protocol AnalysisTasks.

Lemma lit_cons (c : ascii) (s : string) :
  JS.lit (String c s) = N_of_ascii c :: JS.lit s.
Proof. reflexivity. Qed.

(** The decimal digits of a number, as the engine prints them, and what
    [parseInt] makes of them. *)
Lemma digits_of_uint (d : Decimal.uint) :
  forallb isDigit (JS.lit (NilEmpty.string_of_uint d)) = true /\
  forall acc : nat,
    fold_left (fun a c => (10 * a + (Z.of_N c - 48))%Z)
              (JS.lit (NilEmpty.string_of_uint d)) (Z.of_nat acc) =
    Z.of_nat (Nat.of_uint_acc d acc).
Proof.
  induction d as [|d [IH1 IH2]|d [IH1 IH2]|d [IH1 IH2]|d [IH1 IH2]|d [IH1 IH2]
                  |d [IH1 IH2]|d [IH1 IH2]|d [IH1 IH2]|d [IH1 IH2]|d [IH1 IH2]];
    simpl NilEmpty.string_of_uint; [split; [reflexivity | intro; reflexivity]| ..];
    rewrite lit_cons; (split; [cbn [forallb]; rewrite IH1; reflexivity|]);
    intro acc; cbn [fold_left Nat.of_uint_acc]; rewrite <- IH2; f_equal;
    rewrite Nat.tail_mul_spec; cbn [N_of_ascii N_of_digits]; lia.
Qed.

Lemma ofNat_digits (n : nat) :
  forallb isDigit (JS.ofNat n) = true /\
  JS.ofNat n <> [] /\
  digitsValue (JS.ofNat n) = Z.of_nat n.
Proof.
  unfold JS.ofNat, digitsValue.
  destruct (digits_of_uint (Nat.to_uint n)) as [D P].
  split; [exact D|]. split.
  - assert (E : Nat.to_uint n = Decimal.unorm (Nat.to_uint n)).
    { rewrite <- Unsigned.to_of, Unsigned.of_to. reflexivity. }
    rewrite E. unfold Decimal.unorm.
    destruct (Decimal.nzhead (Nat.to_uint n)); discriminate.
  - pose proof (P 0%nat) as P0. change (Z.of_nat 0) with 0%Z in P0. rewrite P0.
    change (Nat.of_uint_acc (Nat.to_uint n) 0) with (Nat.of_uint (Nat.to_uint n)).
    rewrite Unsigned.of_to. reflexivity.
Qed.

Lemma stripPrefix_app (prefix s : jsstring) : stripPrefix prefix (prefix ++ s) = Some s.
Proof.
  induction prefix as [|p prefix IH]; simpl; [reflexivity|].
  rewrite N.eqb_refl. exact IH.
Qed.

Lemma takeWhile_digits (digits rest : jsstring) :
  forallb isDigit digits = true ->
  match rest with [] => True | c :: _ => isDigit c = false end ->
  takeWhile isDigit (digits ++ rest) = digits /\
  JS.dropWhile isDigit (digits ++ rest) = rest.
Proof.
  intros Hd Hr. induction digits as [|d digits IH]; simpl in *.
  - destruct rest as [|c rest]; simpl; [auto | rewrite Hr; auto].
  - apply andb_true_iff in Hd. destruct Hd as [Hd Hds]. rewrite Hd.
    destruct (IH Hds) as [T D]. rewrite T, D. auto.
Qed.

(** The pattern finds a section message at its start and captures the
    two numbers. *)
Lemma matchSection_sectionMessage (i total : nat) :
  matchSection (sectionMessage i total) = Some (JS.ofNat i, JS.ofNat total).
Proof.
  destruct (ofNat_digits i) as [Di [Ni _]].
  destruct (ofNat_digits total) as [Dt [Nt _]].
  assert (H : matchSectionAt (sectionMessage i total) = Some (JS.ofNat i, JS.ofNat total)).
  { unfold matchSectionAt, sectionMessage. rewrite stripPrefix_app.
    destruct (takeWhile_digits (JS.ofNat i)
                (JS.lit " of " ++ JS.ofNat total ++ JS.lit "...") Di eq_refl) as [T1 D1].
    rewrite T1, D1, stripPrefix_app.
    destruct (takeWhile_digits (JS.ofNat total) (JS.lit "...") Dt eq_refl) as [T2 _].
    rewrite T2.
    destruct (JS.ofNat i); [congruence|]. destruct (JS.ofNat total); [congruence|].
    reflexivity. }
  revert H. generalize (sectionMessage i total). intros s H.
  destruct s as [|c s]; [vm_compute in H; discriminate|].
  cbn [matchSection]. rewrite H. reflexivity.
Qed.

Lemma matchSection_without_P (s : jsstring) :
  forallb (fun c => negb (c =? 80)%N) s = true -> matchSection s = None.
Proof.
  induction s as [|c s IH]; intro H; [reflexivity|].
  simpl in H. apply andb_true_iff in H. destruct H as [Hc Hs].
  cbn [matchSection]. unfold matchSectionAt.
  change (JS.lit "Processing section ") with (80%N :: JS.lit "rocessing section ").
  cbn [stripPrefix]. rewrite N.eqb_sym.
  destruct (c =? 80)%N; [discriminate|]. apply IH. exact Hs.
Qed.

Lemma digit_not_P (s : jsstring) :
  forallb isDigit s = true -> forallb (fun c => negb (c =? 80)%N) s = true.
Proof.
  intro H. apply forallb_forall. intros c Hin.
  rewrite forallb_forall in H. specialize (H c Hin). unfold isDigit in H.
  apply andb_true_iff in H. destruct H as [_ H]. apply N.leb_le in H.
  destruct (c =? 80)%N eqn:E; [apply N.eqb_eq in E; lia | reflexivity].
Qed.

(** The announcement of a chunked run is not taken for a section message. *)
Lemma matchSection_largeDocumentMessage (total : nat) :
  matchSection (largeDocumentMessage total) = None.
Proof.
  destruct (ofNat_digits total) as [Dt _].
  set (tail := JS.lit "rocessing large document in " ++ JS.ofNat total ++
               JS.lit " sections...").
  assert (E : largeDocumentMessage total = 80%N :: tail) by reflexivity.
  assert (Ht : forallb (fun c => negb (c =? 80)%N) tail = true).
  { subst tail. rewrite !forallb_app.
    apply andb_true_iff. split; [reflexivity|].
    apply andb_true_iff. split; [apply digit_not_P; exact Dt | reflexivity]. }
  assert (Hm : matchSectionAt (80%N :: tail) = None) by reflexivity.
  rewrite E. clearbody tail. cbn [matchSection]. rewrite Hm.
  apply matchSection_without_P. exact Ht.
Qed.

(** Up to [2^53] the Number is the integer itself. *)
Lemma toNumber_exact (n : Z) : (n <= 2 ^ 53)%Z -> toNumber n = Num n.
Proof.
  intro H. unfold toNumber. apply Z.leb_le in H. rewrite H. reflexivity.
Qed.

Lemma parseInt_ofNat (n : nat) :
  (Z.of_nat n <= 2 ^ 53)%Z -> parseInt (JS.ofNat n) = Num (Z.of_nat n).
Proof.
  intro H. unfold parseInt. rewrite (proj2 (proj2 (ofNat_digits n))).
  apply toNumber_exact. exact H.
Qed.

Lemma relayProgress_sectionMessage (stageName : jsstring) (i total : nat) :
  (Z.of_nat i <= 2 ^ 53)%Z -> (Z.of_nat total <= 2 ^ 53)%Z ->
  relayProgress stageName (sectionMessage i total) =
  (sectionMessage i total,
   Some (mkProgress (Num (Z.of_nat i)) (Num (Z.of_nat total)) stageName)).
Proof.
  intros Hi Ht. unfold relayProgress. rewrite matchSection_sectionMessage.
  rewrite (parseInt_ofNat i Hi), (parseInt_ofNat total Ht).
  reflexivity.
Qed.

(** There are no more chunks than characters. *)
Lemma createChunks_length_le (content : jsstring) (apiKey : APIKey) :
  (length (createChunks content apiKey) <= length content)%nat.
Proof.
  destruct (registry_increment apiKey) as [_ [Hs _]].
  rewrite createChunks_windows.
  transitivity (Plan.windowCount (API_TOKEN_LIMITS apiKey) content).
  - rewrite <- (windows_length (API_TOKEN_LIMITS apiKey) content). apply filter_length_le.
  - apply windowCount_le. exact Hs.
Qed.

(** X10.  The text protocol between the engine and the tasks' progress
    callbacks holds for the numbers that [parseInt] reads exactly, those up
    to 2^53: a section message parses back to its two numbers, the other
    messages of the engine are passed on without numbers, and over a
    chunked run of N sections on a text of at most 2^53 characters, in
    which every chunk's call returns, the task's sink receives the pairs
    (1, N), (2, N), ..., (N, N), in order.  Above 2^53 [parseInt] rounds:
    2^53 + 1 is read as 2^53. *)
Theorem progress_round_trip (stageName : jsstring) :
  (forall i total : nat,
      (Z.of_nat i <= 2 ^ 53)%Z -> (Z.of_nat total <= 2 ^ 53)%Z ->
      relayProgress stageName (sectionMessage i total) =
      (sectionMessage i total,
       Some (mkProgress (Num (Z.of_nat i)) (Num (Z.of_nat total)) stageName))) /\
  (forall total : nat,
      relayProgress stageName (largeDocumentMessage total) =
      (largeDocumentMessage total, None)) /\
  (forall message,
      In message [JS.lit "Processing document..."; JS.lit "Combining results...";
                  JS.lit "Finalizing results..."] ->
      relayProgress stageName message = (message, None)) /\
  (forall (St HEv : Type) (apiFunction : Worker St HEv) content apiKey st outs st1,
      (JS.length content <= 2 ^ 53)%Z ->
      needsChunking content apiKey = true ->
      answers apiFunction (createChunks content apiKey) st = Some (outs, st1) ->
      let sections := length (createChunks content apiKey) in
      relayed stageName
        (trace (processWithChunking content apiKey apiFunction true st)) =
      map (fun k => mkProgress (Num (Z.of_nat k)) (Num (Z.of_nat sections)) stageName)
          (seq 1 sections)) /\
  relayProgress stageName
    (JS.lit "Processing section 9007199254740993 of 9007199254740993...") =
  (JS.lit "Processing section 9007199254740993 of 9007199254740993...",
   Some (mkProgress (Num 9007199254740992) (Num 9007199254740992) stageName)).
Proof.
  assert (Hlarge : forall total : nat,
             relayProgress stageName (largeDocumentMessage total) =
             (largeDocumentMessage total, None)).
  { intro total. unfold relayProgress.
    rewrite matchSection_largeDocumentMessage. reflexivity. }
  assert (Hfixed : forall message,
             In message [JS.lit "Processing document..."; JS.lit "Combining results...";
                         JS.lit "Finalizing results..."] ->
             relayProgress stageName message = (message, None)).
  { intros message [<-|[<-|[<-|[]]]]; reflexivity. }
  split; [apply relayProgress_sectionMessage|].
  split; [exact Hlarge|]. split; [exact Hfixed|].
  split; [|vm_compute; reflexivity].
  intros St HEv apiFunction content apiKey st outs st1 Hlen Hn Ha sections.
  destruct (chunked_run_messages apiFunction true content apiKey st Hn Ha) as [P _].
  fold sections in P. unfold relayed. rewrite P.
  cbn [flat_map]. rewrite Hlarge. cbn [snd app]. rewrite flat_map_app.
  assert (Hclose :
            flat_map (fun message =>
                        match snd (relayProgress stageName message) with
                        | Some p => [p]
                        | None => []
                        end)
                     (match collected outs with
                      | [] => []
                      | _ :: _ =>
                          JS.lit "Combining results..." ::
                          (if needsChunking (JS.join separator (collected outs)) apiKey
                           then [JS.lit "Finalizing results..."] else [])
                      end) = []).
  { clear P. destruct (collected outs) as [|o os]; [reflexivity|].
    cbn [flat_map].
    rewrite (Hfixed (JS.lit "Combining results...")) by (simpl; tauto). cbn [snd app].
    destruct (needsChunking (JS.join separator (o :: os)) apiKey); [|reflexivity].
    cbn [flat_map].
    rewrite (Hfixed (JS.lit "Finalizing results...")) by (simpl; tauto). reflexivity. }
  rewrite Hclose, app_nil_r. clear P Hclose.
  assert (Hsections : (Z.of_nat sections <= 2 ^ 53)%Z).
  { pose proof (createChunks_length_le content apiKey) as Hle.
    unfold JS.length in Hlen. subst sections. lia. }
  assert (Hks : forall k, In k (seq 1 sections) -> (Z.of_nat k <= 2 ^ 53)%Z).
  { intros k Hin. apply in_seq in Hin. lia. }
  revert Hks. generalize (seq 1 sections) as ks.
  induction ks as [|k ks IH]; intro Hks; [reflexivity|].
  cbn [map flat_map].
  rewrite relayProgress_sectionMessage by (auto; apply Hks; left; reflexivity).
  cbn [snd app]. f_equal. apply IH. intros k' Hin. apply Hks. right. exact Hin.
Qed.

End CallbackFacts.

(* ================================================================== *)
(** * Aggregate status and download triggers *)
(* ================================================================== *)

Section StatusFacts.

Import Effect ChromeAIService Observe Protocol StatusAndDownloads.
Variable St : Type.
Variable host : Host St.

(** A status query returns a string and calls no model. *)
Lemma checkApiAvailability_returns (apiName : jsstring) (st : St) :
  exists status st1 tr,
    checkApiAvailability host apiName st = (inr status, st1, tr) /\
    modelCalls tr = [] /\
    (global host apiName = None -> status = unavailable /\ st1 = st /\ tr = []).
Proof.
  unfold checkApiAvailability.
  destruct (hasWindow host); cbn [negb].
  2:{ exists unavailable, st, []. repeat split; reflexivity. }
  destruct (global host apiName) as [api|] eqn:Hg.
  2:{ exists unavailable, st, []. repeat split; reflexivity. }
  destruct (availability api) as [f|] eqn:Hf.
  2:{ exists unavailable, st, []. split; [reflexivity|]. split; [reflexivity|].
      discriminate. }
  assert (Hcall : forall o,
             exists status st1 tr,
               tryCatch (result <- direct (callAvailability apiName api o) ;; ret result)%js
                        (fun _ => ret (JS.lit "unavailable")) st = (inr status, st1, tr) /\
               modelCalls tr = [] /\
               (Some api = None -> status = unavailable /\ st1 = st /\ tr = [])).
  { intro o. unfold tryCatch, bind.
    destruct (f o st) as [[e|answer] st1] eqn:Hr;
      rewrite (direct_availability apiName api o st Hf Hr); simpl;
      do 3 eexists; (split; [reflexivity|]); (split; [reflexivity | discriminate]). }
  destruct (JS.eqb apiName (JS.lit "Translator")); apply Hcall.
Qed.

Lemma settle_check (apiName : jsstring) (st : St) :
  exists status st1 tr,
    settle (checkApiAvailability host apiName) st = (inr (inr status), st1, tr) /\
    modelCalls tr = [] /\
    (global host apiName = None -> status = unavailable /\ st1 = st /\ tr = []).
Proof.
  destruct (checkApiAvailability_returns apiName st) as [status [st1 [tr [E H]]]].
  exists status, st1, tr. unfold settle. rewrite E. split; [reflexivity | exact H].
Qed.

Lemma available_iff (s1 s2 s3 s4 s5 : jsstring) :
  JS.eqb s1 (JS.lit "available") || JS.eqb s2 (JS.lit "available") ||
  JS.eqb s3 (JS.lit "available") || JS.eqb s4 (JS.lit "available") ||
  JS.eqb s5 (JS.lit "available") = true <->
  In (JS.lit "available") [s1; s2; s3; s4; s5].
Proof.
  rewrite !orb_true_iff, !eqb_eq. simpl. intuition congruence.
Qed.

(** X11.  [getAvailabilityStatus] always returns a report and calls no
    model to make it.  The report's [available] flag is set exactly when
    one of its five statuses is ['available']; it carries an error message
    exactly when the flag is not set, and on a page that message is the
    diagnostic computed from the five statuses. *)
Theorem getAvailabilityStatus_report (st : St) :
  exists report st1 tr,
    getAvailabilityStatus host st = (inr report, st1, tr) /\
    modelCalls tr = [] /\
    (available report = true <->
     In (JS.lit "available")
        [summarizer report; writer report; rewriter report; translator report;
         languageModel report]) /\
    (error report = None <-> available report = true) /\
    (hasWindow host = true -> available report = false ->
     error report =
       Some (diagnostic [summarizer report; writer report; rewriter report;
                         translator report; languageModel report])).
Proof.
  unfold getAvailabilityStatus.
  destruct (hasWindow host); cbn [negb].
  2:{ do 3 eexists. split; [reflexivity|]. split; [reflexivity|].
      cbn [available summarizer writer rewriter translator languageModel error].
      split; [|split; [split; discriminate | discriminate]].
      rewrite <- available_iff. vm_compute. split; discriminate. }
  unfold tryCatch, bind.
  destruct (settle_check (JS.lit "Summarizer") st) as [s1 [st1 [tr1 [E1 [M1 _]]]]].
  rewrite E1.
  destruct (settle_check (JS.lit "Writer") st1) as [s2 [st2 [tr2 [E2 [M2 _]]]]].
  rewrite E2.
  destruct (settle_check (JS.lit "Rewriter") st2) as [s3 [st3 [tr3 [E3 [M3 _]]]]].
  rewrite E3.
  destruct (settle_check (JS.lit "Translator") st3) as [s4 [st4 [tr4 [E4 [M4 _]]]]].
  rewrite E4.
  destruct (settle_check (JS.lit "LanguageModel") st4) as [s5 [st5 [tr5 [E5 [M5 _]]]]].
  rewrite E5.
  cbn [fulfilledOr ret].
  do 3 eexists. split; [reflexivity|].
  split; [rewrite !modelCalls_app, M1, M2, M3, M4, M5; reflexivity|].
  cbn [available summarizer writer rewriter translator languageModel error].
  split; [apply available_iff|].
  destruct (JS.eqb s1 (JS.lit "available") || JS.eqb s2 (JS.lit "available") ||
            JS.eqb s3 (JS.lit "available") || JS.eqb s4 (JS.lit "available") ||
            JS.eqb s5 (JS.lit "available")); cbn [negb].
  - split; [tauto | discriminate].
  - split; [split; discriminate | reflexivity].
Qed.

(** X12.  On a page that exposes none of the five capabilities the report
    is made without any host call: every status is ['unavailable'], never
    ['unsupported'], and the diagnostic is the one for five unavailable
    models. *)
Theorem getAvailabilityStatus_bare_page (st : St) :
  hasWindow host = true ->
  (forall name,
      In name [JS.lit "Summarizer"; JS.lit "Writer"; JS.lit "Rewriter";
               JS.lit "Translator"; JS.lit "LanguageModel"] ->
      global host name = None) ->
  getAvailabilityStatus host st =
    (inr (mkAvailability false unavailable unavailable unavailable unavailable unavailable
            (Some (JS.lit "All AI models are unavailable. This is usually due to insufficient storage space (need ~20GB free) or Chrome AI not being enabled."))),
     st, []).
Proof.
  intros Hw Hnone.
  assert (Hcheck : forall name s,
             In name [JS.lit "Summarizer"; JS.lit "Writer"; JS.lit "Rewriter";
                      JS.lit "Translator"; JS.lit "LanguageModel"] ->
             settle (checkApiAvailability host name) s = (inr (inr unavailable), s, [])).
  { intros name s Hin.
    destruct (settle_check name s) as [status [s1 [tr [E [_ H]]]]].
    destruct (H (Hnone name Hin)) as [-> [-> ->]]. exact E. }
  unfold getAvailabilityStatus. rewrite Hw. cbn [negb].
  unfold tryCatch, bind.
  rewrite !Hcheck by (simpl; tauto).
  reflexivity.
Qed.

(** X13.  [triggerModelDownload] never asks for the status of the model:
    on a page that exposes LanguageModel it fails with
    [USER_ACTIVATION_REQUIRED] whenever the user activation is absent,
    without any host call, whatever state the model is in, and otherwise
    its only host call is the request for a session. *)
Theorem triggerModelDownload_skips_status (api : ApiObject St) (st : St) :
  hasWindow host = true ->
  global host (JS.lit "LanguageModel") = Some api ->
  exists r st1 tr,
    triggerModelDownload host st = (inr r, st1, tr) /\
    (forall call, In call (hostEvents tr) -> isCreate call = true) /\
    (userActivationIsActive host st = false ->
     errorCode r = Some (JS.lit "USER_ACTIVATION_REQUIRED") /\
     ChromeAIService.success r = false /\ st1 = st /\ tr = []).
Proof.
  intros Hw Hg. unfold triggerModelDownload. rewrite Hw, Hg. cbn [negb].
  unfold tryCatch, bind, gets.
  destruct (userActivationIsActive host st); cbn [negb].
  - unfold direct, mapTrace, callCreate, perform.
    destruct (create api) as [mk|].
    + destruct (mk NoOptions st) as [[e|session] st1]; simpl;
        do 3 eexists; (split; [reflexivity|]); (split; [|discriminate]);
        intros call [<-|[]]; reflexivity.
    + simpl. do 3 eexists. split; [reflexivity|]. split; [|discriminate].
      intros call [].
  - simpl. do 3 eexists. split; [reflexivity|]. split; [intros call []|].
    intros _. repeat split; reflexivity.
Qed.

(** X14.  For the Writer the two download paths agree wherever no
    session is requested: when the status is ['available'] or
    ['unavailable'], or the user activation is absent,
    [triggerWriterDownload] and [downloadSpecificAPI('Writer')] make the
    same single host call, leave the host in the same state and return the
    same success flag and error code. *)
Theorem writer_download_paths_agree (api : ApiObject St) f mk (st st1 : St)
        (status : jsstring) :
  hasWindow host = true ->
  global host (JS.lit "Writer") = Some api ->
  availability api = Some f ->
  create api = Some mk ->
  f NoOptions st = (inr status, st1) ->
  status = JS.lit "available" \/ status = JS.lit "unavailable" \/
  userActivationIsActive host st1 = false ->
  exists r1 r2,
    triggerWriterDownload host st =
      (inr r1, st1, [ChunkingService.Inner (Availability (JS.lit "Writer") NoOptions)]) /\
    downloadSpecificAPI host (JS.lit "Writer") st =
      (inr r2, st1, [ChunkingService.Inner (Availability (JS.lit "Writer") NoOptions)]) /\
    ChromeAIService.success r1 = ChromeAIService.success r2 /\
    errorCode r1 = errorCode r2.
Proof.
  intros Hw Hg Hf Hc Hr Hcase.
  unfold triggerWriterDownload, downloadSpecificAPI.
  rewrite Hw, Hg, Hc, Hf. cbn [negb].
  change (JS.eqb (JS.lit "Writer") (JS.lit "Translator")) with false. cbv iota.
  unfold tryCatch, bind, gets.
  rewrite (direct_availability (JS.lit "Writer") api NoOptions st Hf Hr).
  destruct (JS.eqb status (JS.lit "available")) eqn:Ea.
  - apply eqb_eq in Ea. subst status.
    change (JS.eqb (JS.lit "available") (JS.lit "unavailable")) with false.
    simpl. do 2 eexists. repeat split; reflexivity.
  - destruct (JS.eqb status (JS.lit "unavailable")) eqn:Eu.
    + simpl. do 2 eexists. repeat split; reflexivity.
    + destruct Hcase as [->|[->|Hact]];
        [vm_compute in Ea; discriminate | vm_compute in Eu; discriminate |].
      rewrite Hact. simpl. do 2 eexists. repeat split; reflexivity.
Qed.

(** X20.  A download is requested only after a user gesture and never
    for a model that reports ['available'] or ['unavailable']: when one of
    the three download functions calls the model, the user activation was
    active when it was read, and, for the two functions that query the
    status, the status returned was neither of the two. *)
Theorem downloads_need_user_activation (apiName : jsstring) (st : St) :
  (modelCalls (trace (triggerModelDownload host st)) <> [] ->
   userActivationIsActive host st = true) /\
  (modelCalls (trace (triggerWriterDownload host st)) <> [] ->
   exists api status st1,
     global host (JS.lit "Writer") = Some api /\
     statusQuery (JS.lit "Writer") api st = (inr status, st1) /\
     status <> JS.lit "available" /\ status <> JS.lit "unavailable" /\
     userActivationIsActive host st1 = true) /\
  (modelCalls (trace (downloadSpecificAPI host apiName st)) <> [] ->
   exists api status st1,
     global host apiName = Some api /\
     statusQuery apiName api st = (inr status, st1) /\
     status <> JS.lit "available" /\ status <> JS.lit "unavailable" /\
     userActivationIsActive host st1 = true).
Proof.
  split; [|split].
  - unfold triggerModelDownload.
    destruct (hasWindow host); cbn [negb]; [|intro H; exfalso; apply H; reflexivity].
    destruct (global host (JS.lit "LanguageModel")) as [api|];
      [|intro H; exfalso; apply H; reflexivity].
    unfold tryCatch, bind, gets.
    destruct (userActivationIsActive host st); [reflexivity|].
    intro H; exfalso; apply H; reflexivity.
  - unfold triggerWriterDownload.
    destruct (hasWindow host); cbn [negb]; [|intro H; exfalso; apply H; reflexivity].
    destruct (global host (JS.lit "Writer")) as [api|];
      [|intro H; exfalso; apply H; reflexivity].
    unfold tryCatch, bind, gets.
    destruct (availability api) as [f|] eqn:Hf.
    2:{ unfold direct, mapTrace, callAvailability. rewrite Hf.
        intro H; exfalso; apply H; reflexivity. }
    destruct (f NoOptions st) as [[e|status] st1] eqn:Hr;
      rewrite (direct_availability (JS.lit "Writer") api NoOptions st Hf Hr);
      [intro H; exfalso; apply H; reflexivity|].
    destruct (JS.eqb status (JS.lit "unavailable")) eqn:Eu;
      [intro H; exfalso; apply H; reflexivity|].
    destruct (JS.eqb status (JS.lit "available")) eqn:Ea;
      [intro H; exfalso; apply H; reflexivity|].
    destruct (userActivationIsActive host st1) eqn:Hact; cbn [negb];
      [|intro H; exfalso; apply H; reflexivity].
    intros _. exists api, status, st1.
    split; [reflexivity|]. split.
    { unfold statusQuery. rewrite Hf.
      change (JS.eqb (JS.lit "Writer") (JS.lit "Translator")) with false. exact Hr. }
    split; [apply eqb_neq; exact Ea|]. split; [apply eqb_neq; exact Eu | exact Hact].
  - unfold downloadSpecificAPI.
    destruct (hasWindow host); cbn [negb]; [|intro H; exfalso; apply H; reflexivity].
    destruct (global host apiName) as [api|];
      [|intro H; exfalso; apply H; reflexivity].
    destruct (create api) as [mk|]; [|intro H; exfalso; apply H; reflexivity].
    destruct (statusQuery apiName api st) as [answer st1] eqn:Hq.
    destruct (statusQuery_direct apiName api st Hq) as [qtr [Eq Mq]].
    unfold tryCatch, bind, gets.
    match goal with
    | |- context [match availability api with Some _ => ?a | None => ?b end st] =>
        replace (match availability api with Some _ => a | None => b end st)
          with (answer, st1, qtr) by (symmetry; exact Eq)
    end.
    destruct answer as [e|status].
    { intro H; exfalso; apply H. cbn [trace snd ret].
      rewrite modelCalls_app, Mq. reflexivity. }
    destruct (JS.eqb status (JS.lit "available")) eqn:Ea.
    { intro H; exfalso; apply H. cbn [trace snd ret].
      rewrite modelCalls_app, Mq. reflexivity. }
    destruct (JS.eqb status (JS.lit "unavailable")) eqn:Eu.
    { intro H; exfalso; apply H. cbn [trace snd ret].
      rewrite modelCalls_app, Mq. reflexivity. }
    destruct (userActivationIsActive host st1) eqn:Hact; cbn [negb].
    2:{ intro H; exfalso; apply H. cbn [trace snd ret].
        rewrite modelCalls_app, Mq. reflexivity. }
    intros _. exists api, status, st1.
    split; [reflexivity|]. split; [exact Hq|].
    split; [apply eqb_neq; exact Ea|]. split; [apply eqb_neq; exact Eu | exact Hact].
Qed.

End StatusFacts.

(* ================================================================== *)
(** * The adapters as a whole *)
(* ================================================================== *)

Section AdapterMore.

Import Effect ChunkingService ChromeAIService Observe Protocol.
Variable St : Type.
Variable host : Host St.

Lemma tryCatch_post (Ev A : Type) (P : A -> Prop) (body : M St Ev A)
      (handler : thrown -> M St Ev A) (st : St) :
  (forall a s t, body st = (inr a, s, t) -> P a) ->
  (forall e s, exists a, handler e s = (inr a, s, []) /\ P a) ->
  exists a s t, tryCatch body handler st = (inr a, s, t) /\ P a.
Proof.
  intros Hbody Hhandler. unfold tryCatch.
  destruct (body st) as [[[e|a] s] t] eqn:E.
  - destruct (Hhandler e s) as [a [-> Pa]]. do 3 eexists. split; [reflexivity | exact Pa].
  - do 3 eexists. split; [reflexivity | exact (Hbody a s t eq_refl)].
Qed.

Lemma bind_inr (Ev A B : Type) (m : M St Ev A) (k : A -> M St Ev B) (st : St) b s t :
  bind m k st = (inr b, s, t) ->
  exists a s1 t1 t2, m st = (inr a, s1, t1) /\ k a s1 = (inr b, s, t2).
Proof.
  unfold bind. destruct (m st) as [[[e|a] s1] t1]; [discriminate|].
  destruct (k a s1) as [[r s2] t2] eqn:E. intro H. inversion H. subst.
  exists a, s1, t1, t2. split; [reflexivity | exact E].
Qed.

Lemma ret_inr (Ev A : Type) (a b : A) (st s : St) (t : list Ev) :
  ret a st = (inr b, s, t) -> b = a.
Proof. unfold ret. intro H. inversion H. reflexivity. Qed.

Lemma wellFormed_succeeded (T : Type) (codes : list jsstring) (payload : T) :
  wellFormed codes (succeeded payload).
Proof. unfold wellFormed. simpl. split; [discriminate | reflexivity]. Qed.

Lemma wellFormed_failed (T : Type) (codes : list jsstring) (c m : jsstring) d :
  In c codes -> wellFormed codes (@failed T c m d).
Proof.
  intro Hin. unfold wellFormed. simpl. split; [reflexivity|].
  eexists. split; [reflexivity | exact Hin].
Qed.

Ltac listed := cbn [In]; auto 10.

Ltac well_formed :=
  first [ apply wellFormed_succeeded
        | apply wellFormed_failed; listed ].

Ltac leaf H := apply ret_inr in H; subst; well_formed.

Ltac next H :=
  let a := fresh "a" in
  let s1 := fresh "s" in
  let t1 := fresh "t" in
  let t2 := fresh "t" in
  let E := fresh "E" in
  apply bind_inr in H; destruct H as [a [s1 [t1 [t2 [E H]]]]].

Ltac adapter :=
  destruct (hasWindow host); cbn [negb];
  [ apply tryCatch_post;
    [ intros r s t Hb;
      destruct (global host _) as [api|]; [|leaf Hb];
      next Hb
    | intros e s; eexists; split; [reflexivity | well_formed] ]
  | do 3 eexists; split; [reflexivity | unfold ssrError; well_formed] ].

(** X15.  None of the five adapters ever throws, and what they return is
    in order: a success carries data and no error, a failure carries no
    data and an error whose code is one of the adapter's own:
    [SSR_ERROR], [API_UNAVAILABLE], for the three gated adapters
    [API_NOT_READY], and the adapter's [*_ERROR]. *)
Theorem adapters_return_well_formed (text : jsstring) (onProgress : bool)
        (language tone format length source : option jsstring) (target : jsstring)
        (st : St) :
  (exists r st1 tr,
      summarizeText host text language onProgress st = (inr r, st1, tr) /\
      wellFormed [JS.lit "SSR_ERROR"; JS.lit "API_UNAVAILABLE"; JS.lit "SUMMARIZE_ERROR"] r) /\
  (exists r st1 tr,
      generateText host text tone format length onProgress st = (inr r, st1, tr) /\
      wellFormed [JS.lit "SSR_ERROR"; JS.lit "API_UNAVAILABLE"; JS.lit "WRITE_ERROR"] r) /\
  (exists r st1 tr,
      proofreadText host text language onProgress st = (inr r, st1, tr) /\
      wellFormed [JS.lit "SSR_ERROR"; JS.lit "API_UNAVAILABLE"; JS.lit "API_NOT_READY";
                  JS.lit "PROOFREAD_ERROR"] r) /\
  (exists r st1 tr,
      translateText host text target source onProgress st = (inr r, st1, tr) /\
      wellFormed [JS.lit "SSR_ERROR"; JS.lit "API_UNAVAILABLE"; JS.lit "API_NOT_READY";
                  JS.lit "TRANSLATE_ERROR"] r) /\
  (exists r st1 tr,
      rewriteText host text tone format length onProgress st = (inr r, st1, tr) /\
      wellFormed [JS.lit "SSR_ERROR"; JS.lit "API_UNAVAILABLE"; JS.lit "API_NOT_READY";
                  JS.lit "REWRITE_ERROR"] r).
Proof.
  split; [|split; [|split; [|split]]].
  - unfold summarizeText. adapter.
    next Hb. destruct (ChunkingService.success _); leaf Hb.
  - unfold generateText. adapter.
    next Hb. next Hb. destruct (ChunkingService.success _); leaf Hb.
  - unfold proofreadText. adapter.
    destruct (negb _); [leaf Hb|].
    next Hb. destruct (_ && _); leaf Hb.
  - unfold translateText. adapter.
    destruct (negb _); [leaf Hb|].
    next Hb. destruct (_ && _); leaf Hb.
  - unfold rewriteText. adapter.
    destruct (negb _); [leaf Hb|].
    next Hb. destruct (_ && _); leaf Hb.
Qed.

Lemma creates_app (a b : list hostCall) : creates (a ++ b) = (creates a + creates b)%nat.
Proof. unfold creates. rewrite filter_app, length_app. reflexivity. Qed.

Lemma runs_app (a b : list hostCall) : runs (a ++ b) = (runs a + runs b)%nat.
Proof. unfold runs. rewrite filter_app, length_app. reflexivity. Qed.

(** A call of the Writer worker runs a verb only on a session it asked
    for itself. *)
Lemma writeWorker_runs (writerOptions : hostOptions) (chunk : jsstring) (st : St) :
  (runs (trace (writeWorker host writerOptions chunk st)) <=
   creates (trace (writeWorker host writerOptions chunk st)))%nat.
Proof.
  unfold writeWorker.
  destruct (global host (JS.lit "Writer")) as [api|]; [|cbv; lia].
  unfold bind, callCreate, callRun, perform.
  destruct (create api) as [mk|]; [|cbv; lia].
  destruct (mk writerOptions st) as [[e|session] st1]; [cbv; lia|].
  destruct (session chunk st1) as [[e|out] st2]; cbv; lia.
Qed.

Lemma replay_writeWorker_runs (writerOptions : hostOptions)
      (calls : list (jsstring * St)) :
  (runs (replay (writeWorker host writerOptions) calls) <=
   creates (replay (writeWorker host writerOptions) calls))%nat.
Proof.
  induction calls as [|[chunk s] calls IH]; [cbv; lia|].
  rewrite replay_cons, runs_app, creates_app.
  pose proof (writeWorker_runs writerOptions chunk s). lia.
Qed.

(** X18.  [generateText] asks for a session it never uses: in every run
    that makes the Writer write at all, the sessions requested outnumber
    the texts written. *)
Theorem generateText_spare_session (prompt : jsstring)
        (tone format length : option jsstring) (onProgress : bool) (st : St) :
  let calls := hostEvents (trace (generateText host prompt tone format length onProgress st)) in
  runs calls = 0%nat \/ (runs calls < creates calls)%nat.
Proof.
  unfold generateText.
  destruct (hasWindow host); cbn [negb]; [|left; reflexivity].
  destruct (global host (JS.lit "Writer")) as [api|]; [|left; reflexivity].
  unfold tryCatch, bind.
  destruct (availability api) as [f|] eqn:Hf.
  2:{ unfold direct, mapTrace, callAvailability. rewrite Hf. left. reflexivity. }
  destruct (f NoOptions st) as [[e|status] st0] eqn:Hr;
    rewrite (direct_availability (JS.lit "Writer") api NoOptions st Hf Hr);
    [left; reflexivity|].
  destruct (create api) as [mk|] eqn:Hc.
  2:{ unfold direct, mapTrace, callCreate. rewrite Hc. left. reflexivity. }
  match goal with
  | |- context [direct (callCreate _ api ?o) st0] =>
      destruct (mk o st0) as [[e|session] st1] eqn:Emk;
      rewrite (direct_create (JS.lit "Writer") api o st0 Hc Emk);
      [left; reflexivity|];
      set (worker := writeWorker host o)
  end.
  destruct (@processWithChunking_calls St hostCall prompt writer worker onProgress st1)
    as [calls [_ [Hhost _]]].
  destruct (processWithChunking_returns prompt writer worker onProgress st1)
    as [result [st2 [tr E]]].
  rewrite E in *. cbn [trace snd] in Hhost.
  right.
  assert (Hle : (runs (hostEvents tr) <= creates (hostEvents tr))%nat).
  { rewrite Hhost. apply replay_writeWorker_runs. }
  destruct (ChunkingService.success result); cbn [ret trace snd];
    rewrite !hostEvents_app, !runs_app, !creates_app;
    cbn [hostEvents app]; rewrite Nat.add_0_r;
    change (runs [Availability (JS.lit "Writer") NoOptions]) with 0%nat;
    change (creates [Availability (JS.lit "Writer") NoOptions]) with 0%nat;
    match goal with
    | |- context [creates [Create ?n ?o]] =>
        change (creates [Create n o]) with 1%nat;
        change (runs [Create n o]) with 0%nat
    end; lia.
Qed.

Lemma short_text (text : jsstring) (apiKey : APIKey) :
  (JS.length text <= 8000)%Z -> needsChunking text apiKey = false.
Proof.
  intro Hlen. unfold needsChunking, needsChunkingWith.
  apply Z.ltb_ge. destruct apiKey; simpl; lia.
Qed.

(** X16.  A model that answers a short text with the empty string is
    treated differently by the adapters: [summarizeText] and
    [generateText] report success with the empty output, while
    [proofreadText], [translateText] and [rewriteText], which also require
    the output to be truthy, report their [*_ERROR] with the default
    message. *)
Theorem empty_output_by_adapter (api : ApiObject St) f mk (session : Session St)
        (text : jsstring) (onProgress : bool)
        (language tone format length source : option jsstring) (target : jsstring)
        (st : St) :
  hasWindow host = true ->
  (forall name,
      In name [JS.lit "Summarizer"; JS.lit "Writer"; JS.lit "Proofreader";
               JS.lit "Translator"; JS.lit "Rewriter"] ->
      global host name = Some api) ->
  availability api = Some f ->
  create api = Some mk ->
  (forall options s, f options s = (inr (JS.lit "available"), s)) ->
  (forall options s, mk options s = (inr session, s)) ->
  (forall s, session text s = (inr [], s)) ->
  (JS.length text <= 8000)%Z ->
  outcome (summarizeText host text language onProgress st) =
    inr (succeeded {| summary := Some [] |}) /\
  outcome (generateText host text tone format length onProgress st) =
    inr (succeeded {| ChromeAIService.text := Some [] |}) /\
  outcome (proofreadText host text language onProgress st) =
    inr (failed (JS.lit "PROOFREAD_ERROR") (JS.lit "Failed to proofread text") None) /\
  outcome (translateText host text target source onProgress st) =
    inr (failed (JS.lit "TRANSLATE_ERROR") (JS.lit "Failed to translate text") None) /\
  outcome (rewriteText host text tone format length onProgress st) =
    inr (failed (JS.lit "REWRITE_ERROR") (JS.lit "Failed to rewrite text") None).
Proof.
  intros Hw Hg Hf Hc Hstatus Hmk Hrun Hlen.
  assert (Hworker : forall name options,
             In name [JS.lit "Summarizer"; JS.lit "Writer"; JS.lit "Proofreader";
                      JS.lit "Translator"; JS.lit "Rewriter"] ->
             (session' <- callCreate name api options ;;
              out <- callRun name session' text ;;
              ret (workerSuccess out))%js st =
             (inr (workerSuccess []), st, [Create name options; Run name text])).
  { intros name options _. unfold bind, callCreate, callRun, perform.
    rewrite Hc, Hmk, Hrun. reflexivity. }
  assert (Hengine : forall apiKey (worker : Worker St hostCall) htr,
             worker text st = (inr (workerSuccess []), st, htr) ->
             exists tr,
               processWithChunking text apiKey worker onProgress st =
                 (inr (mkResult true (Some []) None), st, tr)).
  { intros apiKey worker htr Hwk.
    destruct (@direct_call St hostCall worker onProgress text apiKey st _ _ _
                (short_text text apiKey Hlen) Hwk) as [tr [E _]].
    exists tr. exact E. }
  repeat split.
  - unfold summarizeText. rewrite Hw, (Hg (JS.lit "Summarizer")) by (simpl; tauto).
    cbn [negb]. unfold tryCatch, bind.
    rewrite (direct_availability (JS.lit "Summarizer") api NoOptions st Hf (Hstatus _ st)).
    assert (Hwk : exists htr,
               summarizeWorker host language text st =
                 (inr (workerSuccess []), st, htr)).
    { eexists. unfold summarizeWorker. rewrite (Hg (JS.lit "Summarizer")) by (simpl; tauto).
      apply Hworker. simpl; tauto. }
    destruct Hwk as [htr Hwk].
    destruct (Hengine summarizer (summarizeWorker host language) htr Hwk) as [tr E].
    rewrite E. reflexivity.
  - unfold generateText. rewrite Hw, (Hg (JS.lit "Writer")) by (simpl; tauto).
    cbn [negb]. unfold tryCatch, bind.
    rewrite (direct_availability (JS.lit "Writer") api NoOptions st Hf (Hstatus _ st)).
    match goal with
    | |- context [direct (callCreate _ api ?o) st] =>
        set (writerOptions := o);
        rewrite (direct_create (JS.lit "Writer") api writerOptions st Hc
                   (Hmk writerOptions st))
    end.
    assert (Hwk : exists htr,
               writeWorker host writerOptions text st = (inr (workerSuccess []), st, htr)).
    { eexists. unfold writeWorker. rewrite (Hg (JS.lit "Writer")) by (simpl; tauto).
      apply Hworker. simpl; tauto. }
    destruct Hwk as [htr Hwk].
    destruct (Hengine writer (writeWorker host writerOptions) htr Hwk) as [tr E].
    rewrite E. reflexivity.
  - unfold proofreadText. rewrite Hw, (Hg (JS.lit "Proofreader")) by (simpl; tauto).
    cbn [negb]. unfold tryCatch, bind.
    rewrite (direct_availability (JS.lit "Proofreader") api NoOptions st Hf (Hstatus _ st)).
    change (negb (JS.eqb (JS.lit "available") (JS.lit "available"))) with false.
    cbv iota.
    assert (Hwk : exists htr,
               proofreadWorker host language text st =
                 (inr (workerSuccess []), st, htr)).
    { eexists. unfold proofreadWorker. rewrite (Hg (JS.lit "Proofreader")) by (simpl; tauto).
      apply Hworker. simpl; tauto. }
    destruct Hwk as [htr Hwk].
    destruct (Hengine proofreader (proofreadWorker host language) htr Hwk) as [tr E].
    rewrite E. reflexivity.
  - unfold translateText. rewrite Hw, (Hg (JS.lit "Translator")) by (simpl; tauto).
    cbn [negb]. unfold tryCatch, bind.
    rewrite (direct_availability (JS.lit "Translator") api NoOptions st Hf (Hstatus _ st)).
    change (negb (JS.eqb (JS.lit "available") (JS.lit "available"))) with false.
    cbv iota.
    assert (Hwk : exists htr,
               translateWorker host target source text st =
                 (inr (workerSuccess []), st, htr)).
    { eexists. unfold translateWorker. rewrite (Hg (JS.lit "Translator")) by (simpl; tauto).
      apply Hworker. simpl; tauto. }
    destruct Hwk as [htr Hwk].
    destruct (Hengine translator (translateWorker host target source) htr Hwk) as [tr E].
    rewrite E. reflexivity.
  - unfold rewriteText. rewrite Hw, (Hg (JS.lit "Rewriter")) by (simpl; tauto).
    cbn [negb]. unfold tryCatch, bind.
    rewrite (direct_availability (JS.lit "Rewriter") api NoOptions st Hf (Hstatus _ st)).
    change (negb (JS.eqb (JS.lit "available") (JS.lit "available"))) with false.
    cbv iota.
    assert (Hwk : exists htr,
               rewriteWorker host tone format length text st =
                 (inr (workerSuccess []), st, htr)).
    { eexists. unfold rewriteWorker. rewrite (Hg (JS.lit "Rewriter")) by (simpl; tauto).
      apply Hworker. simpl; tauto. }
    destruct Hwk as [htr Hwk].
    destruct (Hengine rewriter (rewriteWorker host tone format length) htr Hwk) as [tr E].
    rewrite E. reflexivity.
Qed.

(** X17.  One chunk on which the Summarizer throws makes [summarizeText]
    fail on a long text, whatever status was reported and whatever the
    earlier chunks produced: no later chunk is sent, the result is
    [SUMMARIZE_ERROR] with the message of the thrown error
    (['Failed to summarize text'] when that message is empty,
    ['Chunking processing failed'] when what was thrown is not an error),
    and the thrown value itself is not passed on as details. *)
Theorem summarizeText_chunk_throws (api : ApiObject St) f (status : jsstring)
        (text : jsstring) (language : option jsstring) (onProgress : bool)
        pre chunk post outs e htr (st st0 st1 st2 : St) :
  hasWindow host = true ->
  global host (JS.lit "Summarizer") = Some api ->
  availability api = Some f ->
  f NoOptions st = (inr status, st0) ->
  needsChunking text summarizer = true ->
  createChunks text summarizer = pre ++ chunk :: post ->
  answers (summarizeWorker host language) pre st0 = Some (outs, st1) ->
  summarizeWorker host language chunk st1 = (inl e, st2, htr) ->
  exists tr,
    summarizeText host text language onProgress st =
      (inr (failed (JS.lit "SUMMARIZE_ERROR")
              (match e with
               | ThrownError [] => JS.lit "Failed to summarize text"
               | ThrownError (c :: message) => c :: message
               | ThrownOther => JS.lit "Chunking processing failed"
               end)
              None),
       st2, tr) /\
    invocations tr = pre ++ [chunk].
Proof.
  intros Hw Hg Hf Hr Hneed Hchunks Hpre Hthrow.
  destruct (@chunked_throw St hostCall (summarizeWorker host language) onProgress
              text summarizer pre chunk post st0 outs st1 e st2 htr
              Hneed Hchunks Hpre Hthrow) as [tr [E Hinv]].
  unfold summarizeText. rewrite Hw, Hg. cbn [negb]. unfold tryCatch, bind.
  rewrite (direct_availability (JS.lit "Summarizer") api NoOptions st Hf Hr).
  rewrite E. cbn [caught ChunkingService.success ChunkingService.error ret].
  eexists. split.
  - destruct e as [[|c message]|]; reflexivity.
  - rewrite app_nil_r. cbn [app invocations]. exact Hinv.
Qed.

(** X19.  None of the three download functions ever throws, and what
    they return is in order: a success carries data and no error, a
    failure carries no data and an error whose code is [SSR_ERROR],
    [API_UNAVAILABLE], [USER_ACTIVATION_REQUIRED] or [DOWNLOAD_ERROR]. *)
Theorem downloads_return_well_formed (apiName : jsstring) (st : St) :
  let codes := [JS.lit "SSR_ERROR"; JS.lit "API_UNAVAILABLE";
                JS.lit "USER_ACTIVATION_REQUIRED"; JS.lit "DOWNLOAD_ERROR"] in
  (exists r st1 tr,
      downloadSpecificAPI host apiName st = (inr r, st1, tr) /\ wellFormed codes r) /\
  (exists r st1 tr,
      StatusAndDownloads.triggerModelDownload host st = (inr r, st1, tr) /\
      wellFormed codes r) /\
  (exists r st1 tr,
      StatusAndDownloads.triggerWriterDownload host st = (inr r, st1, tr) /\
      wellFormed codes r).
Proof.
  intro codes. subst codes. split; [|split].
  - unfold downloadSpecificAPI.
    destruct (hasWindow host); cbn [negb];
      [|do 3 eexists; split; [reflexivity | well_formed]].
    apply tryCatch_post;
      [|intros e s; eexists; split; [reflexivity | well_formed]].
    intros r s t Hb.
    destruct (global host apiName) as [api|]; [|leaf Hb].
    destruct (create api) as [mk|]; [|leaf Hb].
    next Hb.
    destruct (JS.eqb _ (JS.lit "available")); [leaf Hb|].
    destruct (JS.eqb _ (JS.lit "unavailable")); [leaf Hb|].
    next Hb. destruct (negb _); [leaf Hb|].
    next Hb. leaf Hb.
  - unfold StatusAndDownloads.triggerModelDownload. adapter.
    destruct (negb _); [leaf Hb|].
    next Hb. leaf Hb.
  - unfold StatusAndDownloads.triggerWriterDownload. adapter.
    destruct (JS.eqb _ (JS.lit "unavailable")); [leaf Hb|].
    destruct (JS.eqb _ (JS.lit "available")); [leaf Hb|].
    next Hb. destruct (negb _); [leaf Hb|].
    next Hb. leaf Hb.
Qed.

End AdapterMore.

Section GatewayMoreRuns.

Import Effect ChunkingService ChromeAIService Observe Protocol StatusAndDownloads.
Import Scenarios MoreInputs.

(** A page without any capability. *)
Lemma getAvailabilityStatus_bare_page_witness :
  hasWindow barePage = true /\
  (forall name,
      In name [JS.lit "Summarizer"; JS.lit "Writer"; JS.lit "Rewriter";
               JS.lit "Translator"; JS.lit "LanguageModel"] ->
      global barePage name = None) /\
  getAvailabilityStatus barePage tt =
    (inr (mkAvailability false unavailable unavailable unavailable unavailable unavailable
            (Some (JS.lit "All AI models are unavailable. This is usually due to insufficient storage space (need ~20GB free) or Chrome AI not being enabled."))),
     tt, []).
Proof.
  assert (H1 : hasWindow barePage = true) by reflexivity.
  assert (H2 : forall name,
             In name [JS.lit "Summarizer"; JS.lit "Writer"; JS.lit "Rewriter";
                      JS.lit "Translator"; JS.lit "LanguageModel"] ->
             global barePage name = None) by (intros name _; reflexivity).
  split; [exact H1 | split; [exact H2 |]].
  exact (@getAvailabilityStatus_bare_page unit barePage tt H1 H2).
Defined.

(** The model is ready and the user has not interacted. *)
Lemma triggerModelDownload_skips_status_witness :
  let api := reporting (JS.lit "available") in
  let page := pageWith (JS.lit "LanguageModel") api false in
  hasWindow page = true /\
  global page (JS.lit "LanguageModel") = Some api /\
  exists r st1 tr,
    triggerModelDownload page tt = (inr r, st1, tr) /\
    (forall call, In call (hostEvents tr) -> isCreate call = true) /\
    (userActivationIsActive page tt = false ->
     errorCode r = Some (JS.lit "USER_ACTIVATION_REQUIRED") /\
     ChromeAIService.success r = false /\ st1 = tt /\ tr = []).
Proof.
  intros api page.
  assert (H1 : hasWindow page = true) by reflexivity.
  assert (H2 : global page (JS.lit "LanguageModel") = Some api) by reflexivity.
  split; [exact H1 | split; [exact H2 |]].
  exact (@triggerModelDownload_skips_status unit page api tt H1 H2).
Defined.

(** The Writer is ready. *)
Lemma writer_download_paths_agree_witness :
  let api := reporting (JS.lit "available") in
  let page := pageWith (JS.lit "Writer") api true in
  hasWindow page = true /\
  global page (JS.lit "Writer") = Some api /\
  availability api = Some (fun _ st => (inr (JS.lit "available"), st)) /\
  create api = Some (fun _ st => (inr echoSession, st)) /\
  exists r1 r2,
    triggerWriterDownload page tt =
      (inr r1, tt, [ChunkingService.Inner (Availability (JS.lit "Writer") NoOptions)]) /\
    downloadSpecificAPI page (JS.lit "Writer") tt =
      (inr r2, tt, [ChunkingService.Inner (Availability (JS.lit "Writer") NoOptions)]) /\
    ChromeAIService.success r1 = ChromeAIService.success r2 /\
    errorCode r1 = errorCode r2.
Proof.
  intros api page.
  assert (H1 : hasWindow page = true) by reflexivity.
  assert (H2 : global page (JS.lit "Writer") = Some api) by reflexivity.
  assert (H3 : availability api = Some (fun _ st => (inr (JS.lit "available"), st)))
    by reflexivity.
  assert (H4 : create api = Some (fun _ st => (inr echoSession, st))) by reflexivity.
  split; [exact H1 | split; [exact H2 | split; [exact H3 | split; [exact H4 |]]]].
  exact (@writer_download_paths_agree unit page api _ _ tt tt (JS.lit "available")
           H1 H2 H3 H4 eq_refl (or_introl eq_refl)).
Defined.

(** Every capability answers the empty string. *)
Lemma empty_output_by_adapter_witness :
  let text := JS.lit "hi" in
  hasWindow mutePage = true /\
  (JS.length text <= 8000)%Z /\
  outcome (summarizeText mutePage text None false tt) =
    inr (succeeded {| summary := Some [] |}) /\
  outcome (generateText mutePage text None None None false tt) =
    inr (succeeded {| ChromeAIService.text := Some [] |}) /\
  outcome (proofreadText mutePage text None false tt) =
    inr (failed (JS.lit "PROOFREAD_ERROR") (JS.lit "Failed to proofread text") None) /\
  outcome (translateText mutePage text (JS.lit "es") None false tt) =
    inr (failed (JS.lit "TRANSLATE_ERROR") (JS.lit "Failed to translate text") None) /\
  outcome (rewriteText mutePage text None None None false tt) =
    inr (failed (JS.lit "REWRITE_ERROR") (JS.lit "Failed to rewrite text") None).
Proof.
  intro text.
  assert (H1 : hasWindow mutePage = true) by reflexivity.
  assert (H2 : (JS.length text <= 8000)%Z) by (vm_compute; discriminate).
  split; [exact H1 | split; [exact H2 |]].
  exact (@empty_output_by_adapter unit mutePage muteApi _ _ muteSession text false
           None None None None None (JS.lit "es") tt
           H1 (fun _ _ => eq_refl) eq_refl eq_refl
           (fun _ _ => eq_refl) (fun _ _ => eq_refl) (fun s => eq_refl) H2).
Defined.

(** Two chunks; the Summarizer throws on the second. *)
Lemma summarizeText_chunk_throws_witness :
  let c1 := firstn (Z.to_nat 8000) twoWindows in
  let c2 := skipn (Z.to_nat 7600) twoWindows in
  let worker := summarizeWorker flakyPage None in
  (needsChunking twoWindows ChunkingService.summarizer = true /\
   createChunks twoWindows ChunkingService.summarizer = [c1] ++ c2 :: []) /\
  answers worker [c1] 0%nat = Some ([workerSuccess (JS.lit "S")], 1%nat) /\
  worker c2 1%nat =
    (inl (ThrownError (JS.lit "The model crashed")), 2%nat,
     [Create (JS.lit "Summarizer") (LanguageOption (JS.lit "en"));
      Run (JS.lit "Summarizer") c2]) /\
  exists tr,
    summarizeText flakyPage twoWindows None true 0%nat =
      (inr (failed (JS.lit "SUMMARIZE_ERROR") (JS.lit "The model crashed") None),
       2%nat, tr) /\
    invocations tr = [c1] ++ [c2].
Proof.
  intros c1 c2 worker.
  assert (H1 : needsChunking twoWindows ChunkingService.summarizer = true)
    by (vm_compute; reflexivity).
  assert (H2 : createChunks twoWindows ChunkingService.summarizer = [c1] ++ c2 :: [])
    by (vm_compute; reflexivity).
  assert (H3 : answers worker [c1] 0%nat = Some ([workerSuccess (JS.lit "S")], 1%nat))
    by reflexivity.
  assert (H4 : worker c2 1%nat =
               (inl (ThrownError (JS.lit "The model crashed")), 2%nat,
                [Create (JS.lit "Summarizer") (LanguageOption (JS.lit "en"));
                 Run (JS.lit "Summarizer") c2]))
    by reflexivity.
  split; [exact (conj H1 H2) | split; [exact H3 | split; [exact H4 |]]].
  exact (@summarizeText_chunk_throws nat flakyPage _ _ (JS.lit "available")
           twoWindows None true [c1] c2 [] _ _ _ 0%nat 0%nat 1%nat 2%nat
           eq_refl eq_refl eq_refl eq_refl H1 H2 H3 H4).
Defined.

End GatewayMoreRuns.
